(** * BiteRank backend: the extraction-and-scoring pipeline, embedded in Rocq

    A shallow embedding of the Python services under [services/]:
    [value_calculator.py], [gemini_service.py], [rate_limiter.py],
    [ubereats_scraper.py], [menu_scraper.py] and [ubereats_store_search.py],
    and of the helpers of the scraping endpoints in [api/routes.py].

    Python values are modelled as the interpreter has them: [int] is [Z]
    (unbounded), [float] is the IEEE 754 binary64 type of the kernel
    ([PrimFloat.float], specified by [SpecFloat]), [str] is a list of Unicode
    code points, [None] is [option], a raised exception is the [Raise] branch of
    the [result] monad.  The outside world (HTTP, the regular-expression engine,
    the HTML parser, [json.loads], the estimator, Unicode tables, libm) enters
    through section variables.  The recursive walks over parsed JSON are total
    functions; where the code turns any exception into a result
    ([_parse_search_results]), the interpreter's recursion limit enters as a
    section variable too. *)

From Stdlib Require Import String Ascii.
From Stdlib Require Import ZArith Lia Floats.
From Stdlib Require Strings.Byte.
From stdpp Require Import base option list gmap.

#[local] Open Scope Z_scope.
#[local] Set Warnings "-inexact-float,-register-all".

(** ** The Python runtime *)

Module Py.

(** Exceptions the modelled code can raise. *)
Inductive exn : Type :=
| OverflowError
| ZeroDivisionError
| TypeError
| ValueError
| AttributeError
| KeyError
| JSONDecodeError
| HTTPError
| RecursionError.

(** The outcome of evaluating an expression: a value or a raised exception. *)
Inductive result (A : Type) : Type :=
| Ok (a : A)
| Raise (e : exn).
Arguments Ok {A} a.
Arguments Raise {A} e.

Definition bind {A B : Type} (c : result A) (k : A -> result B) : result B :=
  match c with
  | Ok a => k a
  | Raise e => Raise e
  end.

Definition is_ok {A : Type} (c : result A) : bool :=
  match c with
  | Ok _ => true
  | Raise _ => false
  end.

(** [try: c except Exception: h]. *)
Definition try_except {A : Type} (c : result A) (h : exn -> result A) : result A :=
  match c with
  | Ok a => Ok a
  | Raise e => h e
  end.

(** Monadic map over a list, left to right, stopping at the first raise. *)
Fixpoint mapM {A B : Type} (f : A -> result B) (l : list A) : result (list B) :=
  match l with
  | [] => Ok []
  | x :: l' =>
      bind (f x) (fun y => bind (mapM f l') (fun ys => Ok (y :: ys)))
  end.

(** *** Strings: sequences of Unicode code points *)

Definition codepoint : Type := N.
Definition pystr : Type := list codepoint.

(** An ASCII literal as a Python string. *)
Definition lit (s : string) : pystr :=
  List.map N_of_ascii (list_ascii_of_string s).

(** [str.isspace] on one character, which is also what [\s] matches in a
    [str] pattern and what [str.strip()] and [str.split()] remove. *)
Definition is_space (c : codepoint) : bool :=
  ((9 <=? c) && (c <=? 13) || (28 <=? c) && (c <=? 32)
   || (c =? 133) || (c =? 160) || (c =? 5760)
   || (8192 <=? c) && (c <=? 8202)
   || (c =? 8232) || (c =? 8233) || (c =? 8239) || (c =? 8287)
   || (c =? 12288))%N.

(** [s.strip()]. *)
Fixpoint lstrip (s : pystr) : pystr :=
  match s with
  | [] => []
  | c :: s' => if is_space c then lstrip s' else s
  end.
Definition rstrip (s : pystr) : pystr := reverse (lstrip (reverse s)).
Definition strip (s : pystr) : pystr := rstrip (lstrip s).

(** [s.replace(old, new)] for a one-character [old]. *)
Definition replace_char (old : codepoint) (new : pystr) (s : pystr) : pystr :=
  flat_map (fun c => if (c =? old)%N then new else [c]) s.

(** [needle in s] on strings. *)
Fixpoint is_prefix (p s : pystr) : bool :=
  match p, s with
  | [], _ => true
  | _ :: _, [] => false
  | a :: p', b :: s' => (a =? b)%N && is_prefix p' s'
  end.

Fixpoint contains (needle s : pystr) : bool :=
  is_prefix needle s ||
  match s with
  | [] => false
  | _ :: s' => contains needle s'
  end.

(** [s.split(sep)] for a one-character [sep]: always at least one part. *)
Fixpoint split_char (sep : codepoint) (s : pystr) : list pystr :=
  match s with
  | [] => [[]]
  | c :: s' =>
      if (c =? sep)%N then [] :: split_char sep s'
      else match split_char sep s' with
           | [] => [[c]]
           | p :: ps => (c :: p) :: ps
           end
  end.

(** [s.split()]: the maximal runs of non-space characters. *)
Fixpoint words_aux (cur : pystr) (s : pystr) : list pystr :=
  match s with
  | [] => if decide (cur = []) then [] else [reverse cur]
  | c :: s' =>
      if is_space c
      then (if decide (cur = []) then words_aux [] s'
            else reverse cur :: words_aux [] s')
      else words_aux (c :: cur) s'
  end.
Definition words (s : pystr) : list pystr := words_aux [] s.

(** [re.sub(r"\s+", " ", s)]: every maximal run of spaces becomes one space. *)
Fixpoint collapse_spaces (in_run : bool) (s : pystr) : pystr :=
  match s with
  | [] => []
  | c :: s' =>
      if is_space c
      then (if in_run then collapse_spaces true s'
            else 32%N :: collapse_spaces true s')
      else c :: collapse_spaces false s'
  end.

(** The parts of the Unicode database the code reaches through [str.lower],
    [str.title], the [\d] class and the digit values [float()] reads. *)
Record unicode_db : Type := {
  u_lower : pystr -> pystr;
  u_title : pystr -> pystr;
  u_decimal : codepoint -> option Z
}.

(** The restriction of the database to ASCII, for concrete runs. *)
Definition ascii_lower_char (c : codepoint) : codepoint :=
  if ((65 <=? c) && (c <=? 90))%N then (c + 32)%N else c.
Definition ascii_upper_char (c : codepoint) : codepoint :=
  if ((97 <=? c) && (c <=? 122))%N then (c - 32)%N else c.
Definition ascii_is_alpha (c : codepoint) : bool :=
  ((65 <=? c) && (c <=? 90) || (97 <=? c) && (c <=? 122))%N.
Fixpoint ascii_title_aux (prev_cased : bool) (s : pystr) : pystr :=
  match s with
  | [] => []
  | c :: s' =>
      (if prev_cased then ascii_lower_char c else ascii_upper_char c)
        :: ascii_title_aux (ascii_is_alpha c) s'
  end.
Definition ascii_decimal (c : codepoint) : option Z :=
  if ((48 <=? c) && (c <=? 57))%N then Some (Z.of_N c - 48) else None.
Definition ascii_db : unicode_db :=
  {| u_lower := List.map ascii_lower_char;
     u_title := ascii_title_aux false;
     u_decimal := ascii_decimal |}.

(** *** Numbers

    [float] is binary64.  The arithmetic operators are the kernel's; the
    conversions Python adds on top (int to float, [int / int], [round],
    decimal literals) are written with [SpecFloat]'s rounding functions, all
    of them round-to-nearest-even. *)

(** The float nearest to the quotient of two positive integers, with sign
    [s]; an infinity when the quotient is out of range. *)
Definition SFquot (s : bool) (a b : positive) : spec_float :=
  let '(q, e, l) := SFdiv_core_binary prec emax (Zpos a) 0 (Zpos b) 0 in
  binary_round_aux prec emax s q e l.

(** [float(n)] for an [int]: [OverflowError] when [n] rounds to an infinity. *)
Definition float_of_int (n : Z) : result float :=
  match binary_normalize prec emax n 0 false with
  | S754_infinity _ => Raise OverflowError
  | sf => Ok (SF2Prim sf)
  end.

(** [a / b] on two [int]s: the correctly rounded quotient. *)
Definition int_truediv (a b : Z) : result float :=
  match b with
  | Z0 => Raise ZeroDivisionError
  | _ =>
      match a with
      | Z0 => Ok (if b <? 0 then neg_zero else zero)
      | _ =>
          match SFquot (xorb (a <? 0) (b <? 0))
                  (Z.to_pos (Z.abs a)) (Z.to_pos (Z.abs b)) with
          | S754_infinity _ => Raise OverflowError
          | sf => Ok (SF2Prim sf)
          end
      end
  end.

(** [x / y] on two [float]s. *)
Definition float_truediv (x y : float) : result float :=
  if is_zero y then Raise ZeroDivisionError else Ok (x / y)%float.

(** [x / n] for a [float] and an [int]: the [int] is converted first. *)
Definition float_div_int (x : float) (n : Z) : result float :=
  bind (float_of_int n) (fun y => float_truediv x y).

(** [bool(x)] for a [float]: false exactly on the two zeros. *)
Definition float_truthy (x : float) : bool := negb (is_zero x).

(** Round-half-even of the rational [num / den], [den] positive. *)
Definition round_half_even (num den : Z) : Z :=
  let q := num / den in
  match (2 * (num mod den)) ?= den with
  | Lt => q
  | Gt => q + 1
  | Eq => if Z.even q then q else q + 1
  end.

(** [round(x, ndigits)] for a [float] and [0 <= ndigits <= 22]: the exact
    value of [x] is rounded half-even to [ndigits] decimals, and the float
    nearest to that decimal is returned; zeros, infinities and NaN round to
    themselves, and the sign of a result that rounds to zero is kept. *)
Definition py_round (x : float) (ndigits : Z) : float :=
  match Prim2SF x with
  | S754_finite s m e =>
      let p := 10 ^ ndigits in
      let n := if 0 <=? e then Zpos m * 2 ^ e * p
               else round_half_even (Zpos m * p) (2 ^ (- e)) in
      match n with
      | Zpos n' => SF2Prim (SFquot s n' (Z.to_pos p))
      | _ => if s then neg_zero else zero
      end
  | _ => x
  end.

(** A number that is an [int] or a [float]. *)
Inductive pynum : Type :=
| PInt (z : Z)
| PFloat (f : float).

(** [x < 0] and [x <= 0]. *)
Definition num_lt0 (x : pynum) : bool :=
  match x with
  | PInt z => z <? 0
  | PFloat f => (f <? 0)%float
  end.

(** [x / n] for a number [x] and an [int] [n]. *)
Definition num_div_int (x : pynum) (n : Z) : result float :=
  match x with
  | PInt z => int_truediv z n
  | PFloat f => float_div_int f n
  end.

(** *** JSON values, as [json.loads] returns them

    A [dict] is kept as the list of its items in insertion order. *)
Inductive json : Type :=
| JNull
| JBool (b : bool)
| JInt (z : Z)
| JFloat (f : float)
| JStr (s : pystr)
| JList (l : list json)
| JDict (d : list (pystr * json)).

(** [d.get(k)] on the items of a dict: [None] when the key is absent. *)
Fixpoint dict_lookup (d : list (pystr * json)) (k : pystr) : option json :=
  match d with
  | [] => None
  | (k', v) :: d' => if decide (k' = k) then Some v else dict_lookup d' k
  end.

(** [d.get(k)]: a missing key reads as [None], which is [JNull]. *)
Definition dict_get (d : list (pystr * json)) (k : pystr) : json :=
  match dict_lookup d k with
  | Some v => v
  | None => JNull
  end.

(** [k in d]. *)
Definition dict_has (d : list (pystr * json)) (k : pystr) : bool :=
  bool_decide (is_Some (dict_lookup d k)).

(** [bool(v)]. *)
Definition truthy (v : json) : bool :=
  match v with
  | JNull => false
  | JBool b => b
  | JInt z => negb (z =? 0)
  | JFloat f => float_truthy f
  | JStr s => negb (bool_decide (s = []))
  | JList l => negb (bool_decide (l = []))
  | JDict d => negb (bool_decide (d = []))
  end.

(** [a or b]. *)
Definition py_or (a b : json) : json := if truthy a then a else b.

Definition is_none (v : json) : bool :=
  match v with JNull => true | _ => false end.
Definition is_str (v : json) : bool :=
  match v with JStr _ => true | _ => false end.
Definition is_dict (v : json) : bool :=
  match v with JDict _ => true | _ => false end.

(** [v.get(k)] on an arbitrary value: only a dict has the method. *)
Definition get_attr (v : json) (k : pystr) : result json :=
  match v with
  | JDict d => Ok (dict_get d k)
  | _ => Raise AttributeError
  end.

(** [d.get(k, {}).get(k2)]. *)
Definition get_nested (d : list (pystr * json)) (k k2 : pystr) : result json :=
  match dict_lookup d k with
  | None => Ok JNull
  | Some v => get_attr v k2
  end.

(** [int(v)] on a float: truncation toward zero. *)
Definition int_of_float (f : float) : result Z :=
  match Prim2SF f with
  | S754_zero _ => Ok 0
  | S754_infinity _ => Raise OverflowError
  | S754_nan => Raise ValueError
  | S754_finite s m e =>
      let a := if 0 <=? e then Zpos m * 2 ^ e else Zpos m / 2 ^ (- e) in
      Ok (if s then - a else a)
  end.

(** [int(v)] and [float(v)] on a JSON value.  The parsers of numeric
    strings are arguments: [None] stands for their [ValueError]. *)
Definition py_int (int_of_str : pystr -> option Z) (v : json) : result Z :=
  match v with
  | JInt z => Ok z
  | JBool b => Ok (if b then 1 else 0)
  | JFloat f => int_of_float f
  | JStr s => match int_of_str s with Some z => Ok z | None => Raise ValueError end
  | JNull | JList _ | JDict _ => Raise TypeError
  end.

Definition py_float (float_of_str : pystr -> option float) (v : json) : result float :=
  match v with
  | JInt z => float_of_int z
  | JBool b => Ok (if b then 1 else 0)%float
  | JFloat f => Ok f
  | JStr s => match float_of_str s with Some f => Ok f | None => Raise ValueError end
  | JNull | JList _ | JDict _ => Raise TypeError
  end.

(** *** Decimal literals

    The leftmost match of [(\d+(?:\.\d{1,2})?)] in a string, as the pair of
    the digits read as one integer and the number of fraction digits. *)
Section Decimal.
Variable U : unicode_db.

Fixpoint take_digits (acc : Z) (s : pystr) : Z * pystr :=
  match s with
  | [] => (acc, [])
  | c :: s' =>
      match u_decimal U c with
      | Some d => take_digits (10 * acc + d) s'
      | None => (acc, s)
      end
  end.

(** The optional group [(?:\.\d{1,2})?] after the integer part [acc]. *)
Definition take_fraction (acc : Z) (s : pystr) : Z * Z :=
  match s with
  | dot :: c1 :: s' =>
      if (dot =? 46)%N then
        match u_decimal U c1 with
        | Some d1 =>
            match s' with
            | c2 :: _ =>
                match u_decimal U c2 with
                | Some d2 => (100 * acc + 10 * d1 + d2, 2)
                | None => (10 * acc + d1, 1)
                end
            | [] => (10 * acc + d1, 1)
            end
        | None => (acc, 0)
        end
      else (acc, 0)
  | _ => (acc, 0)
  end.

Fixpoint search_decimal (s : pystr) : option (Z * Z) :=
  match s with
  | [] => None
  | c :: s' =>
      match u_decimal U c with
      | Some _ =>
          let '(n, rest) := take_digits 0 s in
          Some (take_fraction n rest)
      | None => search_decimal s'
      end
  end.

(** The text left after a match of [\d+(?:\.\d{1,2})?] at the head of [s]. *)
Definition skip_decimal (s : pystr) : option pystr :=
  match s with
  | c :: _ =>
      match u_decimal U c with
      | Some _ =>
          let rest := (take_digits 0 s).2 in
          Some match rest with
               | dot :: c1 :: s' =>
                   if (dot =? 46)%N then
                     match u_decimal U c1 with
                     | Some _ =>
                         match s' with
                         | c2 :: s'' => if u_decimal U c2 is Some _ then s'' else s'
                         | [] => s'
                         end
                     | None => rest
                     end
                   else rest
               | _ => rest
               end
      | None => None
      end
  | [] => None
  end.

(** The leftmost match of [(\d+(?:\.\d+)?)]: digits and number of fraction
    digits. *)
Fixpoint take_digits_count (acc : Z) (count : Z) (s : pystr) : Z * Z * pystr :=
  match s with
  | [] => (acc, count, [])
  | c :: s' =>
      match u_decimal U c with
      | Some d => take_digits_count (10 * acc + d) (count + 1) s'
      | None => (acc, count, s)
      end
  end.

Fixpoint search_decimal_long (s : pystr) : option (Z * Z) :=
  match s with
  | [] => None
  | c :: s' =>
      match u_decimal U c with
      | Some _ =>
          let '(n, rest) := take_digits 0 s in
          Some match rest with
               | dot :: c1 :: _ =>
                   if (dot =? 46)%N then
                     if u_decimal U c1 is Some _ then
                       let '(n', k, _) := take_digits_count n 0 (tail rest) in (n', k)
                     else (n, 0)
                   else (n, 0)
               | _ => (n, 0)
               end
      | None => search_decimal_long s'
      end
  end.

(** The leftmost match of [(\d{2,4})], read as an integer. *)
Fixpoint search_digits_2_4 (s : pystr) : option Z :=
  match s with
  | c1 :: s' =>
      match u_decimal U c1, s' with
      | Some d1, c2 :: s2 =>
          match u_decimal U c2 with
          | Some d2 =>
              match s2 with
              | c3 :: s3 =>
                  match u_decimal U c3 with
                  | Some d3 =>
                      match s3 with
                      | c4 :: _ =>
                          match u_decimal U c4 with
                          | Some d4 => Some (1000 * d1 + 100 * d2 + 10 * d3 + d4)
                          | None => Some (100 * d1 + 10 * d2 + d3)
                          end
                      | [] => Some (100 * d1 + 10 * d2 + d3)
                      end
                  | None => Some (10 * d1 + d2)
                  end
              | [] => Some (10 * d1 + d2)
              end
          | None => search_digits_2_4 s'
          end
      | _, _ => search_digits_2_4 s'
      end
  | [] => None
  end.

End Decimal.

(** [float(text)] for a matched decimal literal: the float nearest to
    [n / 10 ^ k]; a literal too large for a float reads as [inf]. *)
Definition float_of_decimal (n k : Z) : float :=
  match n with
  | Zpos n' => SF2Prim (SFquot false n' (Z.to_pos (10 ^ k)))
  | _ => zero
  end.

End Py.

(** ** [services/value_calculator.py] *)

Module ValueCalculator.
Import Py.

Definition TYPICAL_MEAL_CALORIES : Z := 800.
Definition TYPICAL_MEAL_PROTEIN : Z := 30.
Definition TYPICAL_MEAL_PRICE : float := 9.0.
(** [TYPICAL_MEAL_PRICE / TYPICAL_MEAL_CALORIES], evaluated once at import. *)
Definition TYPICAL_PRICE_PER_CALORIE : float :=
  (TYPICAL_MEAL_PRICE / 800.0)%float.

(** The base of the saturation curve, [2.718281828] in the source. *)
Definition EULER : float := 2.718281828.

(** [min(a, b)] and [max(a, b)] as the built-ins compute them: the first
    argument is kept unless the second is strictly smaller (larger). *)
Definition py_min2 (a b : float) : float := if (b <? a)%float then b else a.
Definition py_max2 (a b : float) : float := if (a <? b)%float then b else a.

(** [_clamp(x)] with its defaults [lo=0.0], [hi=100.0]. *)
Definition _clamp (x : float) : float := py_max2 0 (py_min2 100 x).

(** The dict [calculate_final_value_score] returns. *)
Record scores : Type := {
  value_score : float;
  satiety_score : float;
  price_per_calorie : float;
  price_efficiency_score : float
}.

Section WithLibm.
(** [pow(x, y)] on floats, from the C library, as Python wraps it. *)
Variable float_pow : float -> float -> result float.

Definition calculate_satiety_score
  (calories : option Z) (protein_grams : option pynum) : result float :=
  match calories with
  | None => Ok 0%float
  | Some c =>
      if c <=? 0 then Ok 0%float
      else
        let protein_grams :=
          match protein_grams with
          | None => PFloat 0
          | Some p => if num_lt0 p then PFloat 0 else p
          end in
        bind (int_truediv c TYPICAL_MEAL_CALORIES) (fun cq =>
        let cal_component := (cq * 0.7)%float in
        bind (num_div_int protein_grams TYPICAL_MEAL_PROTEIN) (fun pq =>
        let protein_component := (pq * 0.3)%float in
        let raw := (cal_component + protein_component)%float in
        bind (float_pow EULER (- raw)%float) (fun pw =>
        let score := ((1.0 - pw) * 100.0)%float in
        let score := _clamp score in
        Ok (py_round score 1))))
  end.

Definition calculate_price_efficiency_score
  (price : option float) (calories : option Z) : result float :=
  match price with
  | None => Ok 0%float
  | Some p =>
      if (p <=? 0)%float then Ok 0%float
      else
        match calories with
        | None => Ok 0%float
        | Some c =>
            if c <=? 0 then Ok 0%float
            else
              bind (float_div_int p c) (fun deal_ppc =>
              if (deal_ppc <=? 0)%float then Ok 0%float
              else
                bind (float_truediv TYPICAL_PRICE_PER_CALORIE deal_ppc) (fun r =>
                let score := (r * 50.0)%float in
                let score := _clamp score in
                Ok (py_round score 1)))
        end
  end.

(** [round(price / calories, 4) if calories and calories > 0 else 0.0]. *)
Definition price_per_calorie_of
  (price : option float) (calories : option Z) : result float :=
  match calories with
  | None => Ok 0%float
  | Some c =>
      if negb (c =? 0) && (0 <? c) then
        match price with
        | None => Raise TypeError
        | Some p => bind (float_div_int p c) (fun d => Ok (py_round d 4))
        end
      else Ok 0%float
  end.

Definition calculate_final_value_score
  (calories : option Z) (protein_grams : option pynum) (price : option float)
  : result scores :=
  bind (calculate_satiety_score calories protein_grams) (fun satiety =>
  bind (calculate_price_efficiency_score price calories) (fun price_eff =>
  let final_score := (satiety * 0.4 + price_eff * 0.6)%float in
  bind (price_per_calorie_of price calories) (fun ppc =>
  Ok {| value_score := py_round final_score 1;
        satiety_score := py_round satiety 1;
        price_per_calorie := ppc;
        price_efficiency_score := py_round price_eff 1 |}))).

End WithLibm.

(** A stand-in for libm's [pow] at the base [2.718281828] for concrete runs:
    [exp (y * ln 2.718281828)] by range reduction and a Taylor polynomial.
    It never raises. *)
Fixpoint exp_taylor (n : nat) (k : float) (y term acc : float) : float :=
  match n with
  | O => acc
  | S n' =>
      let term := (term * y / k)%float in
      exp_taylor n' (k + 1)%float y term (acc + term)%float
  end.
Fixpoint square_n (n : nat) (x : float) : float :=
  match n with
  | O => x
  | S n' => square_n n' (x * x)%float
  end.
Definition exp_approx (y : float) : float :=
  square_n 10 (exp_taylor 25 1 (y / 1024)%float 1 1).
Definition pow_model (x y : float) : result float :=
  Ok (exp_approx (y * 0.999999999831127)%float).

End ValueCalculator.

(** ** [services/gemini_service.py] *)

Module GeminiService.
Import Py ValueCalculator.

(** The dict [score_deal] returns. *)
Record deal_score : Type := {
  ds_value_score : float;
  ds_satiety_score : float;
  ds_price_per_calorie : float;
  ds_calories : Z;
  ds_protein_grams : pynum
}.

(** What [score_deal] does to the outside world, in order. *)
Inductive event : Type :=
| RateLimiterAcquire
| EstimatorCall (prompt : pystr).

Section WithEstimator.
Variable float_pow : float -> float -> result float.
(** [self.model.generate_content(prompt).text]: the estimator's reply, or
    the exception the call raised. *)
Variable generate_content : pystr -> result pystr.
(** The f-string that builds the prompt. *)
Variable build_prompt : pystr -> pystr -> pystr -> pystr -> pystr.
(** [re.sub(r'```json\s*|\s*```', '', text)]. *)
Variable strip_code_fences : pystr -> pystr.
(** [json.loads]: [None] stands for [JSONDecodeError]. *)
Variable json_loads : pystr -> option json.
(** [int(s)] and [float(s)] on a string: [None] stands for [ValueError]. *)
Variable int_of_str : pystr -> option Z.
Variable float_of_str : pystr -> option float.

(** [v.get(k, 0)]. *)
Definition get_default0 (v : json) (k : pystr) : result json :=
  match v with
  | JDict d => Ok (match dict_lookup d k with Some x => x | None => JInt 0 end)
  | _ => Raise AttributeError
  end.

Definition pack (s : scores) (calories : Z) (protein : pynum) : deal_score :=
  {| ds_value_score := value_score s;
     ds_satiety_score := satiety_score s;
     ds_price_per_calorie := price_per_calorie s;
     ds_calories := calories;
     ds_protein_grams := protein |}.

(** The two [except] handlers, which have the same body: score the fixed
    defaults. *)
Definition score_defaults (price : float) : result deal_score :=
  bind (calculate_final_value_score float_pow (Some 600) (Some (PInt 20)) (Some price))
    (fun s => Ok (pack s 600 (PInt 20))).

(** The reply of the estimator read as [(calories, protein)]: the part of
    the [try] block from the call to the two conversions. *)
Definition parse_reply (reply : pystr) : result (Z * float) :=
  let response_text := strip reply in
  let response_text := strip_code_fences response_text in
  match json_loads response_text with
  | None => Raise JSONDecodeError
  | Some nutrition_data =>
      bind (get_default0 nutrition_data (lit "calories")) (fun cv =>
      bind (py_int int_of_str cv) (fun calories =>
      bind (get_default0 nutrition_data (lit "protein")) (fun pv =>
      bind (py_float float_of_str pv) (fun protein =>
      Ok (calories, protein)))))
  end.

(** The body of the [try] block. *)
Definition estimate_and_score
  (item_name restaurant_name description portion_size : pystr) (price : float)
  : result deal_score :=
  let prompt := build_prompt item_name restaurant_name description portion_size in
  bind (generate_content prompt) (fun reply =>
  bind (parse_reply reply) (fun '(calories, protein) =>
  let '(calories, protein) :=
    if calories <=? 0 then (600, PInt 20) else (calories, PFloat protein) in
  bind (calculate_final_value_score float_pow (Some calories) (Some protein) (Some price))
    (fun s => Ok (pack s calories protein)))).

(** The path taken when no usable calories were provided: the [try] block
    with its handlers, after one rate-limiter token and one estimator call. *)
Definition estimate_path
  (item_name restaurant_name : pystr) (price : float)
  (description portion_size : pystr) : result deal_score * list event :=
  (try_except
     (estimate_and_score item_name restaurant_name description portion_size price)
     (fun _ => score_defaults price),
   [RateLimiterAcquire;
    EstimatorCall (build_prompt item_name restaurant_name description portion_size)]).

(** [if calories and calories > 0]. *)
Definition provided (calories : option Z) : option Z :=
  match calories with
  | Some c => if negb (c =? 0) && (0 <? c) then Some c else None
  | None => None
  end.

(** [score_deal]: the result, and the trace of its calls to the rate limiter
    and to the estimator. *)
Definition score_deal
  (item_name restaurant_name : pystr) (price : float)
  (calories : option Z) (protein_grams : option pynum)
  (description portion_size deal_type : pystr)
  : result deal_score * list event :=
  match provided calories with
  | Some c =>
      let protein_grams :=
        match protein_grams with
        | None => PInt 0
        | Some p => p
        end in
      (bind (calculate_final_value_score float_pow (Some c) (Some protein_grams) (Some price))
         (fun s => Ok (pack s c protein_grams)),
       [])
  | None => estimate_path item_name restaurant_name price description portion_size
  end.

End WithEstimator.

End GeminiService.

(** ** [services/rate_limiter.py] *)

Module RateLimiter.
Import Py.

(** What [acquire] can raise. *)
Inductive raised : Type :=
| WindowOverflow
| IndexError.

(** The outcome of [acquire]: its value, or what it raised. *)
Inductive outcome (A : Type) : Type :=
| Done (a : A)
| Raised (e : raised).
Arguments Done {A} a.
Arguments Raised {A} e.

(** The [while] loop, for a non-empty deque: timestamps are popped from the
    left while the oldest one is before [horizon]. *)
Fixpoint drop_expired (horizon : float) (requests : list float) : list float :=
  match requests with
  | [] => []
  | oldest :: rest =>
      if (oldest <? horizon)%float then drop_expired horizon rest else requests
  end.

(** [while self.requests and self.requests[0] < now - self.time_window:
    self.requests.popleft()]: the window, an [int], is converted to a float
    when the comparison is first evaluated. *)
Definition cleanup (time_window : Z) (now : float) (requests : list float)
  : outcome (list float) :=
  match requests with
  | [] => Done []
  | _ :: _ =>
      match float_of_int time_window with
      | Ok window => Done (drop_expired (now - window)%float requests)
      | Raise _ => Raised WindowOverflow
      end
  end.

(** [acquire], from the deque before to the deque after and the time slept,
    if any.  [now] is the clock when the lock is taken and [now_after_sleep]
    the clock after [asyncio.sleep] returns. *)
Definition acquire (max_requests time_window : Z) (now now_after_sleep : float)
  (requests : list float) : outcome (list float * option float) :=
  match cleanup time_window now requests with
  | Raised e => Raised e
  | Done cleaned =>
      if Z.of_nat (length cleaned) >=? max_requests then
        match cleaned with
        | [] => Raised IndexError
        | oldest :: _ =>
            match float_of_int time_window with
            | Raise _ => Raised WindowOverflow
            | Ok window =>
                let sleep_time := (oldest + window - now + 0.1)%float in
                if (0 <? sleep_time)%float then
                  match cleanup time_window now_after_sleep cleaned with
                  | Raised e => Raised e
                  | Done cleaned' =>
                      Done (cleaned' ++ [now_after_sleep], Some sleep_time)
                  end
                else Done (cleaned ++ [now], None)
            end
        end
      else Done (cleaned ++ [now], None)
  end.

End RateLimiter.

(** ** [services/ubereats_scraper.py] *)

Module UberEatsScraper.
Import Py.

Record UberEatsMenuItem : Type := {
  restaurant : pystr;
  name : pystr;
  price : float;
  category : option pystr;
  source_price_vendor : pystr;
  store_external_id : option pystr;
  location : option pystr
}.

(** The dict the walker yields for an item-like node. *)
Record candidate : Type := {
  c_name : json;
  c_price : json;
  c_category : option pystr
}.

(** [_extract_json_from_script]: the balanced-brace slices of a script, by
    depth tracking; [cur] holds the open slice, last character first. *)
Fixpoint scan_braces (depth : nat) (cur : pystr) (s : pystr) : list pystr :=
  match s with
  | [] => []
  | c :: s' =>
      if (c =? 123)%N then scan_braces (S depth) (c :: (if depth is O then [] else cur)) s'
      else if (c =? 125)%N then
        match depth with
        | O => scan_braces O cur s'
        | S O => reverse (c :: cur) :: scan_braces O [] s'
        | S d => scan_braces d (c :: cur) s'
        end
      else scan_braces depth (if depth is O then cur else c :: cur) s'
  end.
Definition _extract_json_from_script (script_text : pystr) : list pystr :=
  scan_braces O [] script_text.

(** [_extract_price_field]. *)
Fixpoint first_price (candidates : list json) : json :=
  match candidates with
  | [] => JNull
  | c :: rest =>
      match c with
      | JNull => first_price rest
      | JDict d =>
          let amount := py_or (dict_get d (lit "amount")) (dict_get d (lit "price")) in
          if is_none amount then first_price rest else amount
      | _ => c
      end
  end.

Definition _extract_price_field (node : list (pystr * json)) : result json :=
  bind (get_nested node (lit "priceInfo") (lit "price")) (fun c2 =>
  bind (get_nested node (lit "priceInfo") (lit "unitPrice")) (fun c3 =>
  bind (get_nested node (lit "itemPrice") (lit "price")) (fun c4 =>
  Ok (first_price
        [dict_get node (lit "price"); c2; c3; c4;
         dict_get node (lit "priceTag");
         dict_get node (lit "amount");
         dict_get node (lit "price_in_cents");
         dict_get node (lit "priceInCents")])))).

(** [node.get("title") or node.get("name") or node.get("displayName")]. *)
Definition node_name (node : list (pystr * json)) : json :=
  py_or (py_or (dict_get node (lit "title")) (dict_get node (lit "name")))
        (dict_get node (lit "displayName")).

(** [_looks_like_item] on a dict. *)
Definition _looks_like_item (node : list (pystr * json)) : result bool :=
  bind (_extract_price_field node) (fun price =>
  Ok (is_str (node_name node) && negb (is_none price))).

(** [_clean_name]. *)
Definition _clean_name (text : json) : option pystr :=
  match text with
  | JStr s =>
      if bool_decide (s = []) then None
      else
        let cleaned := filter (fun c => c <> 174%N /\ c <> 8482%N) s in
        let cleaned := collapse_spaces false cleaned in
        Some (strip cleaned)
  | _ => None
  end.

Definition opt_str (o : option pystr) : json :=
  match o with
  | Some s => JStr s
  | None => JNull
  end.

Section WithWorld.
Variable U : unicode_db.
(** [json.loads]: the value parsed, or the exception raised.  Malformed text
    raises [JSONDecodeError]; text it refuses for another reason raises
    something else ([ValueError] for an integer literal beyond the digit
    limit, [RecursionError] for nesting beyond the interpreter's). *)
Variable json_loads : pystr -> result json.
(** [STATE_PATTERNS[i].finditer(html)] and [STATE_PATTERNS[i].search(text)],
    each match given by its group 1. *)
Variable pattern_finditer : nat -> pystr -> list pystr.
Variable pattern_search : nat -> pystr -> option pystr.
(** [script.string or script.get_text()] for every [<script>] of the page. *)
Variable soup_script_texts : pystr -> list pystr.
(** The HTTP GET of [_fetch], with [raise_for_status]. *)
Variable http_get : pystr -> result pystr.
(** [urlparse(url).path]. *)
Variable url_path : pystr -> pystr.

Definition n_patterns : nat := 8.

(** [_extract_state_payloads]. *)
Definition script_payloads (text : pystr) : list pystr :=
  if bool_decide (text = []) then []
  else
    let has_relay := contains (lit "__RELAY_STORE__") text in
    let has_apollo := contains (lit "__APOLLO_STATE__") text in
    omap (fun i => pattern_search i text) (seq 0 n_patterns)
    ++ (if has_relay || has_apollo then _extract_json_from_script text else []).

Definition _extract_state_payloads (html : pystr) : list pystr :=
  let payloads := flat_map (fun i => pattern_finditer i html) (seq 0 n_patterns) in
  if bool_decide (payloads = []) then
    flat_map script_payloads (soup_script_texts html)
  else payloads.

(** [type.lower() in {"category", "section", "menuitemsection"}]. *)
Definition is_section_type (t : pystr) : bool :=
  bool_decide (u_lower U t ∈ [lit "category"; lit "section"; lit "menuitemsection"]).
(** [key.lower() in {"category", "section", "menu_items_section"}]. *)
Definition is_section_key (k : pystr) : bool :=
  bool_decide (u_lower U k ∈ [lit "category"; lit "section"; lit "menu_items_section"]).

(** The category a dict node hands down to its children. *)
Definition category_local (node : list (pystr * json)) (current_category : option pystr)
  : option pystr :=
  match node_name node with
  | JStr s =>
      if truthy (JStr s) then
        match py_or (dict_get node (lit "type")) (dict_get node (lit "__typename")) with
        | JStr t =>
            if truthy (JStr t) && is_section_type t then Some s else current_category
        | _ => current_category
        end
      else current_category
  | _ => current_category
  end.

(** The category handed to the child under [key]. *)
Definition next_category (key : pystr) (value : json) (local : option pystr)
  : option pystr :=
  match value with
  | JDict v =>
      if is_section_key key then
        match py_or (dict_get v (lit "title")) (dict_get v (lit "name")) with
        | JStr title => Some title
        | _ => local
        end
      else local
  | _ => local
  end.

(** What a dict node yields for itself. *)
Definition yield_here (node : list (pystr * json)) (current_category : option pystr)
  : result (list candidate) :=
  bind (_looks_like_item node) (fun looks =>
  if looks then
    bind (_extract_price_field node) (fun p =>
    Ok [ {| c_name := py_or (node_name node) (dict_get node (lit "shortName"));
            c_price := p;
            c_category := current_category |} ])
  else Ok []).

(** [_extract_items]: the depth-first walk, as the list the generator yields
    (or the exception it stops with). *)
Fixpoint walk (node : json) (current_category : option pystr)
  : result (list candidate) :=
  match node with
  | JDict d =>
      let local := category_local d current_category in
      bind (yield_here d current_category) (fun here =>
      bind ((fix items (kvs : list (pystr * json)) : result (list candidate) :=
               match kvs with
               | [] => Ok []
               | (key, value) :: kvs' =>
                   bind (walk value (next_category key value local)) (fun a =>
                   bind (items kvs') (fun b => Ok (a ++ b)))
               end) d) (fun below =>
      Ok (here ++ below)))
  | JList l =>
      (fix elems (l : list json) : result (list candidate) :=
         match l with
         | [] => Ok []
         | item :: l' =>
             bind (walk item current_category) (fun a =>
             bind (elems l') (fun b => Ok (a ++ b)))
         end) l
  | _ => Ok []
  end.

Definition _extract_items (payload : json) : result (list candidate) :=
  walk payload None.

(** [_parse_price]. *)
Definition normalize_amount (amount : float) : float :=
  if (20 <? amount)%float then py_round (amount / 100.0)%float 2
  else py_round amount 2.

Definition _parse_price (value : json) : result (option float) :=
  match value with
  | JNull => Ok None
  | JInt z => bind (float_of_int z) (fun amount => Ok (Some (normalize_amount amount)))
  | JBool b => Ok (Some (normalize_amount (if b then 1 else 0)%float))
  | JFloat f => Ok (Some (normalize_amount f))
  | JStr s =>
      match search_decimal U (replace_char 44%N [] s) with
      | Some (n, k) => Ok (Some (py_round (float_of_decimal n k) 2))
      | None => Ok None
      end
  | JList _ | JDict _ => Ok None
  end.

(** [_extract_store_id]. *)
Definition _extract_store_id (url : pystr) : option pystr :=
  last (filter (fun segment => segment <> []) (split_char 47%N (url_path url))).

(** The body of the loop over the candidates of one payload. *)
Definition make_item (restaurant_name : pystr) (store_id location : option pystr)
  (item : candidate) : result (option UberEatsMenuItem) :=
  bind (_parse_price (c_price item)) (fun price =>
  match price with
  | None => Ok None
  | Some price =>
      match _clean_name (c_name item) with
      | None => Ok None
      | Some name =>
          if bool_decide (name = []) then Ok None
          else
            Ok (Some {| restaurant := restaurant_name;
                        name := name;
                        price := price;
                        category := _clean_name (opt_str (c_category item));
                        source_price_vendor := lit "ubereats";
                        store_external_id := store_id;
                        location := location |})
      end
  end).

(** The first loop of [fetch_menu]: the items of all payloads, in order.  A
    payload that is not JSON is skipped ([except json.JSONDecodeError:
    continue]); any other exception of [json.loads] leaves the function. *)
Fixpoint collect_items (restaurant_name : pystr) (store_id location : option pystr)
  (payloads : list pystr) : result (list UberEatsMenuItem) :=
  match payloads with
  | [] => Ok []
  | payload :: rest =>
      match json_loads payload with
      | Ok parsed =>
          bind (_extract_items parsed) (fun extracted =>
          bind (mapM (make_item restaurant_name store_id location) extracted) (fun made =>
          bind (collect_items restaurant_name store_id location rest) (fun more =>
          Ok (omap id made ++ more))))
      | Raise JSONDecodeError => collect_items restaurant_name store_id location rest
      | Raise e => Raise e
      end
  end.

(** The dedup key: [(item.name.lower(), item.category.lower() if item.category else None)]. *)
Definition dedup_key (item : UberEatsMenuItem) : pystr * option pystr :=
  (u_lower U (name item),
   match category item with
   | Some c => if bool_decide (c = []) then None else Some (u_lower U c)
   | None => None
   end).

(** The loop that fills the [deduped] dict, kept as its items in insertion
    order. *)
Fixpoint dedup_loop (deduped : list ((pystr * option pystr) * UberEatsMenuItem))
  (items : list UberEatsMenuItem) : list ((pystr * option pystr) * UberEatsMenuItem) :=
  match items with
  | [] => deduped
  | item :: rest =>
      let key := dedup_key item in
      if bool_decide (key ∈ deduped.*1) then dedup_loop deduped rest
      else dedup_loop (deduped ++ [(key, item)]) rest
  end.

Definition fetch_menu (store_url restaurant_name : pystr) (location : option pystr)
  : result (list UberEatsMenuItem) :=
  bind (http_get store_url) (fun html =>
  let store_id := _extract_store_id store_url in
  let payloads := _extract_state_payloads html in
  bind (collect_items restaurant_name store_id location payloads) (fun items =>
  Ok ((dedup_loop [] items).*2))).

End WithWorld.

End UberEatsScraper.

(** ** [services/menu_scraper.py] *)

Module MenuScraper.
Import Py.

Record ScrapedMenuItem : Type := {
  restaurant : pystr;
  name : pystr;
  price : option float;
  calories : option Z;
  protein_grams : option float;
  category : option pystr;
  source_url : option pystr;
  raw : option json
}.

(** The dict [_coerce_menu_item] returns. *)
Record coerced : Type := {
  co_name : pystr;
  co_price : option float;
  co_calories : option Z;
  co_protein : option float;
  co_category : option pystr
}.

(** What the heuristic stage reads of one element the selectors matched:
    [element.get("data-name")], [element.get("aria-label")], the stripped
    text of the first heading-like child whose class matches [title|name]
    (if any), and [element.get_text(" ", strip=True)]. *)
Record element : Type := {
  el_data_name : option pystr;
  el_aria_label : option pystr;
  el_headline : option pystr;
  el_text : pystr
}.

(** [TARGETS]: slug, restaurant name, menu URL. *)
Definition TARGETS : list (pystr * (pystr * pystr)) :=
  [ (lit "mcdonalds", (lit "McDonald's", lit "https://www.mcdonalds.com/us/en-us/full-menu.html"));
    (lit "taco-bell", (lit "Taco Bell", lit "https://www.tacobell.com/food"));
    (lit "wendys", (lit "Wendy's", lit "https://www.wendys.com/menu"));
    (lit "burger-king", (lit "Burger King", lit "https://www.bk.com/menu"));
    (lit "chick-fil-a", (lit "Chick-fil-A", lit "https://www.chick-fil-a.com/menu"));
    (lit "subway", (lit "Subway", lit "https://www.subway.com/en-us/menunutrition/menu")) ].

Fixpoint targets_get (targets : list (pystr * (pystr * pystr))) (slug : pystr)
  : option (pystr * pystr) :=
  match targets with
  | [] => None
  | (k, v) :: rest => if decide (k = slug) then Some v else targets_get rest slug
  end.

(** [_flatten_ldjson]: the dict itself, then what hangs under its menu keys. *)
Fixpoint _flatten_ldjson (data : json) : list json :=
  match data with
  | JDict d =>
      data ::
      flat_map (fun key =>
        (fix under (kvs : list (pystr * json)) : list json :=
           match kvs with
           | [] => []
           | (k, v) :: kvs' =>
               if decide (k = key) then _flatten_ldjson v else under kvs'
           end) d)
        [lit "hasMenu"; lit "hasMenuItem"; lit "hasMenuSection"; lit "itemListElement"]
  | JList l =>
      (fix each (l : list json) : list json :=
         match l with
         | [] => []
         | entry :: l' => _flatten_ldjson entry ++ each l'
         end) l
  | _ => []
  end.

(** [str.splitlines()]. *)
Definition is_line_break (c : codepoint) : bool :=
  ((10 <=? c) && (c <=? 13) || (28 <=? c) && (c <=? 30)
   || (c =? 133) || (c =? 8232) || (c =? 8233))%N.

Fixpoint splitlines_aux (cur : pystr) (s : pystr) : list pystr :=
  match s with
  | [] => if bool_decide (cur = []) then [] else [reverse cur]
  | c :: s' =>
      if (c =? 13)%N then
        match s' with
        | c2 :: s'' =>
            if (c2 =? 10)%N then reverse cur :: splitlines_aux [] s''
            else reverse cur :: splitlines_aux [] s'
        | [] => [reverse cur]
        end
      else if is_line_break c then reverse cur :: splitlines_aux [] s'
      else splitlines_aux (c :: cur) s'
  end.
Definition splitlines (s : pystr) : list pystr := splitlines_aux [] s.

(** [s.strip(" •:-")]. *)
Definition is_bullet (c : codepoint) : bool :=
  ((c =? 32) || (c =? 8226) || (c =? 58) || (c =? 45))%N.
Fixpoint lstrip_bullets (s : pystr) : pystr :=
  match s with
  | [] => []
  | c :: s' => if is_bullet c then lstrip_bullets s' else s
  end.
Definition strip_bullets (s : pystr) : pystr :=
  reverse (lstrip_bullets (reverse (lstrip_bullets s))).

(** [re.sub(r"\s{2,}", " ", s)]: a run of two or more spaces becomes one
    space; [pending] is the run being read, as its first character and
    whether a second one was seen. *)
Definition flush_run (pending : option (codepoint * bool)) : pystr :=
  match pending with
  | None => []
  | Some (w, false) => [w]
  | Some (_, true) => [32%N]
  end.
Fixpoint collapse_runs (pending : option (codepoint * bool)) (s : pystr) : pystr :=
  match s with
  | [] => flush_run pending
  | c :: s' =>
      if is_space c then
        collapse_runs (match pending with
                       | None => Some (c, false)
                       | Some (w, _) => Some (w, true)
                       end) s'
      else flush_run pending ++ c :: collapse_runs None s'
  end.

Definition opt_truthy (o : option pystr) : bool :=
  match o with
  | Some (_ :: _) => true
  | _ => false
  end.
(** [a or b] on optional strings. *)
Definition opt_or (a b : option pystr) : option pystr :=
  if opt_truthy a then a else b.

(** The name the heuristic loop settles on for an element, stripped; [None]
    when the loop [continue]s. *)
Definition element_name (e : element) : option pystr :=
  let name := opt_or (el_data_name e) (el_aria_label e) in
  let name :=
    if opt_truthy name then name
    else if opt_truthy (el_headline e) then el_headline e else name in
  if opt_truthy name then strip <$> name else None.

Section WithWorld.
Variable U : unicode_db.
Variable json_loads : pystr -> option json.
(** The HTTP GET of [_fetch], with [raise_for_status]. *)
Variable http_get : pystr -> result pystr.
(** [script.string or script.get_text()] for every
    [<script type="application/ld+json">] of the page. *)
Variable soup_ldjson_texts : pystr -> list pystr.
(** [soup.select(selectors[i])]. *)
Variable soup_select : pystr -> nat -> list element.
(** [soup.get_text("\n")]. *)
Variable soup_get_text : pystr -> pystr.

(** [_parse_price] (the currency argument is not used by the source). *)
Definition _parse_price (value : json) : result (option float) :=
  match value with
  | JNull => Ok None
  | JInt z => bind (float_of_int z) (fun f => Ok (Some (py_round f 2)))
  | JBool b => Ok (Some (py_round (if b then 1 else 0)%float 2))
  | JFloat f => Ok (Some (py_round f 2))
  | JStr s =>
      match search_decimal U (replace_char 44%N [] s) with
      | Some (n, k) => Ok (Some (py_round (float_of_decimal n k) 2))
      | None => Ok None
      end
  | JList _ | JDict _ => Ok None
  end.

Definition _parse_calories (value : json) : result (option Z) :=
  match value with
  | JNull => Ok None
  | JInt z => Ok (Some z)
  | JBool b => Ok (Some (if b then 1 else 0))
  | JFloat f => bind (int_of_float f) (fun z => Ok (Some z))
  | JStr s => Ok (search_digits_2_4 U (replace_char 44%N [] s))
  | JList _ | JDict _ => Ok None
  end.

Definition _parse_protein (value : json) : result (option float) :=
  match value with
  | JNull => Ok None
  | JInt z => bind (float_of_int z) (fun f => Ok (Some f))
  | JBool b => Ok (Some (if b then 1 else 0)%float)
  | JFloat f => Ok (Some f)
  | JStr s =>
      Ok (match search_decimal_long U s with
          | Some (n, k) => Some (float_of_decimal n k)
          | None => None
          end)
  | JList _ | JDict _ => Ok None
  end.

(** [d.get(k) or d.get(k2, {}).get(k3)]. *)
Definition get_or_nested (d : list (pystr * json)) (k k2 k3 : pystr) : result json :=
  if truthy (dict_get d k) then Ok (dict_get d k) else get_nested d k2 k3.

(** [_extract_price] when [offers] is a dict. *)
Definition offer_dict_price (offers : list (pystr * json)) : result (option float) :=
  bind (get_or_nested offers (lit "price") (lit "priceSpecification") (lit "price")) (fun price =>
  bind (get_or_nested offers (lit "priceCurrency") (lit "priceSpecification") (lit "priceCurrency"))
    (fun _ => _parse_price price)).

(** [_extract_price({"offers": offer})]. *)
Fixpoint offer_price (offer : json) : result (option float) :=
  match offer with
  | JDict o => offer_dict_price o
  | JList l =>
      (fix first (l : list json) : result (option float) :=
         match l with
         | [] => Ok None
         | o :: l' =>
             bind (offer_price o) (fun price =>
             match price with
             | Some p => Ok (Some p)
             | None => first l'
             end)
         end) l
  | _ => Ok None
  end.

Definition _extract_price (entry : list (pystr * json)) : result (option float) :=
  let own :=
    bind (get_or_nested entry (lit "price") (lit "priceSpecification") (lit "price"))
      _parse_price in
  match dict_get entry (lit "offers") with
  | JDict o => offer_dict_price o
  | JList l =>
      bind (offer_price (JList l)) (fun price =>
      match price with
      | Some p => Ok (Some p)
      | None => own
      end)
  | _ => own
  end.

Definition _extract_nutrition (entry : list (pystr * json))
  : result (option Z * option float) :=
  match dict_get entry (lit "nutrition") with
  | JDict n =>
      let calories := py_or (dict_get n (lit "calories")) (dict_get n (lit "calorieContent")) in
      let protein :=
        py_or (py_or (dict_get n (lit "proteinContent")) (dict_get n (lit "protein")))
              (dict_get n (lit "proteinContentValue")) in
      bind (_parse_calories calories) (fun c =>
      bind (_parse_protein protein) (fun p => Ok (c, p)))
  | _ => Ok (None, None)
  end.

(** The lowercased type names of an entry. *)
Definition entry_types (entry : list (pystr * json)) : list pystr :=
  match py_or (dict_get entry (lit "@type")) (dict_get entry (lit "type")) with
  | JList l => omap (fun t => match t with JStr t => Some (u_lower U t) | _ => None end) l
  | JStr t => [u_lower U t]
  | _ => []
  end.

Definition is_item_type (entry : list (pystr * json)) : bool :=
  bool_decide (lit "menuitem" ∈ entry_types entry)
  || bool_decide (lit "listitem" ∈ entry_types entry).

Fixpoint _coerce_menu_item (entry : json) : result (option coerced) :=
  match entry with
  | JDict d =>
      if is_item_type d then
        match dict_get d (lit "name") with
        | JStr name =>
            if bool_decide (name = []) then Ok None
            else
              bind (_extract_price d) (fun price =>
              bind (_extract_nutrition d) (fun '(calories, protein) =>
              Ok (Some {| co_name := strip name;
                          co_price := price;
                          co_calories := calories;
                          co_protein := protein;
                          co_category :=
                            match dict_get d (lit "category") with
                            | JStr c => Some (strip c)
                            | _ => None
                            end |})))
        | _ => Ok None
        end
      else
        (fix item (kvs : list (pystr * json)) : result (option coerced) :=
           match kvs with
           | [] => Ok None
           | (k, v) :: kvs' =>
               if decide (k = lit "item") then
                 match v with
                 | JDict _ => _coerce_menu_item v
                 | _ => Ok None
                 end
               else item kvs'
           end) d
  | _ => Ok None
  end.

(** The entries of one script block, coerced, in order. *)
Definition structured_of_entry (restaurant url : pystr) (entry : json)
  : result (option ScrapedMenuItem) :=
  bind (_coerce_menu_item entry) (fun menu_item =>
  Ok (match menu_item with
      | Some m =>
          Some {| restaurant := restaurant;
                  name := co_name m;
                  price := co_price m;
                  calories := co_calories m;
                  protein_grams := co_protein m;
                  category := co_category m;
                  source_url := Some url;
                  raw := match entry with JDict _ => Some entry | _ => None end |}
      | None => None
      end)).

Fixpoint structured_loop (restaurant url : pystr) (texts : list pystr)
  : result (list ScrapedMenuItem) :=
  match texts with
  | [] => Ok []
  | text :: rest =>
      if bool_decide (text = []) then structured_loop restaurant url rest
      else
        match json_loads text with
        | None => structured_loop restaurant url rest
        | Some data =>
            bind (mapM (structured_of_entry restaurant url) (_flatten_ldjson data)) (fun made =>
            bind (structured_loop restaurant url rest) (fun more =>
            Ok (omap id made ++ more)))
        end
  end.

Definition _parse_structured_data (restaurant url html : pystr)
  : result (list ScrapedMenuItem) :=
  structured_loop restaurant url (soup_ldjson_texts html).

Definition _looks_like_menu_item (text : pystr) : bool :=
  if bool_decide (text = []) then false
  else
    let n := length (words text) in
    if ((n <? 2) || (8 <? n))%nat then false
    else if bool_decide (u_lower U text ∈ [lit "menu"; lit "learn more"; lit "order now"])
         then false
         else true.

Definition _parse_price_from_text (text : pystr) : option float :=
  if bool_decide (text = []) then None
  else
    match search_decimal U text with
    | Some (n, k) => Some (py_round (float_of_decimal n k) 2)
    | None => None
    end.

(** One attempt of [\s*\$?\d+(?:\.\d{1,2})?\s*] at the head of [s]: the text
    after the match. *)
Definition match_price_token (s : pystr) : option pystr :=
  let s1 := lstrip s in
  let s2 := match s1 with
            | c :: r => if (c =? 36)%N then r else s1
            | [] => s1
            end in
  lstrip <$> skip_decimal U s2.

(** [re.sub(r"\s*\$?\d+(?:\.\d{1,2})?\s*", "", line)]; [fuel] bounds the
    number of steps by the length of the line. *)
Fixpoint remove_price_tokens (fuel : nat) (s : pystr) : pystr :=
  match fuel with
  | O => s
  | S fuel' =>
      match match_price_token s with
      | Some rest => remove_price_tokens fuel' rest
      | None =>
          match s with
          | [] => []
          | c :: s' => c :: remove_price_tokens fuel' s'
          end
      end
  end.

Definition _guess_items_from_text (text : pystr) : list (pystr * option float) :=
  omap (fun line =>
    if bool_decide (line = []) || negb (contains (lit "$") line) then None
    else if (120 <? length line)%nat then None
    else
      let price := _parse_price_from_text line in
      let cleaned := remove_price_tokens (S (length line)) line in
      let cleaned := strip_bullets (collapse_runs None cleaned) in
      if _looks_like_menu_item cleaned then Some (cleaned, price) else None)
    (strip <$> splitlines text).

Definition heuristic_item (restaurant url name : pystr) (price : option float)
  : ScrapedMenuItem :=
  {| restaurant := restaurant;
     name := name;
     price := price;
     calories := None;
     protein_grams := None;
     category := None;
     source_url := Some url;
     raw := None |}.

Definition n_selectors : nat := 6.

(** The loop over the selectors and the elements each one matches, threading
    [seen_names] and [items]. *)
Fixpoint selector_loop (restaurant url : pystr) (elements : list element)
  (seen_names : gset pystr) (items : list ScrapedMenuItem)
  : gset pystr * list ScrapedMenuItem :=
  match elements with
  | [] => (seen_names, items)
  | e :: rest =>
      match element_name e with
      | None => selector_loop restaurant url rest seen_names items
      | Some name =>
          if bool_decide (name ∈ seen_names) || negb (_looks_like_menu_item name)
          then selector_loop restaurant url rest seen_names items
          else
            selector_loop restaurant url rest ({[name]} ∪ seen_names)
              (items ++ [heuristic_item restaurant url name
                           (_parse_price_from_text (el_text e))])
      end
  end.

(** The last-resort loop over the guessed text items. *)
Fixpoint text_loop (restaurant url : pystr) (text_items : list (pystr * option float))
  (seen_names : gset pystr) (items : list ScrapedMenuItem) : list ScrapedMenuItem :=
  match text_items with
  | [] => items
  | (name, price) :: rest =>
      if bool_decide (name ∈ seen_names) then text_loop restaurant url rest seen_names items
      else text_loop restaurant url rest seen_names
             (items ++ [heuristic_item restaurant url name price])
  end.

Definition _parse_with_heuristics (restaurant url html : pystr) : list ScrapedMenuItem :=
  let '(seen_names, items) :=
    selector_loop restaurant url (flat_map (soup_select html) (seq 0 n_selectors)) ∅ [] in
  if bool_decide (items = []) then
    text_loop restaurant url (_guess_items_from_text (soup_get_text html)) seen_names items
  else items.

Definition scrape_restaurant (slug : pystr) : result (list ScrapedMenuItem) :=
  match targets_get TARGETS slug with
  | None => Raise ValueError
  | Some (restaurant_name, url) =>
      bind (http_get url) (fun html =>
      bind (_parse_structured_data restaurant_name url html) (fun items =>
      let items :=
        if bool_decide (items = []) then _parse_with_heuristics restaurant_name url html
        else items in
      Ok items))
  end.

(** [ScrapedMenuItem.to_dict]: the fields in declaration order, without
    those that are [None]. *)
Definition to_dict (item : ScrapedMenuItem) : list (pystr * json) :=
  List.filter (fun kv => negb (is_none kv.2))
    [ (lit "restaurant", JStr (restaurant item));
      (lit "name", JStr (name item));
      (lit "price", from_option JFloat JNull (price item));
      (lit "calories", from_option JInt JNull (calories item));
      (lit "protein_grams", from_option JFloat JNull (protein_grams item));
      (lit "category", from_option JStr JNull (category item));
      (lit "source_url", from_option JStr JNull (source_url item));
      (lit "raw", from_option id JNull (raw item)) ].

(** [aggregated[slug] = value] on a dict kept as its items in insertion
    order. *)
Fixpoint dict_set {V : Type} (d : list (pystr * V)) (k : pystr) (v : V)
  : list (pystr * V) :=
  match d with
  | [] => [(k, v)]
  | (k', v') :: d' => if decide (k' = k) then (k, v) :: d' else (k', v') :: dict_set d' k v
  end.

(** [scrape_all]: every slug is scraped, and a scrape that raised counts as
    an empty menu. *)
Definition scrape_all (slugs : option (list pystr))
  : list (pystr * list (list (pystr * json))) :=
  let slugs :=
    match slugs with
    | Some (slug :: rest) => slug :: rest
    | _ => TARGETS.*1
    end in
  let results := scrape_restaurant <$> slugs in
  foldl (fun aggregated '(slug, result) =>
           match result with
           | Raise _ => dict_set aggregated slug []
           | Ok items => dict_set aggregated slug (to_dict <$> items)
           end) [] (zip slugs results).

End WithWorld.

End MenuScraper.

(** ** [services/ubereats_store_search.py] *)

Module UberEatsStoreSearch.
Import Py.

Record UberEatsStore : Type := {
  name : pystr;
  store_url : pystr;
  store_id : pystr;
  address : option json;
  distance : option pystr;
  latitude : option pynum;
  longitude : option pynum
}.

Definition base_url : pystr := lit "https://www.ubereats.com".

(** The chain names [_try_direct_store_url] knows, with their slugs. *)
Definition slug_map : list (pystr * pystr) :=
  [ (lit "mcdonald's", lit "mcdonalds"); (lit "mcdonalds", lit "mcdonalds");
    (lit "burger king", lit "burger-king");
    (lit "wendy's", lit "wendys"); (lit "wendys", lit "wendys");
    (lit "taco bell", lit "taco-bell");
    (lit "chipotle", lit "chipotle-mexican-grill");
    (lit "subway", lit "subway"); (lit "kfc", lit "kfc");
    (lit "popeyes", lit "popeyes"); (lit "chick-fil-a", lit "chick-fil-a");
    (lit "five guys", lit "five-guys"); (lit "sonic", lit "sonic-drive-in");
    (lit "arby's", lit "arbys"); (lit "arbys", lit "arbys");
    (lit "panda express", lit "panda-express");
    (lit "panera", lit "panera-bread"); (lit "panera bread", lit "panera-bread") ].

Fixpoint slug_map_get (m : list (pystr * pystr)) (k : pystr) : option pystr :=
  match m with
  | [] => None
  | (k', v) :: rest => if decide (k' = k) then Some v else slug_map_get rest k
  end.

(** The deduplication at the end of [_parse_search_results]: [seen] is the
    set of store ids met so far. *)
Fixpoint unique_loop (seen : gset pystr) (stores : list UberEatsStore)
  : list UberEatsStore :=
  match stores with
  | [] => []
  | store :: rest =>
      if bool_decide (store_id store ∈ seen) then unique_loop seen rest
      else store :: unique_loop ({[store_id store]} ∪ seen) rest
  end.

(** [^\d{5}(-\d{4})?$] on a stripped string. *)
Definition all_digits (U : unicode_db) (s : pystr) : bool :=
  forallb (fun c => bool_decide (is_Some (u_decimal U c))) s.
Definition is_zip (U : unicode_db) (s : pystr) : bool :=
  all_digits U (take 5 s) && (length (take 5 s) =? 5)%nat &&
  match drop 5 s with
  | [] => true
  | c :: rest =>
      (c =? 45)%N && all_digits U rest && (length rest =? 4)%nat
  end.

(** [base64.b64encode]: the character of a 6-bit value in the standard
    alphabet, and the encoding of a byte string, three bytes to four
    characters, a last group of one or two bytes padded with [=]. *)
Definition b64_char (i : N) : codepoint :=
  (if i <? 26 then 65 + i
   else if i <? 52 then 97 + (i - 26)
   else if i <? 62 then 48 + (i - 52)
   else if i =? 62 then 43
   else 47)%N.

Fixpoint b64encode (data : list Byte.byte) : list codepoint :=
  match data with
  | [] => []
  | [a] =>
      let a := Byte.to_N a in
      [b64_char (a / 4); b64_char ((a mod 4) * 16); 61; 61]%N
  | [a; b] =>
      let a := Byte.to_N a in
      let b := Byte.to_N b in
      [b64_char (a / 4); b64_char ((a mod 4) * 16 + b / 16);
       b64_char ((b mod 16) * 4); 61]%N
  | a :: b :: c :: rest =>
      let a := Byte.to_N a in
      let b := Byte.to_N b in
      let c := Byte.to_N c in
      [b64_char (a / 4); b64_char ((a mod 4) * 16 + b / 16);
       b64_char ((b mod 16) * 4 + c / 64); b64_char (c mod 64)]%N
      ++ b64encode rest
  end.

(** [base64.urlsafe_b64encode]: the standard encoding with [+] and [/]
    translated to [-] and [_]. *)
Definition urlsafe_translate (c : codepoint) : codepoint :=
  (if c =? 43 then 45 else if c =? 47 then 95 else c)%N.
Definition urlsafe_b64encode (data : list Byte.byte) : list codepoint :=
  urlsafe_translate <$> b64encode data.

(** [s.rstrip(chars)] for a one-character [chars]. *)
Fixpoint lstrip_char (ch : codepoint) (s : pystr) : pystr :=
  match s with
  | [] => []
  | c :: s' => if (c =? ch)%N then lstrip_char ch s' else s
  end.
Definition rstrip_char (ch : codepoint) (s : pystr) : pystr :=
  reverse (lstrip_char ch (reverse s)).

(** [base64_urlsafe_encode]: the URL-safe encoding, decoded as text (its
    bytes are ASCII), without the trailing [=]. *)
Definition base64_urlsafe_encode (data : list Byte.byte) : pystr :=
  rstrip_char 61%N (urlsafe_b64encode data).

(** Reading a token back, as [base64.urlsafe_b64decode] does once the
    padding is restored: the 6-bit value of a character of the URL-safe
    alphabet, and the bytes of a token. *)
Definition urlsafe_index (c : codepoint) : option N :=
  (if (65 <=? c) && (c <=? 90) then Some (c - 65)
   else if (97 <=? c) && (c <=? 122) then Some (c - 71)
   else if (48 <=? c) && (c <=? 57) then Some (c + 4)
   else if c =? 45 then Some 62
   else if c =? 95 then Some 63
   else None)%N.

Fixpoint base64_urlsafe_decode (token : pystr) : option (list Byte.byte) :=
  match token with
  | [] => Some []
  | [c1; c2] =>
      i1 ← urlsafe_index c1; i2 ← urlsafe_index c2;
      a ← Byte.of_N (i1 * 4 + i2 / 16)%N;
      Some [a]
  | [c1; c2; c3] =>
      i1 ← urlsafe_index c1; i2 ← urlsafe_index c2; i3 ← urlsafe_index c3;
      a ← Byte.of_N (i1 * 4 + i2 / 16)%N;
      b ← Byte.of_N ((i2 mod 16) * 16 + i3 / 4)%N;
      Some [a; b]
  | c1 :: c2 :: c3 :: c4 :: rest =>
      i1 ← urlsafe_index c1; i2 ← urlsafe_index c2; i3 ← urlsafe_index c3;
      i4 ← urlsafe_index c4;
      a ← Byte.of_N (i1 * 4 + i2 / 16)%N;
      b ← Byte.of_N ((i2 mod 16) * 16 + i3 / 4)%N;
      c ← Byte.of_N ((i3 mod 4) * 64 + i4)%N;
      bytes ← base64_urlsafe_decode rest;
      Some (a :: b :: c :: bytes)
  | _ => None
  end.

Section WithWorld.
Variable U : unicode_db.
(** [json.loads]: the value parsed, or the exception raised.  Malformed text
    raises [JSONDecodeError]; text it refuses for another reason raises
    something else ([ValueError] for an integer literal beyond the digit
    limit, [RecursionError] for nesting beyond the interpreter's). *)
Variable json_loads : pystr -> result json.
(** Whether [search_recursive], which calls itself once per level of
    nesting, runs into the interpreter's recursion limit on a value: the
    interpreter then raises [RecursionError]. *)
Variable recursion_exceeded : json -> bool.
(** [str(v)]. *)
Variable py_str : json -> pystr.
(** [float(s)] on a string: [None] stands for [ValueError]. *)
Variable float_of_str : pystr -> option float.
(** [html.unescape]. *)
Variable html_unescape : pystr -> pystr.
(** The GET of the geocoding service for a query, decoded by
    [response.json()]; any failure on the way is the raised exception. *)
Variable geocoder_get : pystr -> result json.
(** The GET of the platform search page for a restaurant, a location token
    and the rest of the query. *)
Variable search_get : pystr -> pystr -> result pystr.
(** [_build_pl_parameter] (JSON, base64url and URL quoting). *)
Variable _build_pl_parameter : pystr -> float -> float -> result pystr.
(** [_encode_store_url] ([urlparse], [parse_qsl], [urlencode], [urlunparse]). *)
Variable _encode_store_url : pystr -> pystr -> result pystr.
(** [store_url_pattern.findall(html)]: the two groups of each match. *)
Variable findall_store_hrefs : pystr -> list (pystr * pystr).
(** [patterns[i].finditer(html)], each match given by its group 1. *)
Variable state_finditer : nat -> pystr -> list pystr.
(** The f-strings [f"Near {lat}, {lon}"] and
    [f"{base}/store/{slug}?diningMode=DELIVERY&pl={pl}"]. *)
Variable format_near : float -> float -> pystr.

(** [data[0][key]] followed by [float(...)], inside the geocoder's [try]. *)
Definition first_coordinate (data : json) (key : pystr) : result float :=
  match data with
  | JList (JDict d :: _) =>
      match dict_lookup d key with
      | Some v => py_float float_of_str v
      | None => Raise KeyError
      end
  | JList (_ :: _) => Raise TypeError
  | JDict _ => Raise KeyError
  | _ => Raise TypeError
  end.

(** [_geocode_location]: [(lat, lon)], or [(None, None)]. *)
Definition _geocode_location (location : pystr) : option float * option float :=
  let search_query :=
    if is_zip U (strip location) then location ++ lit ", USA" else location in
  let attempt : result (option float * option float) :=
    bind (geocoder_get search_query) (fun data =>
    if truthy data then
      match data with
      | JList _ | JDict _ | JStr _ =>
          bind (first_coordinate data (lit "lat")) (fun lat =>
          bind (first_coordinate data (lit "lon")) (fun lon =>
          Ok (Some lat, Some lon)))
      | _ => Raise TypeError
      end
    else Ok (None, None)) in
  match attempt with
  | Ok r => r
  | Raise _ => (None, None)
  end.

(** The body of the loop over the anchors the pattern matched. *)
Definition store_of_match (restaurant_name_lower pl_param : pystr) (lat lon : float)
  (m : pystr * pystr) : result (option UberEatsStore) :=
  let store_path := html_unescape m.1 in
  let store_slug_with_id := html_unescape m.2 in
  if contains (replace_char 32%N (lit "-") restaurant_name_lower)
       (u_lower U store_slug_with_id)
     || contains (replace_char 39%N [] restaurant_name_lower)
          (u_lower U store_slug_with_id)
  then
    match split_char 47%N store_slug_with_id with
    | store_name_slug :: id :: _ =>
        let store_id := default [] (head (split_char 63%N id)) in
        bind (_encode_store_url (default [] (head (split_char 63%N store_path))) pl_param)
          (fun full_url =>
        Ok (Some {| name := u_title U (replace_char 45%N (lit " ") store_name_slug);
                    store_url := full_url;
                    store_id := store_id;
                    address := None;
                    distance := None;
                    latitude := Some (PFloat lat);
                    longitude := Some (PFloat lon) |}))
    | _ => Ok None
    end
  else Ok None.

(** The chains of [or] that read a name and an id off an object. *)
Definition store_name_of (obj : list (pystr * json)) : pystr :=
  py_str (py_or (py_or (py_or (py_or (dict_get obj (lit "title")) (dict_get obj (lit "name")))
                              (dict_get obj (lit "storeName")))
                       (dict_get obj (lit "store_name")))
                (JStr [])).
Definition store_id_of (obj : list (pystr * json)) : pystr :=
  py_str (py_or (py_or (py_or (py_or (dict_get obj (lit "uuid")) (dict_get obj (lit "storeUuid")))
                              (dict_get obj (lit "store_uuid")))
                       (dict_get obj (lit "slug")))
                (JStr [])).

Definition _looks_like_store (obj : list (pystr * json)) (restaurant_name_lower : pystr)
  : bool :=
  let has_name :=
    existsb (dict_has obj) [lit "title"; lit "name"; lit "storeName"; lit "store_name"] in
  let has_uuid :=
    existsb (dict_has obj) [lit "uuid"; lit "storeUuid"; lit "store_uuid"; lit "slug"] in
  if has_name && has_uuid
  then contains restaurant_name_lower (u_lower U (store_name_of obj))
  else false.

(** [obj.get(key, x) if isinstance(obj.get(key), (int, float)) else x]. *)
Definition coordinate_of (obj : list (pystr * json)) (key : pystr) (x : float) : pynum :=
  match dict_get obj key with
  | JInt z => PInt z
  | JBool b => PInt (if b then 1 else 0)
  | JFloat f => PFloat f
  | _ => PFloat x
  end.

(** [_create_store_from_object]: any exception inside gives [None]. *)
Definition _create_store_from_object (obj : list (pystr * json))
  (location : pystr) (lat lon : float) : option UberEatsStore :=
  let name := store_name_of obj in
  let store_id := store_id_of obj in
  if bool_decide (name = []) || bool_decide (store_id = []) then None
  else
    match bind (_build_pl_parameter location lat lon)
            (_encode_store_url (base_url ++ lit "/store/" ++ store_id)) with
    | Raise _ => None
    | Ok store_url =>
        Some {| name := name;
                store_url := store_url;
                store_id := store_id;
                address :=
                  match dict_get obj (lit "location") with
                  | JDict l =>
                      match dict_get l (lit "address") with
                      | JNull => None
                      | a => Some a
                      end
                  | _ => None
                  end;
                distance := None;
                latitude := Some (coordinate_of obj (lit "latitude") lat);
                longitude := Some (coordinate_of obj (lit "longitude") lon) |}
    end.

(** [_extract_stores_from_data]: the stores met by the depth-first search. *)
Fixpoint search_recursive (restaurant_name_lower location : pystr) (lat lon : float)
  (obj : json) : list UberEatsStore :=
  match obj with
  | JDict d =>
      (if _looks_like_store d restaurant_name_lower
       then option_list (_create_store_from_object d location lat lon)
       else [])
      ++ (fix values (kvs : list (pystr * json)) : list UberEatsStore :=
            match kvs with
            | [] => []
            | (_, value) :: kvs' =>
                search_recursive restaurant_name_lower location lat lon value
                ++ values kvs'
            end) d
  | JList l =>
      (fix each (l : list json) : list UberEatsStore :=
         match l with
         | [] => []
         | item :: l' =>
             search_recursive restaurant_name_lower location lat lon item ++ each l'
         end) l
  | _ => []
  end.

Definition _extract_stores_from_data (data : json) (restaurant_name location : pystr)
  (lat lon : float) : list UberEatsStore :=
  search_recursive (u_lower U restaurant_name) location lat lon data.

Definition n_state_patterns : nat := 3.

(** Strategy 1 of [_parse_search_results]: the anchors of the page. *)
Definition anchor_stores (html restaurant_name location : pystr) (lat lon : float)
  : result (list UberEatsStore) :=
  let matches := findall_store_hrefs html in
  let restaurant_name_lower := u_lower U restaurant_name in
  bind (_build_pl_parameter location lat lon) (fun pl_param =>
  bind (mapM (store_of_match restaurant_name_lower pl_param lat lon) matches) (fun made =>
  Ok (omap id made))).

(** The body of the two loops of strategy 2 over the matches still to
    read: a match that is not JSON is skipped by the inner handler
    ([except json.JSONDecodeError: continue]); any other exception, of
    [json.loads] or of the search through the data, leaves both loops. *)
Fixpoint embedded_loop (restaurant_name location : pystr) (lat lon : float)
  (json_strs : list pystr) : result (list UberEatsStore) :=
  match json_strs with
  | [] => Ok []
  | json_str :: rest =>
      match json_loads json_str with
      | Ok data =>
          if recursion_exceeded data then Raise RecursionError
          else
            bind (embedded_loop restaurant_name location lat lon rest) (fun more =>
            Ok (_extract_stores_from_data data restaurant_name location lat lon ++ more))
      | Raise JSONDecodeError => embedded_loop restaurant_name location lat lon rest
      | Raise e => Raise e
      end
  end.

(** Strategy 2: the stores of the embedded state payloads, pattern by
    pattern and match by match. *)
Definition embedded_stores (html restaurant_name location : pystr) (lat lon : float)
  : result (list UberEatsStore) :=
  embedded_loop restaurant_name location lat lon
    (flat_map (fun i => state_finditer i html) (seq 0 n_state_patterns)).

(** The stores before deduplication: strategy 2 runs only when strategy 1
    found nothing. *)
Definition found_stores (html restaurant_name location : pystr) (lat lon : float)
  : result (list UberEatsStore) :=
  bind (anchor_stores html restaurant_name location lat lon) (fun stores =>
  if bool_decide (stores = [])
  then embedded_stores html restaurant_name location lat lon
  else Ok stores).

(** [_parse_search_results]: the first ten stores with a new id, or nothing
    when anything was raised on the way ([except Exception: return []]). *)
Definition _parse_search_results (html restaurant_name location : pystr) (lat lon : float)
  : list UberEatsStore :=
  match found_stores html restaurant_name location lat lon with
  | Ok stores => take 10 (unique_loop ∅ stores)
  | Raise _ => []
  end.

Definition _try_direct_store_url (restaurant_name location : pystr) (lat lon : float)
  : result (list UberEatsStore) :=
  let normalized_name := strip (u_lower U restaurant_name) in
  match slug_map_get slug_map normalized_name with
  | Some base_slug =>
      if bool_decide (base_slug = []) then Ok []
      else
        bind (_build_pl_parameter location lat lon) (fun pl_param =>
        Ok [ {| name := u_title U restaurant_name;
                store_url := base_url ++ lit "/store/" ++ base_slug
                             ++ lit "?diningMode=DELIVERY&pl=" ++ pl_param;
                store_id := base_slug;
                address := Some (JStr (format_near lat lon));
                distance := None;
                latitude := Some (PFloat lat);
                longitude := Some (PFloat lon) |} ])
  | None => Ok []
  end.

(** [_search_uber_eats]: whatever [stores] holds when the [try] ends. *)
Definition _search_uber_eats (restaurant_name location : pystr) (lat lon : float)
  : list UberEatsStore :=
  match bind (_build_pl_parameter location lat lon) (search_get restaurant_name) with
  | Raise _ => []
  | Ok html =>
      let stores := _parse_search_results html restaurant_name location lat lon in
      if bool_decide (stores = []) then
        match _try_direct_store_url restaurant_name location lat lon with
        | Ok stores_from_url => stores ++ stores_from_url
        | Raise _ => stores
        end
      else stores
  end.

(** The coordinates [search_stores] goes on with: the caller's, or the
    geocoder's when one of them is missing. *)
Definition resolve_coordinates (location : pystr) (lat lon : option float)
  : option float * option float :=
  match lat, lon with
  | Some _, Some _ => (lat, lon)
  | _, _ => _geocode_location location
  end.

(** [not x] on an optional float. *)
Definition falsy (x : option float) : bool :=
  match x with
  | None => true
  | Some f => negb (float_truthy f)
  end.

Definition search_stores (restaurant_name location : pystr) (lat lon : option float)
  : list UberEatsStore :=
  match resolve_coordinates location lat lon with
  | (Some la, Some lo) =>
      if falsy (Some la) || falsy (Some lo) then []
      else _search_uber_eats restaurant_name location la lo
  | _ => []
  end.

End WithWorld.

End UberEatsStoreSearch.

(** ** [api/routes.py]: the helpers of the scraping endpoints *)

Module Routes.
Import Py.

(** What a helper that can refuse a request ends with: its value, or the
    [HTTPException] it raises, given by its status code and the inputs its
    detail lists. *)
Inductive outcome (A : Type) : Type :=
| Returned (a : A)
| Rejected (status_code : Z) (listed : list pystr).
Arguments Returned {A} a.
Arguments Rejected {A} status_code listed.

Section WithWorld.
Variable U : unicode_db.
(** [urlparse(url).path]. *)
Variable url_path : pystr -> pystr.

(** [_extract_store_id_from_url]. *)
Definition _extract_store_id_from_url (url : pystr) : pystr :=
  let path := url_path url in
  let segments := filter (fun segment => segment <> []) (split_char 47%N path) in
  match segments with
  | first :: _ :: third :: _ =>
      if decide (first = lit "store") then third else url
  | [first; second] =>
      if decide (first = lit "store") then second else url
  | _ => url
  end.

(** [item.strip().lower().replace(" ", "-")]. *)
Definition slug_of (item : pystr) : pystr :=
  replace_char 32%N (lit "-") (u_lower U (strip item)).

(** The loop of [_resolve_scraper_slugs] over the inputs. *)
Fixpoint resolve_loop (inputs normalized unknown : list pystr)
  : list pystr * list pystr :=
  match inputs with
  | [] => (normalized, unknown)
  | item :: rest =>
      let slug := slug_of item in
      if bool_decide (is_Some (MenuScraper.targets_get MenuScraper.TARGETS slug))
      then resolve_loop rest (normalized ++ [slug]) unknown
      else resolve_loop rest normalized (unknown ++ [item])
  end.

Definition _resolve_scraper_slugs (inputs : option (list pystr))
  : outcome (list pystr) :=
  match inputs with
  | Some (item :: rest) =>
      let '(normalized, unknown) := resolve_loop (item :: rest) [] [] in
      if bool_decide (unknown = []) then Returned normalized
      else Rejected 400 unknown
  | _ => Returned MenuScraper.TARGETS.*1
  end.

End WithWorld.

End Routes.

(** * Properties *)

(** ** Store discovery *)

Module StoreSearchProps.
Import Py UberEatsStoreSearch.

(** The ids of the stores a list holds. *)
#[local] Notation "'ids' l" := (store_id <$> l) (at level 10, l at level 9).

Lemma unique_loop_ids seen stores :
  NoDup (ids (unique_loop seen stores))
  /\ forall s, s ∈ unique_loop seen stores -> store_id s ∉ seen.
Proof.
  revert seen. induction stores as [|x rest IH]; intros seen; simpl.
  - split; [constructor | intros s Hs; inversion Hs].
  - case_bool_decide as Hin.
    + apply IH.
    + destruct (IH ({[store_id x]} ∪ seen)) as [Hnd Hout]. split.
      * rewrite fmap_cons. constructor; [|exact Hnd].
        intros Hx. apply list_elem_of_fmap in Hx as (s & Heq & Hs).
        apply Hout in Hs. rewrite <- Heq in Hs. set_solver.
      * intros s Hs. apply elem_of_cons in Hs as [->|Hs]; [exact Hin|].
        apply Hout in Hs. set_solver.
Qed.

Lemma unique_loop_sublist seen stores : sublist (unique_loop seen stores) stores.
Proof.
  revert seen. induction stores as [|x rest IH]; intros seen; simpl.
  - constructor.
  - case_bool_decide; [apply sublist_cons | apply sublist_skip]; apply IH.
Qed.

(** Every store kept is the first of the input with its id. *)
Lemma unique_loop_first seen stores s :
  s ∈ unique_loop seen stores ->
  exists before after,
    stores = before ++ s :: after /\ store_id s ∉ ids before.
Proof.
  revert seen. induction stores as [|x rest IH]; intros seen; simpl.
  - intros Hs; inversion Hs.
  - case_bool_decide as Hin; intros Hs.
    + destruct (IH _ Hs) as (b & a & -> & Hb).
      exists (x :: b), a. split; [reflexivity|].
      rewrite fmap_cons, not_elem_of_cons. split; [|exact Hb].
      intros Heq. apply (proj2 (unique_loop_ids seen (b ++ s :: a))) in Hs.
      rewrite Heq in Hs. contradiction.
    + apply elem_of_cons in Hs as [->|Hs].
      * exists [], rest. split; [reflexivity | simpl; apply not_elem_of_nil].
      * pose proof (proj2 (unique_loop_ids _ _) _ Hs) as Hout.
        destruct (IH _ Hs) as (b & a & -> & Hb).
        exists (x :: b), a. split; [reflexivity|].
        rewrite fmap_cons, not_elem_of_cons. split; [set_solver | exact Hb].
Qed.

(** Every id of the input that was not seen before survives. *)
Lemma unique_loop_covers seen stores x :
  x ∈ stores -> store_id x ∉ seen -> store_id x ∈ ids (unique_loop seen stores).
Proof.
  revert seen. induction stores as [|y rest IH]; intros seen Hx Hout; simpl.
  - inversion Hx.
  - apply elem_of_cons in Hx as [->|Hx].
    + rewrite bool_decide_eq_false_2 by exact Hout. rewrite fmap_cons. left.
    + case_bool_decide as Hin; [apply IH; assumption|].
      rewrite fmap_cons. destruct (decide (store_id x = store_id y)) as [->|Hne].
      * left.
      * right. apply IH; [assumption | set_solver].
Qed.

(** Stores with pairwise distinct unseen ids all survive. *)
Lemma unique_loop_nodup seen stores :
  NoDup (ids stores) -> (forall x, x ∈ stores -> store_id x ∉ seen) ->
  unique_loop seen stores = stores.
Proof.
  revert seen. induction stores as [|y rest IH]; intros seen Hnd Hout; simpl.
  - reflexivity.
  - rewrite fmap_cons in Hnd. apply NoDup_cons in Hnd as [Hy Hnd].
    rewrite bool_decide_eq_false_2 by (apply Hout; left).
    f_equal. apply IH; [exact Hnd|].
    intros x Hx. apply not_elem_of_union. split.
    + apply not_elem_of_singleton. intros Heq. apply Hy. rewrite <- Heq.
      apply list_elem_of_fmap. exists x. split; [reflexivity | exact Hx].
    + apply Hout. right. exact Hx.
Qed.

(** The stores kept are as many as the ids not seen before. *)
Lemma unique_loop_length seen stores :
  length (unique_loop seen stores)
  = size ((list_to_set (ids stores) : gset pystr) ∖ seen).
Proof.
  revert seen. induction stores as [|x rest IH]; intros seen.
  - replace ((list_to_set (ids []) : gset pystr) ∖ seen) with (∅ : gset pystr)
      by set_solver.
    reflexivity.
  - rewrite fmap_cons, list_to_set_cons. cbn [unique_loop].
    set (found_ids := list_to_set (ids rest) : gset pystr) in *.
    case_bool_decide as Hin.
    + rewrite IH. f_equal. apply set_eq. intros y. set_solver.
    + cbn [length]. rewrite IH.
      assert (Hsplit : ({[store_id x]} ∪ found_ids) ∖ seen
                       = {[store_id x]} ∪ found_ids ∖ ({[store_id x]} ∪ seen)).
      { apply set_eq. intros y.
        destruct (decide (y = store_id x)) as [->|Hne]; set_solver. }
      rewrite Hsplit.
      rewrite (@size_union _ _ _ _ _ _ _ _ _ _ gset_fin_set) by set_solver.
      rewrite (@size_singleton _ _ _ _ _ _ _ _ _ _ gset_fin_set). reflexivity.
Qed.

(** Every store kept is the first of the input with its id, and the ids
    met before it were seen or are kept before it. *)
Lemma unique_loop_first_closed seen stores s :
  s ∈ unique_loop seen stores ->
  exists before after kept_before kept_after,
    stores = before ++ s :: after /\ store_id s ∉ ids before
    /\ unique_loop seen stores = kept_before ++ s :: kept_after
    /\ forall t, t ∈ before -> store_id t ∈ ids kept_before \/ store_id t ∈ seen.
Proof.
  revert seen. induction stores as [|x rest IH]; intros seen; simpl.
  - intros Hs; inversion Hs.
  - case_bool_decide as Hin; intros Hs.
    + pose proof (proj2 (unique_loop_ids _ _) _ Hs) as Hout.
      destruct (IH _ Hs) as (b & a & kb & ka & Hrest & Hb & Hk & Hcl).
      exists (x :: b), a, kb, ka. repeat split.
      * rewrite Hrest. reflexivity.
      * rewrite fmap_cons, not_elem_of_cons. split; [|exact Hb].
        intros Heq. rewrite Heq in Hout. contradiction.
      * exact Hk.
      * intros t Ht. apply elem_of_cons in Ht as [->|Ht]; [right; exact Hin|].
        apply Hcl, Ht.
    + apply elem_of_cons in Hs as [->|Hs].
      * exists [], rest, [], (unique_loop ({[store_id x]} ∪ seen) rest).
        repeat split; [simpl; apply not_elem_of_nil|].
        intros t Ht. inversion Ht.
      * pose proof (proj2 (unique_loop_ids _ _) _ Hs) as Hout.
        destruct (IH _ Hs) as (b & a & kb & ka & Hrest & Hb & Hk & Hcl).
        exists (x :: b), a, (x :: kb), ka. repeat split.
        -- rewrite Hrest. reflexivity.
        -- rewrite fmap_cons, not_elem_of_cons. split; [set_solver | exact Hb].
        -- rewrite Hk. reflexivity.
        -- intros t Ht. rewrite fmap_cons.
           apply elem_of_cons in Ht as [->|Ht]; [left; left|].
           destruct (Hcl _ Ht) as [Hin'|Hin'].
           ++ left. right. exact Hin'.
           ++ apply elem_of_union in Hin' as [Hin'|Hin'].
              ** apply elem_of_singleton in Hin'. left. rewrite Hin'. left.
              ** right. exact Hin'.
Qed.

(** A store among the first [n] kept is the first found with its id, and
    every id found before it is among the first [n] kept as well. *)
Lemma take_unique_loop_closed n stores s :
  s ∈ take n (unique_loop ∅ stores) ->
  exists before after,
    stores = before ++ s :: after /\ store_id s ∉ ids before
    /\ forall t, t ∈ before -> store_id t ∈ ids (take n (unique_loop ∅ stores)).
Proof.
  intros Hs.
  assert (Hnd : NoDup (unique_loop ∅ stores))
    by (eapply NoDup_fmap_1, unique_loop_ids).
  pose proof (elem_of_sublist _ _ _ Hs (sublist_take _ _)) as Hs'.
  destruct (unique_loop_first_closed _ _ _ Hs')
    as (b & a & kb & ka & Hst & Hb & Hk & Hcl).
  exists b, a. repeat split; [exact Hst | exact Hb |].
  intros t Ht. destruct (Hcl _ Ht) as [Hin|Hin]; [|set_solver].
  apply list_elem_of_lookup in Hs as [i Hi].
  apply lookup_take_Some in Hi as [Hi Hlt].
  assert (Hmid : unique_loop ∅ stores !! length kb = Some s)
    by (rewrite Hk; apply list_lookup_middle; reflexivity).
  pose proof (NoDup_lookup _ _ _ _ Hnd Hi Hmid) as ->.
  apply list_elem_of_fmap in Hin as (t' & Heq & Hin).
  apply list_elem_of_fmap. exists t'. split; [exact Heq|].
  apply list_elem_of_lookup in Hin as [j Hj].
  apply list_elem_of_lookup. exists j.
  assert (j < length kb)%nat by (eapply lookup_lt_Some; eassumption).
  apply lookup_take_Some. split; [|lia].
  rewrite Hk. rewrite lookup_app_l by assumption. exact Hj.
Qed.

Section WithWorld.
Variable U : unicode_db.
Variable json_loads : pystr -> result json.
Variable recursion_exceeded : json -> bool.
Variable py_str : json -> pystr.
Variable float_of_str : pystr -> option float.
Variable html_unescape : pystr -> pystr.
Variable geocoder_get : pystr -> result json.
Variable search_get : pystr -> pystr -> result pystr.
Variable _build_pl_parameter : pystr -> float -> float -> result pystr.
Variable _encode_store_url : pystr -> pystr -> result pystr.
Variable findall_store_hrefs : pystr -> list (pystr * pystr).
Variable state_finditer : nat -> pystr -> list pystr.
Variable format_near : float -> float -> pystr.

#[local] Abbreviation parse_search_results :=
  (_parse_search_results U json_loads recursion_exceeded py_str html_unescape
    _build_pl_parameter
     _encode_store_url findall_store_hrefs state_finditer).
#[local] Abbreviation found :=
  (found_stores U json_loads recursion_exceeded py_str html_unescape _build_pl_parameter
     _encode_store_url findall_store_hrefs state_finditer).
#[local] Abbreviation anchors :=
  (anchor_stores U html_unescape _build_pl_parameter _encode_store_url
     findall_store_hrefs).
#[local] Abbreviation embedded :=
  (embedded_stores U json_loads recursion_exceeded py_str _build_pl_parameter
    _encode_store_url
     state_finditer).
#[local] Abbreviation extract :=
  (_extract_stores_from_data U py_str _build_pl_parameter _encode_store_url).

(** The matches of the three state patterns, in the order they are read. *)
Definition state_matches (html : pystr) : list pystr :=
  flat_map (fun i => state_finditer i html) (seq 0 n_state_patterns).

(** A match the loops get past: [json.loads] refuses it as malformed JSON,
    or reads it and the search through the data stays within the recursion
    limit. *)
Definition readable (json_str : pystr) : Prop :=
  match json_loads json_str with
  | Ok data => recursion_exceeded data = false
  | Raise e => e = JSONDecodeError
  end.

(** A match that ends the loops with [e]: [json.loads] raises [e], which is
    not [JSONDecodeError], or reads it and the search through the data runs
    into the recursion limit. *)
Definition refused (json_str : pystr) (e : exn) : Prop :=
  match json_loads json_str with
  | Ok data => recursion_exceeded data = true /\ e = RecursionError
  | Raise e' => e' = e /\ e <> JSONDecodeError
  end.

(** The result is the capped deduplication of the stores found, and empty
    when the search raised. *)
Lemma parse_search_results_unfold html restaurant_name location lat lon :
  parse_search_results html restaurant_name location lat lon =
  take 10 (unique_loop ∅
             (match found html restaurant_name location lat lon with
              | Ok stores => stores
              | Raise _ => []
              end)).
Proof.
  unfold _parse_search_results.
  destruct (found_stores _ _ _ _ _ _ _ _ _ _ _ _ _); reflexivity.
Qed.

(** When every match is readable the loops of strategy 2 end, with the
    stores of the matches that parse, in order. *)
Lemma embedded_loop_readable restaurant_name location lat lon json_strs :
  Forall readable json_strs ->
  embedded_loop U json_loads recursion_exceeded py_str _build_pl_parameter
    _encode_store_url restaurant_name location lat lon json_strs
  = Ok (flat_map (fun json_str =>
          match json_loads json_str with
          | Ok data => extract data restaurant_name location lat lon
          | Raise _ => []
          end) json_strs).
Proof.
  unfold readable.
  induction 1 as [|json_str rest Hr _ IH]; simpl; [reflexivity|].
  rewrite IH. destruct (json_loads json_str) as [data|e]; simpl.
  - rewrite Hr. reflexivity.
  - rewrite Hr. reflexivity.
Qed.

(** The first match that is refused ends the loops of strategy 2 with its
    exception. *)
Lemma embedded_loop_raises restaurant_name location lat lon before bad after e :
  Forall readable before -> refused bad e ->
  embedded_loop U json_loads recursion_exceeded py_str _build_pl_parameter
    _encode_store_url restaurant_name location lat lon (before ++ bad :: after)
  = Raise e.
Proof.
  unfold readable, refused.
  intros Hb Hbad. induction Hb as [|json_str rest Hr _ IH]; simpl.
  - destruct (json_loads bad) as [data|e'].
    + destruct Hbad as [-> ->]. reflexivity.
    + destruct Hbad as [-> Hne]. destruct e; congruence.
  - rewrite IH. destruct (json_loads json_str) as [data|e']; simpl.
    + rewrite Hr. reflexivity.
    + rewrite Hr. reflexivity.
Qed.

(** C5.  Whatever the search page, [_parse_search_results] returns at most 10
    stores with pairwise distinct ids.  When reading the page raises, it
    returns nothing, whatever was found until then: so it is when
    [_build_pl_parameter] or [_encode_store_url] raises among the anchors,
    and, when no anchor matched, when a match of the embedded state is
    refused: [json.loads] raises something else than [JSONDecodeError] on
    it, or the search through its data runs into the recursion limit.  When
    reading the page ends with the stores found (the anchors when one
    matched, and otherwise the stores of the embedded matches that parse, in
    order), the result keeps their order, each store kept is the first found
    with its id, every id found before a kept store is kept too, and the
    result is as long as the smaller of 10 and the number of distinct ids
    found: with 10 distinct ids or more, 15 say, it holds exactly 10 stores,
    and with fewer every id found is kept. *)
Theorem parse_search_results_dedup_cap html restaurant_name location lat lon :
  let r := parse_search_results html restaurant_name location lat lon in
  (length r <= 10)%nat
  /\ NoDup (ids r)
  /\ (forall e, found html restaurant_name location lat lon = Raise e -> r = [])
  /\ (forall stores,
        found html restaurant_name location lat lon = Ok stores ->
        let distinct := size (list_to_set (ids stores) : gset pystr) in
        sublist r stores
        /\ (forall s, s ∈ r ->
              exists before after,
                stores = before ++ s :: after /\ store_id s ∉ ids before
                /\ forall t, t ∈ before -> store_id t ∈ ids r)
        /\ length r = Nat.min 10 distinct
        /\ ((10 <= distinct)%nat -> length r = 10%nat)
        /\ ((distinct < 10)%nat -> forall s, s ∈ stores -> store_id s ∈ ids r)
        /\ (NoDup (ids stores) -> r = take 10 stores)
        /\ (NoDup (ids stores) -> length stores = 15%nat -> length r = 10%nat))
  /\ (forall e,
        anchors html restaurant_name location lat lon = Raise e ->
        found html restaurant_name location lat lon = Raise e)
  /\ (forall anchored,
        anchors html restaurant_name location lat lon = Ok anchored ->
        anchored <> [] ->
        found html restaurant_name location lat lon = Ok anchored)
  /\ (anchors html restaurant_name location lat lon = Ok [] ->
        found html restaurant_name location lat lon
        = embedded html restaurant_name location lat lon)
  /\ (Forall readable (state_matches html) ->
        embedded html restaurant_name location lat lon
        = Ok (flat_map (fun json_str =>
                match json_loads json_str with
                | Ok data => extract data restaurant_name location lat lon
                | Raise _ => []
                end) (state_matches html)))
  /\ (forall before bad after e,
        state_matches html = before ++ bad :: after ->
        Forall readable before -> refused bad e ->
        embedded html restaurant_name location lat lon = Raise e).
Proof.
  clear float_of_str geocoder_get search_get format_near.
  intros r.
  pose proof (parse_search_results_unfold html restaurant_name location lat lon) as Hr.
  fold r in Hr.
  repeat apply conj.
  - rewrite Hr, length_take. lia.
  - rewrite Hr. eapply sublist_NoDup; [apply unique_loop_ids|].
    apply fmap_sublist, sublist_take.
  - intros e He. rewrite Hr, He. reflexivity.
  - intros stores Hf distinct. rewrite Hf in Hr.
    assert (Hlen : length (unique_loop ∅ stores) = distinct).
    { rewrite unique_loop_length. subst distinct. f_equal. set_solver. }
    repeat apply conj.
    + rewrite Hr. etrans; [apply sublist_take | apply unique_loop_sublist].
    + intros s Hs. rewrite Hr in Hs |- *. apply take_unique_loop_closed, Hs.
    + rewrite Hr, length_take, Hlen. reflexivity.
    + intros Hge. rewrite Hr, length_take, Hlen. lia.
    + intros Hlt s Hs. rewrite Hr, take_ge by lia.
      apply unique_loop_covers; [exact Hs | set_solver].
    + intros Hnd. rewrite Hr, unique_loop_nodup by (assumption || set_solver).
      reflexivity.
    + intros Hnd H15. rewrite Hr, unique_loop_nodup by (assumption || set_solver).
      rewrite length_take. lia.
  - intros e Ha. unfold found_stores. rewrite Ha. reflexivity.
  - intros anchored Ha Hne. unfold found_stores. rewrite Ha. simpl.
    rewrite bool_decide_eq_false_2 by exact Hne. reflexivity.
  - intros Ha. unfold found_stores. rewrite Ha. reflexivity.
  - intros Hall. apply embedded_loop_readable, Hall.
  - intros before bad after e Hm Hb Hbad. unfold embedded_stores.
    fold (state_matches html). rewrite Hm.
    apply embedded_loop_raises; assumption.
Qed.

(** C10.  When the latitude or the longitude [search_stores] goes on with is
    a zero, whether the caller passed it or the geocoder returned it, the
    truthiness test takes it for a missing coordinate and the result is
    empty. *)
Theorem search_stores_zero_coordinate restaurant_name location lat lon la lo :
  resolve_coordinates U float_of_str geocoder_get location lat lon = (Some la, Some lo) ->
  is_zero la = true \/ is_zero lo = true ->
  search_stores U json_loads recursion_exceeded py_str float_of_str html_unescape
    geocoder_get
    search_get _build_pl_parameter _encode_store_url findall_store_hrefs
    state_finditer format_near restaurant_name location lat lon = [].
Proof.
  intros Hres Hzero. unfold search_stores. rewrite Hres.
  unfold falsy, float_truthy.
  destruct Hzero as [-> | ->]; simpl; [reflexivity|].
  rewrite orb_true_r. reflexivity.
Qed.

End WithWorld.

End StoreSearchProps.

(** ** The document scraper *)

Module MenuScraperProps.
Import Py MenuScraper.

Section WithWorld.
Variable U : unicode_db.
Variable json_loads : pystr -> option json.
Variable http_get : pystr -> result pystr.
Variable soup_ldjson_texts : pystr -> list pystr.
Variable soup_select : pystr -> nat -> list element.
Variable soup_get_text : pystr -> pystr.

(** What the selector stage and the text-scan stage yield on their own. *)
Definition selector_stage (restaurant url html : pystr) : list ScrapedMenuItem :=
  (selector_loop U restaurant url (flat_map (soup_select html) (seq 0 n_selectors)) ∅ []).2.

Definition text_stage (restaurant url html : pystr) : list ScrapedMenuItem :=
  (fun np => heuristic_item restaurant url np.1 np.2)
    <$> _guess_items_from_text U (soup_get_text html).

(** While the selector loop has appended nothing it has seen no name. *)
Lemma selector_loop_seen restaurant url elements seen items :
  (items = [] -> seen = ∅) ->
  (selector_loop U restaurant url elements seen items).2 = [] ->
  (selector_loop U restaurant url elements seen items).1 = ∅.
Proof.
  revert seen items. induction elements as [|e rest IH]; intros seen items Hinv; simpl.
  - exact Hinv.
  - destruct (element_name e) as [name|]; [|apply IH, Hinv].
    destruct (bool_decide (name ∈ seen) || negb (_looks_like_menu_item U name)).
    + apply IH, Hinv.
    + apply IH. intros Hnil. destruct items; discriminate Hnil.
Qed.

(** With no name seen the text loop appends every guessed item. *)
Lemma text_loop_unseen restaurant url text_items items :
  text_loop restaurant url text_items ∅ items =
  items ++ ((fun np => heuristic_item restaurant url np.1 np.2) <$> text_items).
Proof.
  revert items. induction text_items as [|[name price] rest IH]; intros items; simpl.
  - symmetry. apply app_nil_r.
  - rewrite bool_decide_eq_false_2 by apply not_elem_of_empty.
    rewrite IH, <- app_assoc. reflexivity.
Qed.

(** The heuristic parser is the selector stage, or the text-scan stage when
    the selector stage is empty. *)
Lemma parse_with_heuristics_stages restaurant url html :
  _parse_with_heuristics U soup_select soup_get_text restaurant url html =
  if bool_decide (selector_stage restaurant url html = [])
  then text_stage restaurant url html
  else selector_stage restaurant url html.
Proof.
  unfold _parse_with_heuristics, selector_stage, text_stage.
  pose proof (selector_loop_seen restaurant url
                (flat_map (soup_select html) (seq 0 n_selectors)) ∅ []
                (fun _ => eq_refl)) as Hseen.
  destruct (selector_loop U restaurant url _ ∅ []) as [seen items]; simpl in *.
  case_bool_decide as Hnil; [|reflexivity].
  rewrite (Hseen Hnil), Hnil. apply text_loop_unseen.
Qed.

(** C4.  For a known restaurant whose page was fetched and whose structured
    data parsed without an exception, [scrape_restaurant] returns the output
    of exactly one stage: the structured items when there is at least one;
    otherwise the selector stage's items when there is at least one;
    otherwise the text-scan stage's items. *)
Theorem scrape_restaurant_fallback_chain slug restaurant url html structured :
  targets_get TARGETS slug = Some (restaurant, url) ->
  http_get url = Ok html ->
  _parse_structured_data U json_loads soup_ldjson_texts restaurant url html
    = Ok structured ->
  exists items,
    scrape_restaurant U json_loads http_get soup_ldjson_texts soup_select
      soup_get_text slug = Ok items
    /\ (structured <> [] -> items = structured)
    /\ (structured = [] -> selector_stage restaurant url html <> [] ->
        items = selector_stage restaurant url html)
    /\ (structured = [] -> selector_stage restaurant url html = [] ->
        items = text_stage restaurant url html).
Proof.
  intros Ht Hget Hs. unfold scrape_restaurant. rewrite Ht, Hget. simpl.
  rewrite Hs. simpl. eexists. split; [reflexivity|].
  rewrite parse_with_heuristics_stages.
  repeat split.
  - intros Hne. rewrite bool_decide_eq_false_2 by exact Hne. reflexivity.
  - intros -> Hne. simpl. rewrite bool_decide_eq_false_2 by exact Hne. reflexivity.
  - intros -> He. simpl. rewrite bool_decide_eq_true_2 by exact He. reflexivity.
Qed.

End WithWorld.

End MenuScraperProps.

(** ** The state extractor *)

Module UberEatsScraperProps.
Import Py UberEatsScraper.

Section WithWorld.
Variable U : unicode_db.
Variable json_loads : pystr -> result json.
Variable pattern_finditer : nat -> pystr -> list pystr.
Variable pattern_search : nat -> pystr -> option pystr.
Variable soup_script_texts : pystr -> list pystr.
Variable http_get : pystr -> result pystr.
Variable url_path : pystr -> pystr.

#[local] Abbreviation key := (dedup_key U).

(** The state of the [deduped] dict: every entry sits under its own key, no
    key twice. *)
Definition well_keyed (deduped : list ((pystr * option pystr) * UberEatsMenuItem)) : Prop :=
  NoDup deduped.*1 /\ forall p, p ∈ deduped -> p.1 = key p.2.

Lemma dedup_loop_spec deduped items :
  well_keyed deduped ->
  exists added,
    dedup_loop U deduped items = deduped ++ added
    /\ well_keyed (deduped ++ added)
    /\ sublist added.*2 items
    /\ (forall item, item ∈ added.*2 ->
          key item ∉ deduped.*1
          /\ exists before after,
               items = before ++ item :: after /\ key item ∉ key <$> before)
    /\ (forall item, item ∈ items -> key item ∈ (deduped ++ added).*1).
Proof.
  revert deduped. induction items as [|x rest IH]; intros deduped [Hnd Hkey]; simpl.
  - exists []. rewrite app_nil_r. repeat split; try assumption.
    + constructor.
    + inversion H.
    + inversion H.
    + intros item Hin. inversion Hin.
  - case_bool_decide as Hin.
    + destruct (IH deduped (conj Hnd Hkey)) as (added & Heq & Hwk & Hsub & Hfirst & Hcov).
      exists added. split; [exact Heq|]. split; [exact Hwk|].
      split; [apply sublist_cons, Hsub|]. split.
      * intros item Hitem. destruct (Hfirst item Hitem) as (Hout & b & a & -> & Hb).
        split; [exact Hout|]. exists (x :: b), a. split; [reflexivity|].
        rewrite fmap_cons, not_elem_of_cons. split; [|exact Hb].
        intros Heqk. rewrite Heqk in Hout. contradiction.
      * intros item Hitem. apply elem_of_cons in Hitem as [->|Hitem].
        -- rewrite fmap_app, elem_of_app. left. exact Hin.
        -- apply Hcov, Hitem.
    + assert (Hwk' : well_keyed (deduped ++ [(key x, x)])).
      { split.
        - rewrite fmap_app. apply NoDup_app. split; [exact Hnd|]. split.
          + intros k Hk Hk'. simpl in Hk'. apply list_elem_of_singleton in Hk'.
            subst k. contradiction.
          + simpl. apply NoDup_singleton.
        - intros p Hp. apply elem_of_app in Hp as [Hp|Hp]; [apply Hkey, Hp|].
          apply list_elem_of_singleton in Hp. subst p. reflexivity. }
      destruct (IH _ Hwk') as (added & Heq & Hwk & Hsub & Hfirst & Hcov).
      exists ((key x, x) :: added).
      assert (Happ : (deduped ++ [(key x, x)]) ++ added = deduped ++ (key x, x) :: added)
        by (rewrite <- app_assoc; reflexivity).
      rewrite Happ in *.
      split; [exact Heq|]. split; [exact Hwk|].
      split; [rewrite fmap_cons; apply sublist_skip, Hsub|]. split.
      * intros item Hitem. rewrite fmap_cons in Hitem. simpl in Hitem.
        apply elem_of_cons in Hitem as [->|Hitem].
        -- split; [exact Hin|]. exists [], rest. split; [reflexivity|].
           simpl. apply not_elem_of_nil.
        -- destruct (Hfirst item Hitem) as (Hout & b & a & -> & Hb).
           rewrite fmap_app, not_elem_of_app in Hout. destruct Hout as [Hout Hx].
           split; [exact Hout|]. exists (x :: b), a. split; [reflexivity|].
           rewrite fmap_cons, not_elem_of_cons. split; [|exact Hb].
           intros Heqk. apply Hx. simpl. rewrite Heqk. left.
      * intros item Hitem. apply elem_of_cons in Hitem as [->|Hitem].
        -- rewrite fmap_app, fmap_cons, elem_of_app. right. left.
        -- apply Hcov, Hitem.
Qed.

(** The item a candidate stands for, as the loop over the candidates reads
    it: the candidate's resolved price under its cleaned name, and none when
    the price does not resolve or the cleaned name is absent or empty. *)
Definition priced_item (restaurant_name : pystr) (store_id loc : option pystr)
  (cand : candidate) : option UberEatsMenuItem :=
  match _parse_price U (c_price cand), _clean_name (c_name cand) with
  | Ok (Some price), Some (first :: others) =>
      Some {| restaurant := restaurant_name;
              name := first :: others;
              price := price;
              category := _clean_name (opt_str (c_category cand));
              source_price_vendor := lit "ubereats";
              store_external_id := store_id;
              location := loc |}
  | _, _ => None
  end.

(** The (lowercased name, lowercased category) pair of an item; an item
    without a category, or with an empty one, has [None] for the second. *)
Definition name_category_pair (item : UberEatsMenuItem) : pystr * option pystr :=
  (u_lower U (name item),
   match category item with
   | Some (first :: others) => Some (u_lower U (first :: others))
   | _ => None
   end).

Lemma dedup_key_pair item : key item = name_category_pair item.
Proof.
  unfold dedup_key, name_category_pair.
  destruct (category item) as [[|first others]|]; reflexivity.
Qed.

Lemma make_item_priced restaurant_name store_id loc cand made :
  make_item U restaurant_name store_id loc cand = Ok made ->
  made = priced_item restaurant_name store_id loc cand
  /\ exists price, _parse_price U (c_price cand) = Ok price.
Proof.
  unfold make_item, priced_item.
  destruct (_parse_price U (c_price cand)) as [[p|]|]; cbn [bind];
    [| intros [= <-]; split; [reflexivity | eexists; reflexivity] | discriminate].
  destruct (_clean_name (c_name cand)) as [[|first others]|];
    intros [= <-]; (split; [reflexivity | eexists; reflexivity]).
Qed.

Lemma mapM_make_item_priced restaurant_name store_id loc cands made :
  mapM (make_item U restaurant_name store_id loc) cands = Ok made ->
  omap id made = omap (priced_item restaurant_name store_id loc) cands
  /\ Forall (fun cand => exists price, _parse_price U (c_price cand) = Ok price) cands.
Proof.
  revert made. induction cands as [|c rest IH]; intros made H; simpl in H.
  - injection H as <-. split; [reflexivity | constructor].
  - destruct (make_item U restaurant_name store_id loc c) as [o|] eqn:Hc;
      simpl in H; try discriminate.
    destruct (mapM _ rest) as [ms|] eqn:Hm; simpl in H; try discriminate.
    injection H as <-. destruct (IH ms eq_refl) as [Hrest Hall].
    apply make_item_priced in Hc as [-> Hprice].
    split; [|constructor; assumption].
    cbn [omap list_omap]. rewrite <- Hrest.
    destruct (priced_item _ _ _ c); reflexivity.
Qed.

(** A payload [json.loads] reads, or refuses as malformed JSON. *)
Definition read_or_skipped (payload : pystr) : Prop :=
  forall e, json_loads payload = Raise e -> e = JSONDecodeError.

(** The values of the payloads that parse, in order. *)
Definition parsed_payloads (payloads : list pystr) : list json :=
  omap (fun payload =>
          match json_loads payload with
          | Ok parsed => Some parsed
          | Raise _ => None
          end) payloads.

(** The first loop collects the items of the candidates of the payloads that
    parse, in order. *)
Lemma collect_items_priced restaurant_name store_id loc payloads collected :
  collect_items U json_loads restaurant_name store_id loc payloads = Ok collected ->
  Forall read_or_skipped payloads
  /\ exists extracted,
       Forall2 (fun parsed cands => _extract_items U parsed = Ok cands)
         (parsed_payloads payloads) extracted
       /\ Forall (fun cand => exists price, _parse_price U (c_price cand) = Ok price)
            (concat extracted)
       /\ collected = omap (priced_item restaurant_name store_id loc) (concat extracted).
Proof.
  unfold parsed_payloads.
  revert collected. induction payloads as [|p rest IH]; intros collected H; simpl in H.
  - injection H as <-. split; [constructor|]. exists []. repeat split; constructor.
  - cbn [omap list_omap].
    destruct (json_loads p) as [parsed|e] eqn:Hl.
    + destruct (_extract_items U parsed) as [cands|] eqn:Hex; simpl in H;
        try discriminate.
      destruct (mapM _ cands) as [made|] eqn:Hm; simpl in H; try discriminate.
      destruct (collect_items _ _ _ _ _ rest) as [more|]; simpl in H; try discriminate.
      injection H as <-.
      destruct (IH more eq_refl) as (Hread & extracted & Hall & Hprices & ->).
      apply mapM_make_item_priced in Hm as [-> Hhere].
      split; [constructor; [intros e He; congruence | exact Hread]|].
      exists (cands :: extracted). split; [constructor; assumption|].
      cbn [concat]. split; [apply Forall_app; split; assumption|].
      rewrite omap_app. reflexivity.
    + destruct e; try discriminate.
      destruct (IH collected H) as (Hread & Hrest). split; [|exact Hrest].
      constructor; [|exact Hread]. intros e He. congruence.
Qed.

(** C6.  When [fetch_menu] returns, the page was fetched, every payload was
    read by [json.loads] or skipped as malformed JSON, and every payload that
    parses gave its candidates; with [candidates] those of all such payloads
    in order, and [priced] the items of the candidates whose price resolves
    and whose cleaned name is not empty (the other candidates give no item),
    every price of a candidate was read without an exception, every returned
    item carries the resolved price and the cleaned name of a candidate of
    the page, and the returned items are [priced] with duplicates removed: in
    the same order, no two of them under one (lowercased name, lowercased
    category) pair, each the first of [priced] with its pair, and every pair
    of [priced] still present. *)
Theorem fetch_menu_priced_and_deduplicated store_url restaurant_name loc items :
  fetch_menu U json_loads pattern_finditer pattern_search soup_script_texts
    http_get url_path store_url restaurant_name loc = Ok items ->
  exists html extracted,
    http_get store_url = Ok html
    /\ Forall read_or_skipped
         (_extract_state_payloads pattern_finditer pattern_search soup_script_texts html)
    /\ Forall2 (fun parsed cands => _extract_items U parsed = Ok cands)
         (parsed_payloads
            (_extract_state_payloads pattern_finditer pattern_search
               soup_script_texts html))
         extracted
    /\ let candidates := concat extracted in
       let priced :=
         omap (priced_item restaurant_name (_extract_store_id url_path store_url) loc)
           candidates in
       Forall (fun cand => exists price, _parse_price U (c_price cand) = Ok price)
         candidates
       /\ (forall item, item ∈ items ->
             exists cand,
               cand ∈ candidates
               /\ _parse_price U (c_price cand) = Ok (Some (price item))
               /\ _clean_name (c_name cand) = Some (name item)
               /\ name item <> []
               /\ category item = _clean_name (opt_str (c_category cand)))
       /\ sublist items priced
       /\ NoDup ((fun item =>
                    (u_lower U (name item),
                     match category item with
                     | Some (first :: others) => Some (u_lower U (first :: others))
                     | _ => None
                     end)) <$> items)
       /\ (forall item, item ∈ items ->
             exists before after,
               priced = before ++ item :: after
               /\ name_category_pair item ∉ name_category_pair <$> before)
       /\ (forall item, item ∈ priced ->
             name_category_pair item ∈ name_category_pair <$> items).
Proof.
  unfold fetch_menu. intros H.
  destruct (http_get store_url) as [html|]; [|discriminate]. cbn [bind] in H.
  destruct (collect_items _ _ _ _ _ _) as [collected|] eqn:Hc; [|discriminate].
  cbn [bind] in H. injection H as <-.
  destruct (collect_items_priced _ _ _ _ _ Hc)
    as (Hread & extracted & Hall & Hprices & Hcollected).
  exists html, extracted. split; [reflexivity|]. split; [exact Hread|].
  split; [exact Hall|].
  cbv zeta. rewrite <- Hcollected.
  assert (Hwk0 : well_keyed []) by (split; [constructor | intros p Hp; inversion Hp]).
  destruct (dedup_loop_spec [] collected Hwk0)
    as (added & Heq & [Hnd Hkey] & Hsub & Hfirst & Hcov).
  simpl in Heq, Hnd, Hkey, Hsub, Hfirst, Hcov. rewrite Heq.
  assert (Hkeys : key <$> added.*2 = added.*1).
  { clear -Hkey. induction added as [|p rest IH]; [reflexivity|].
    rewrite !fmap_cons. f_equal.
    - symmetry. apply Hkey. left.
    - apply IH. intros q Hq. apply Hkey. right. exact Hq. }
  assert (Hpair : forall l : list UberEatsMenuItem, key <$> l = name_category_pair <$> l).
  { intros l. apply list_fmap_ext. intros i item _. apply dedup_key_pair. }
  split; [exact Hprices|]. split; [|split; [exact Hsub|]; split; [|split]].
  - intros item Hitem.
    assert (Hin : item ∈ collected) by (eapply elem_of_sublist; eassumption).
    rewrite Hcollected in Hin. apply list_elem_of_omap in Hin as (cand & Hcand & Hmade).
    exists cand. split; [exact Hcand|]. unfold priced_item in Hmade.
    destruct (_parse_price U (c_price cand)) as [[p|]|]; try discriminate.
    destruct (_clean_name (c_name cand)) as [[|first others]|]; try discriminate.
    injection Hmade as <-. cbn. repeat split. discriminate.
  - change (NoDup (name_category_pair <$> added.*2)).
    rewrite <- Hpair, Hkeys. exact Hnd.
  - intros item Hitem. destruct (Hfirst item Hitem) as (_ & b & a & Hb & Hout).
    exists b, a. split; [exact Hb|]. rewrite <- Hpair, <- dedup_key_pair. exact Hout.
  - intros item Hitem. rewrite <- Hpair, <- dedup_key_pair, Hkeys.
    apply Hcov, Hitem.
Qed.

End WithWorld.

End UberEatsScraperProps.

(** ** Facts about binary64 arithmetic *)

Module FloatFacts.
Import Py.

#[local] Abbreviation fexp := (SpecFloat.fexp prec emax).

Lemma fexp_eq x : fexp x = Z.max (x - 53) (-1074).
Proof. reflexivity. Qed.

(** *** Binary digits *)

Lemma digits2_pos_bounds m :
  2 ^ (Zpos (digits2_pos m) - 1) <= Zpos m < 2 ^ Zpos (digits2_pos m).
Proof.
  induction m as [p IH|p IH|]; simpl digits2_pos.
  - rewrite Pos2Z.inj_succ, Z.pow_succ_r by lia.
    replace (Z.succ (Zpos (digits2_pos p)) - 1) with (Z.succ (Zpos (digits2_pos p) - 1)) by lia.
    rewrite Z.pow_succ_r by lia. lia.
  - rewrite Pos2Z.inj_succ, Z.pow_succ_r by lia.
    replace (Z.succ (Zpos (digits2_pos p)) - 1) with (Z.succ (Zpos (digits2_pos p) - 1)) by lia.
    rewrite Z.pow_succ_r by lia. lia.
  - simpl. lia.
Qed.

Lemma Zdigits2_nonneg m : 0 <= Zdigits2 m.
Proof. destruct m; simpl; lia. Qed.

Lemma Zdigits2_bounds m :
  0 < m -> 2 ^ (Zdigits2 m - 1) <= m < 2 ^ Zdigits2 m.
Proof. destruct m; try lia. intros _. apply digits2_pos_bounds. Qed.

Lemma Zdigits2_pos m : 0 < m -> 0 < Zdigits2 m.
Proof. destruct m; simpl; lia. Qed.

Lemma Zdigits2_unique m d :
  0 < d -> 2 ^ (d - 1) <= m < 2 ^ d -> Zdigits2 m = d.
Proof.
  intros Hd [Hlo Hhi].
  assert (Hm : 0 < m) by (pose proof (Z.pow_pos_nonneg 2 (d - 1)); lia).
  pose proof (Zdigits2_bounds m Hm) as [Hlo' Hhi'].
  pose proof (Zdigits2_pos m Hm) as Hp.
  assert (d - 1 < Zdigits2 m).
  { apply (Z.pow_lt_mono_r_iff 2); lia. }
  assert (Zdigits2 m - 1 < d).
  { apply (Z.pow_lt_mono_r_iff 2); lia. }
  lia.
Qed.

Lemma Zdigits2_le a b : 0 <= a <= b -> Zdigits2 a <= Zdigits2 b.
Proof.
  intros [Ha Hab]. destruct (Z.eq_dec a 0) as [->|Hne].
  - apply Zdigits2_nonneg.
  - pose proof (Zdigits2_bounds a ltac:(lia)) as [Hlo _].
    pose proof (Zdigits2_bounds b ltac:(lia)) as [_ Hhi].
    pose proof (Zdigits2_pos b ltac:(lia)).
    assert (Zdigits2 a - 1 < Zdigits2 b); [|lia].
    apply (Z.pow_lt_mono_r_iff 2); lia.
Qed.

Lemma Zdigits2_div_pow m n :
  0 <= m -> 0 <= n -> Zdigits2 (m / 2 ^ n) = Z.max (Zdigits2 m - n) 0.
Proof.
  intros Hm Hn. destruct (Z.eq_dec m 0) as [->|Hne].
  - rewrite Z.div_0_l by (apply Z.pow_nonzero; lia). simpl. lia.
  - pose proof (Zdigits2_bounds m ltac:(lia)) as [Hlo Hhi].
    pose proof (Zdigits2_pos m ltac:(lia)) as Hp.
    assert (H2n : 0 < 2 ^ n) by (apply Z.pow_pos_nonneg; lia).
    destruct (Z_le_gt_dec (Zdigits2 m) n) as [Hle|Hgt].
    + rewrite Z.div_small; [simpl; lia|]. split; [lia|].
      eapply Z.lt_le_trans; [exact Hhi|]. apply Z.pow_le_mono_r; lia.
    + rewrite Z.max_l by lia. apply Zdigits2_unique; [lia|]. split.
      * apply Z.div_le_lower_bound; [lia|].
        rewrite <- Z.pow_add_r by lia.
        replace (n + (Zdigits2 m - n - 1)) with (Zdigits2 m - 1) by lia. exact Hlo.
      * apply Z.div_lt_upper_bound; [lia|].
        rewrite <- Z.pow_add_r by lia.
        replace (n + (Zdigits2 m - n)) with (Zdigits2 m) by lia. exact Hhi.
Qed.

Lemma Zdigits2_mul_pow m n :
  0 < m -> 0 <= n -> Zdigits2 (m * 2 ^ n) = Zdigits2 m + n.
Proof.
  intros Hm Hn.
  pose proof (Zdigits2_bounds m Hm) as [Hlo Hhi].
  pose proof (Zdigits2_pos m Hm) as Hp.
  assert (H2n : 0 < 2 ^ n) by (apply Z.pow_pos_nonneg; lia).
  apply Zdigits2_unique; [lia|]. split.
  - replace (Zdigits2 m + n - 1) with (Zdigits2 m - 1 + n) by lia.
    rewrite Z.pow_add_r by lia. apply Z.mul_le_mono_nonneg_r; lia.
  - rewrite Z.pow_add_r by lia. apply Z.mul_lt_mono_pos_r; lia.
Qed.

(** *** Shifting and rounding a mantissa *)

Lemma shr_1_m mrs : 0 <= shr_m mrs -> shr_m (shr_1 mrs) = shr_m mrs / 2.
Proof.
  destruct mrs as [m r s]. simpl. intros Hm.
  destruct m as [|p|p]; [reflexivity| |lia].
  destruct p as [p|p|]; simpl.
  - rewrite Pos2Z.inj_xI. apply (Z.div_unique _ _ _ 1); lia.
  - rewrite Pos2Z.inj_xO. apply (Z.div_unique _ _ _ 0); lia.
  - reflexivity.
Qed.

Lemma pow2_pos n : 0 <= n -> 0 < 2 ^ n.
Proof. intros. apply Z.pow_pos_nonneg; lia. Qed.

Lemma pow2_xO p : 2 ^ Zpos p~0 = 2 ^ Zpos p * 2 ^ Zpos p.
Proof. rewrite Pos2Z.inj_xO, <- Z.pow_add_r by lia. f_equal. lia. Qed.

Lemma pow2_xI p : 2 ^ Zpos p~1 = 2 * (2 ^ Zpos p * 2 ^ Zpos p).
Proof.
  rewrite Pos2Z.inj_xI, <- Z.pow_add_r by lia.
  replace (2 * Zpos p + 1) with (Z.succ (Zpos p + Zpos p)) by lia.
  apply Z.pow_succ_r. lia.
Qed.

Lemma iter_shr_1_m p mrs :
  0 <= shr_m mrs ->
  shr_m (SpecFloat.iter_pos shr_1 p mrs) = shr_m mrs / 2 ^ Zpos p.
Proof.
  revert mrs. induction p as [p IH|p IH|]; intros mrs Hm; simpl SpecFloat.iter_pos.
  - pose proof (pow2_pos (Zpos p) ltac:(lia)) as Hp.
    assert (H1 : 0 <= shr_m (shr_1 mrs))
      by (rewrite shr_1_m by exact Hm; apply Z.div_pos; lia).
    assert (H2 : 0 <= shr_m (SpecFloat.iter_pos shr_1 p (shr_1 mrs)))
      by (rewrite IH by exact H1; apply Z.div_pos; lia).
    rewrite IH, IH, shr_1_m by assumption.
    rewrite !Z.div_div by lia. rewrite pow2_xI. reflexivity.
  - pose proof (pow2_pos (Zpos p) ltac:(lia)) as Hp.
    assert (H1 : 0 <= shr_m (SpecFloat.iter_pos shr_1 p mrs))
      by (rewrite IH by exact Hm; apply Z.div_pos; lia).
    rewrite IH, IH by assumption.
    rewrite Z.div_div by lia. rewrite pow2_xO. reflexivity.
  - rewrite shr_1_m by exact Hm. reflexivity.
Qed.

Lemma shr_record_of_loc_m m l : shr_m (shr_record_of_loc m l) = m.
Proof. destruct l as [|[]]; reflexivity. Qed.

(** [shr_fexp] on a mantissa that is not too long for its exponent: the
    exponent becomes the canonical one and the mantissa is divided. *)
Lemma shr_fexp_spec m e l :
  0 <= m -> e <= fexp (Zdigits2 m + e) ->
  shr_m (shr_fexp prec emax m e l).1 = m / 2 ^ (fexp (Zdigits2 m + e) - e)
  /\ (shr_fexp prec emax m e l).2 = fexp (Zdigits2 m + e).
Proof.
  intros Hm He. unfold shr_fexp, shr.
  destruct (fexp (Zdigits2 m + e) - e) as [|n|n] eqn:Hn; simpl.
  - rewrite shr_record_of_loc_m, Z.div_1_r. lia.
  - rewrite iter_shr_1_m by (rewrite shr_record_of_loc_m; exact Hm).
    rewrite shr_record_of_loc_m. lia.
  - lia.
Qed.

Lemma round_nearest_even_cases m l :
  round_nearest_even m l = m \/ round_nearest_even m l = m + 1.
Proof.
  destruct l as [|[]]; simpl; auto. destruct (Z.even m); auto.
Qed.

(** After [shr_fexp] a positive mantissa is canonical. *)
Lemma shr_fexp_canonical m e l :
  0 <= m -> e <= fexp (Zdigits2 m + e) ->
  let m' := shr_m (shr_fexp prec emax m e l).1 in
  let e' := (shr_fexp prec emax m e l).2 in
  0 <= m'
  /\ e' = fexp (Zdigits2 m + e)
  /\ (0 < m' -> Zdigits2 m' + e' = Zdigits2 m + e)
  /\ (m' = 0 -> 0 < m -> e' = -1074)
  /\ (0 < m -> -1074 < Zdigits2 m + e -> 0 < m').
Proof.
  intros Hm He m' e'.
  destruct (shr_fexp_spec m e l Hm He) as [Hm' He'].
  fold m' in Hm'. fold e' in He'.
  set (n := fexp (Zdigits2 m + e) - e) in *.
  assert (Hn : 0 <= n) by (unfold n; lia).
  assert (H2n : 0 < 2 ^ n) by (apply Z.pow_pos_nonneg; lia).
  assert (Hd : Zdigits2 m' = Z.max (Zdigits2 m - n) 0)
    by (rewrite Hm'; apply Zdigits2_div_pow; assumption).
  assert (Hm'0 : 0 <= m') by (rewrite Hm'; apply Z.div_pos; lia).
  split; [exact Hm'0|]. split; [exact He'|].
  pose proof (fexp_eq (Zdigits2 m + e)) as Hf.
  repeat split.
  - intros Hpos. pose proof (Zdigits2_pos m' Hpos). lia.
  - intros Hz Hmpos. rewrite Hz in Hd. simpl in Hd.
    pose proof (Zdigits2_pos m Hmpos). lia.
  - intros Hmpos HD.
    assert (0 < Zdigits2 m'); [lia|].
    destruct (Z.eq_dec m' 0) as [Hz|Hnz]; [|lia].
    rewrite Hz in *. simpl in *. lia.
Qed.

Lemma Zdigits2_succ_le m : 0 <= m -> Zdigits2 (m + 1) <= Zdigits2 m + 1.
Proof.
  intros Hm. destruct (Z.eq_dec m 0) as [->|Hne]; [simpl; lia|].
  pose proof (Zdigits2_bounds m ltac:(lia)) as [_ Hhi].
  pose proof (Zdigits2_pos m ltac:(lia)) as Hp.
  pose proof (pow2_pos (Zdigits2 m) ltac:(lia)) as H2.
  rewrite <- (Zdigits2_unique (2 ^ Zdigits2 m) (Zdigits2 m + 1)).
  - apply Zdigits2_le. lia.
  - lia.
  - replace (Zdigits2 m + 1 - 1) with (Zdigits2 m) by lia.
    rewrite Z.pow_add_r by lia. lia.
Qed.

(** *** The rounding function of [SpecFloat] *)

(** A result with a given sign that is not a NaN. *)
Definition sf_signed (s : bool) (r : spec_float) : Prop :=
  r = S754_zero s \/ r = S754_infinity s \/ exists m e, r = S754_finite s m e.

Lemma binary_round_aux_spec s m e l :
  0 <= m -> e <= fexp (Zdigits2 m + e) ->
  let r := binary_round_aux prec emax s m e l in
  valid_binary r = true
  /\ sf_signed s r
  /\ (0 < m -> -1074 < Zdigits2 m + e -> r <> S754_zero s)
  /\ (fexp (Zdigits2 m + e) + 1 <= 971 -> r <> S754_infinity s).
Proof.
  intros Hm He. unfold binary_round_aux.
  destruct (shr_fexp_canonical m e l Hm He) as (Hm1 & He1 & Hd1 & Hz1 & Hp1).
  destruct (shr_fexp prec emax m e l) as [mrs1 e1]; simpl in Hm1, He1, Hd1, Hz1, Hp1.
  set (m1 := shr_m mrs1) in *.
  set (m2 := round_nearest_even m1 (loc_of_shr_record mrs1)).
  assert (Hm2 : m2 = m1 \/ m2 = m1 + 1) by apply round_nearest_even_cases.
  pose proof (fexp_eq (Zdigits2 m + e)) as Hf.
  pose proof (fexp_eq (Zdigits2 m2 + e1)) as Hf2.
  pose proof (Zdigits2_nonneg m2) as Hd2n.
  assert (Hd2 : Zdigits2 m2 <= Zdigits2 m1 + 1).
  { destruct Hm2 as [-> | ->]; [lia | apply Zdigits2_succ_le, Hm1]. }
  assert (Hd2' : Zdigits2 m1 <= Zdigits2 m2).
  { apply Zdigits2_le. lia. }
  assert (Hm0 : m = 0 -> e1 = -1074 /\ m1 = 0).
  { intros ->. simpl in He, Hf, He1. split; [lia|].
    destruct (Z.eq_dec m1 0) as [Hz|Hnz]; [exact Hz|].
    specialize (Hd1 ltac:(lia)). pose proof (Zdigits2_pos m1 ltac:(lia)). simpl in Hd1. lia. }
  assert (Hpre : e1 <= fexp (Zdigits2 m2 + e1)).
  { destruct (Z.eq_dec m1 0) as [Hz|Hnz].
    - destruct (Z.eq_dec m 0) as [Hz'|Hnz']; [destruct (Hm0 Hz'); lia|].
      specialize (Hz1 Hz ltac:(lia)). lia.
    - specialize (Hd1 ltac:(lia)). lia. }
  destruct (shr_fexp_canonical m2 e1 loc_Exact ltac:(lia) Hpre) as (Hm3 & He2 & Hd3 & _ & Hp3).
  destruct (shr_fexp prec emax m2 e1 loc_Exact) as [mrs2 e2]; simpl in Hm3, He2, Hd3, Hp3.
  assert (Hexp : e2 <= fexp (Zdigits2 m + e) + 1).
  { destruct (Z.eq_dec m1 0) as [Hz|Hnz].
    - assert (e1 = -1074).
      { destruct (Z.eq_dec m 0) as [Hz'|Hnz']; [destruct (Hm0 Hz'); lia|].
        apply Hz1; [exact Hz | lia]. }
      rewrite Hz in Hd2. simpl in Hd2. lia.
    - specialize (Hd1 ltac:(lia)). lia. }
  change (emax - prec) with 971.
  destruct (shr_m mrs2) as [|p|p] eqn:Hm3e; simpl.
  - repeat split; unfold sf_signed; auto; try discriminate.
    intros Hpos HD. exfalso.
    assert (0 < m1) by (apply Hp1; assumption).
    assert (0 < m2) by lia.
    pose proof (Zdigits2_pos m2 ltac:(lia)).
    specialize (Hp3 ltac:(lia) ltac:(lia)). lia.
  - destruct (e2 <=? 971) eqn:Hle.
    + repeat split; unfold sf_signed; eauto; try discriminate.
      simpl. unfold bounded, canonical_mantissa.
      apply andb_true_intro. split; [|exact Hle].
      apply Z.eqb_eq. specialize (Hd3 ltac:(lia)). simpl in Hd3.
      rewrite Hd3. lia.
    + repeat split; unfold sf_signed; auto; try discriminate.
      intros Hb. apply Z.leb_gt in Hle. lia.
  - lia.
Qed.

Lemma iter_xO_Z m d : Zpos (Pos.iter xO m d) = Zpos m * 2 ^ Zpos d.
Proof.
  induction d as [|d IH] using Pos.peano_ind.
  - simpl. lia.
  - rewrite Pos.iter_succ, Pos2Z.inj_xO, IH, Pos2Z.inj_succ, Z.pow_succ_r by lia. lia.
Qed.

Lemma binary_round_spec s m e :
  let r := binary_round prec emax s m e in
  valid_binary r = true
  /\ sf_signed s r
  /\ (-1074 < Zdigits2 (Zpos m) + e -> r <> S754_zero s)
  /\ (fexp (Zdigits2 (Zpos m) + e) + 1 <= 971 -> r <> S754_infinity s).
Proof.
  unfold binary_round, shl_align.
  change (Zpos (digits2_pos m)) with (Zdigits2 (Zpos m)).
  pose proof (fexp_eq (Zdigits2 (Zpos m) + e)) as Hf.
  destruct (fexp (Zdigits2 (Zpos m) + e) - e) as [|d|d] eqn:Hd.
  - pose proof (binary_round_aux_spec s (Zpos m) e loc_Exact ltac:(lia) ltac:(lia))
      as (Hv & Hs & Hz & Hi).
    repeat split; try assumption. intros. apply Hz; lia.
  - pose proof (binary_round_aux_spec s (Zpos m) e loc_Exact ltac:(lia) ltac:(lia))
      as (Hv & Hs & Hz & Hi).
    repeat split; try assumption. intros. apply Hz; lia.
  - assert (HD : Zdigits2 (Zpos (Pos.iter xO m d)) + fexp (Zdigits2 (Zpos m) + e)
                 = Zdigits2 (Zpos m) + e).
    { rewrite iter_xO_Z, Zdigits2_mul_pow by lia. lia. }
    pose proof (binary_round_aux_spec s (Zpos (Pos.iter xO m d))
                  (fexp (Zdigits2 (Zpos m) + e)) loc_Exact ltac:(lia)) as Haux.
    rewrite HD in Haux. destruct (Haux ltac:(lia)) as (Hv & Hs & Hz & Hi).
    repeat split; try assumption. intros. apply Hz; lia.
Qed.

(** The float of a positive integer below [2 ^ 1023] is finite and positive. *)
Lemma float_of_int_pos c :
  0 < c < 2 ^ 1023 ->
  exists y m e, float_of_int c = Ok y /\ Prim2SF y = S754_finite false m e.
Proof.
  intros [Hc Hlt]. destruct c as [|p|p]; try lia.
  unfold float_of_int. simpl binary_normalize.
  assert (Hd : Zdigits2 (Zpos p) <= 1023).
  { pose proof (Zdigits2_bounds (Zpos p) ltac:(lia)) as [Hlo _].
    pose proof (Zdigits2_pos (Zpos p) ltac:(lia)).
    assert (Zdigits2 (Zpos p) - 1 < 1023); [|lia].
    apply (Z.pow_lt_mono_r_iff 2); lia. }
  pose proof (Zdigits2_pos (Zpos p) ltac:(lia)) as Hd0.
  pose proof (fexp_eq (Zdigits2 (Zpos p) + 0)) as Hf.
  destruct (binary_round_spec false p 0) as (Hv & Hs & Hz & Hi).
  specialize (Hz ltac:(lia)). specialize (Hi ltac:(lia)).
  destruct Hs as [Hs | [Hs | (m & e & Hs)]]; try contradiction.
  rewrite Hs in *. exists (SF2Prim (S754_finite false m e)), m, e.
  split; [reflexivity|]. apply Prim2SF_SF2Prim, Hv.
Qed.

Lemma div_eucl_div a b : Z.div_eucl a b = (a / b, a mod b).
Proof. unfold Z.div, Z.modulo. destruct (Z.div_eucl a b); reflexivity. Qed.

Lemma Zdigits2_pow2 k : 0 <= k -> Zdigits2 (2 ^ k) = k + 1.
Proof.
  intros Hk. apply Zdigits2_unique; [lia|].
  replace (k + 1 - 1) with k by lia. rewrite Z.pow_add_r by lia. 
  pose proof (pow2_pos k Hk). lia.
Qed.

(** The quotient of two positive integers rounds to a valid float of the
    given sign; it is finite when the operands' lengths differ by at most
    1022 bits. *)
Lemma SFquot_spec s a b :
  let r := SFquot s a b in
  valid_binary r = true
  /\ sf_signed s r
  /\ (Zdigits2 (Zpos a) - Zdigits2 (Zpos b) <= 1022 -> r <> S754_infinity s).
Proof.
  unfold SFquot, SFdiv_core_binary.
  set (d1 := Zdigits2 (Zpos a)). set (d2 := Zdigits2 (Zpos b)).
  replace (d1 + 0 - (d2 + 0)) with (d1 - d2) by lia.
  change (0 - 0) with 0.
  set (e' := Z.min (fexp (d1 - d2)) 0).
  set (sh := 0 - e').
  pose proof (fexp_eq (d1 - d2)) as Hf.
  assert (Hsh : 0 <= sh) by (unfold sh, e'; lia).
  set (m' := match sh with Zpos _ => Z.shiftl (Zpos a) sh | Z0 => Zpos a | Zneg _ => 0 end).
  assert (Hm' : m' = Zpos a * 2 ^ sh).
  { unfold m'. destruct sh as [|p|p]; [simpl; lia | apply Z.shiftl_mul_pow2; lia | lia]. }
  rewrite div_eucl_div.
  pose proof (pow2_pos sh Hsh) as H2sh.
  pose proof (Zdigits2_bounds (Zpos a) ltac:(lia)) as [Halo Hahi]. fold d1 in Halo, Hahi.
  pose proof (Zdigits2_bounds (Zpos b) ltac:(lia)) as [Hblo Hbhi]. fold d2 in Hblo, Hbhi.
  pose proof (Zdigits2_pos (Zpos a) ltac:(lia)) as Hd1. fold d1 in Hd1.
  pose proof (Zdigits2_pos (Zpos b) ltac:(lia)) as Hd2. fold d2 in Hd2.
  set (q := m' / Zpos b).
  assert (Hq : 0 <= q) by (apply Z.div_pos; lia).
  assert (Hqb : q * Zpos b <= m') by (unfold q; rewrite Z.mul_comm; apply Z.mul_div_le; lia).
  assert (Hm'hi : m' < 2 ^ (d1 + sh)).
  { rewrite Hm', Z.pow_add_r by lia. apply Z.mul_lt_mono_pos_r; lia. }
  (* lower bound on the length of the quotient *)
  assert (Hlow : 0 <= d1 + sh - d2 - 1 -> d1 + sh - d2 <= Zdigits2 q).
  { intros Hk.
    assert (2 ^ (d1 + sh - d2 - 1) <= q).
    { apply Z.div_le_lower_bound; [lia|].
      rewrite Hm'. apply Z.le_trans with (2 ^ d2 * 2 ^ (d1 + sh - d2 - 1)).
      - apply Z.mul_le_mono_nonneg_r; [|lia].
        pose proof (pow2_pos (d1 + sh - d2 - 1) Hk). lia.
      - rewrite <- Z.pow_add_r by lia.
        replace (d2 + (d1 + sh - d2 - 1)) with (d1 - 1 + sh) by lia.
        rewrite Z.pow_add_r by lia. apply Z.mul_le_mono_nonneg_r; lia. }
    pose proof (Zdigits2_pow2 (d1 + sh - d2 - 1) Hk) as Hpw.
    pose proof (pow2_pos (d1 + sh - d2 - 1) Hk) as Hpp.
    pose proof (Zdigits2_le (2 ^ (d1 + sh - d2 - 1)) q ltac:(lia)). lia. }
  (* upper bound on the length of the quotient *)
  assert (Hup : Zdigits2 q <= Z.max (d1 + sh - d2 + 1) 0).
  { destruct (Z.eq_dec q 0) as [->|Hq0]; [simpl; lia|].
    pose proof (Zdigits2_bounds q ltac:(lia)) as [Hqlo _].
    pose proof (Zdigits2_pos q ltac:(lia)) as Hdq.
    assert (Hprod : 2 ^ (Zdigits2 q - 1) * 2 ^ (d2 - 1) < 2 ^ (d1 + sh)).
    { eapply Z.le_lt_trans; [|exact Hm'hi].
      eapply Z.le_trans; [|exact Hqb].
      pose proof (pow2_pos (Zdigits2 q - 1) ltac:(lia)).
      pose proof (pow2_pos (d2 - 1) ltac:(lia)).
      apply Z.mul_le_mono_nonneg; lia. }
    rewrite <- Z.pow_add_r in Hprod by lia.
    apply Z.pow_lt_mono_r_iff in Hprod; lia. }
  pose proof (Zdigits2_nonneg q) as Hdq0.
  pose proof (fexp_eq (Zdigits2 q + e')) as Hfq.
  assert (Hpre : e' <= fexp (Zdigits2 q + e')).
  { unfold e', sh in *. lia. }
  destruct (binary_round_aux_spec s q e' (new_location (Zpos b) (m' mod Zpos b)) Hq Hpre)
    as (Hv & Hs & _ & Hi).
  repeat split; try assumption.
  intros Hd. apply Hi. unfold e', sh in *. lia.
Qed.

(** Whatever the exponent, rounding a non-negative mantissa keeps the sign
    it is given and never yields a NaN. *)
Lemma shr_fexp_nonneg m e l : 0 <= m -> 0 <= shr_m (shr_fexp prec emax m e l).1.
Proof.
  intros Hm. unfold shr_fexp, shr.
  destruct (fexp (Zdigits2 m + e) - e) as [|n|n]; simpl;
    try (rewrite shr_record_of_loc_m; exact Hm).
  rewrite iter_shr_1_m by (rewrite shr_record_of_loc_m; exact Hm).
  rewrite shr_record_of_loc_m. apply Z.div_pos; [exact Hm | apply pow2_pos; lia].
Qed.

Lemma binary_round_aux_signed s m e l :
  0 <= m -> sf_signed s (binary_round_aux prec emax s m e l).
Proof.
  intros Hm. unfold binary_round_aux.
  pose proof (shr_fexp_nonneg m e l Hm) as H1.
  destruct (shr_fexp prec emax m e l) as [mrs1 e1]; simpl in H1.
  set (m2 := round_nearest_even (shr_m mrs1) (loc_of_shr_record mrs1)).
  assert (Hm2 : 0 <= m2)
    by (destruct (round_nearest_even_cases (shr_m mrs1) (loc_of_shr_record mrs1));
        unfold m2; lia).
  pose proof (shr_fexp_nonneg m2 e1 loc_Exact Hm2) as H2.
  destruct (shr_fexp prec emax m2 e1 loc_Exact) as [mrs2 e2]; simpl in H2.
  unfold sf_signed. destruct (shr_m mrs2) as [|p|p]; [auto | | lia].
  destruct (e2 <=? emax - prec); eauto.
Qed.

Lemma binary_round_signed s m e : sf_signed s (binary_round prec emax s m e).
Proof.
  unfold binary_round. destruct (shl_align m e _) as [mz ez].
  apply binary_round_aux_signed. lia.
Qed.

(** *** Signs of primitive floats *)

(** A float whose sign bit is clear, or a zero, or a NaN: what [not (x < 0)]
    says of [x]. *)
Definition sf_nonneg_or_nan (r : spec_float) : Prop :=
  match r with
  | S754_zero _ | S754_nan => True
  | S754_infinity s | S754_finite s _ _ => s = false
  end.

Definition nonneg_or_nan (x : float) : Prop := sf_nonneg_or_nan (Prim2SF x).

Lemma sf_signed_nonneg r : sf_signed false r -> sf_nonneg_or_nan r.
Proof. intros [-> | [-> | (m & e & ->)]]; simpl; auto. Qed.

Lemma Prim2SF_zero : Prim2SF 0 = S754_zero false.
Proof. reflexivity. Qed.

Lemma not_ltb_zero x : (x <? 0)%float = false -> nonneg_or_nan x.
Proof.
  rewrite ltb_spec, Prim2SF_zero. unfold nonneg_or_nan.
  destruct (Prim2SF x) as [s|[]| |[] m e]; simpl; auto; discriminate.
Qed.

Lemma leb_zero x : (0 <=? x)%float = true -> nonneg_or_nan x.
Proof.
  rewrite leb_spec, Prim2SF_zero. unfold nonneg_or_nan.
  destruct (Prim2SF x) as [s|[]| |[] m e]; simpl; auto; discriminate.
Qed.

Lemma nonneg_opp x : nonneg_or_nan x -> (0 <? - x)%float = false.
Proof.
  unfold nonneg_or_nan. rewrite ltb_spec, opp_spec, Prim2SF_zero.
  destruct (Prim2SF x) as [s|s| |s m e]; simpl; intros H; subst; reflexivity.
Qed.

Lemma nonneg_mul x c m e :
  Prim2SF c = S754_finite false m e -> nonneg_or_nan x -> nonneg_or_nan (x * c).
Proof.
  unfold nonneg_or_nan. rewrite mul_spec. intros ->.
  destruct (Prim2SF x) as [s|s| |s mx ex]; simpl; intros H; subst; auto.
  apply sf_signed_nonneg, binary_round_aux_signed. lia.
Qed.

Lemma nonneg_div x c m e :
  Prim2SF c = S754_finite false m e -> nonneg_or_nan x -> nonneg_or_nan (x / c).
Proof.
  unfold nonneg_or_nan. rewrite div_spec. intros ->.
  destruct (Prim2SF x) as [s|s| |s mx ex]; simpl; intros H; subst; auto.
  unfold SFdiv_core_binary.
  match goal with
  | |- context [Z.div_eucl ?a ?b] => rewrite (div_eucl_div a b); set (num := a)
  end.
  apply sf_signed_nonneg, binary_round_aux_signed.
  apply Z.div_pos; [|lia]. subst num.
  destruct (_ - _ - _) as [|p|p]; try lia.
  apply Z.shiftl_nonneg. lia.
Qed.

Lemma nonneg_add x y : nonneg_or_nan x -> nonneg_or_nan y -> nonneg_or_nan (x + y).
Proof.
  unfold nonneg_or_nan. rewrite add_spec.
  destruct (Prim2SF x) as [sx|sx| |sx mx ex], (Prim2SF y) as [sy|sy| |sy my ey];
    simpl; intros Hx Hy; subst; auto; try reflexivity.
  - destruct sx, sy; exact I.
  - unfold binary_normalize, cond_Zopp.
    apply sf_signed_nonneg, binary_round_signed.
Qed.

Lemma leb_zero_signed r : sf_signed false r -> SFleb (S754_zero false) r = true.
Proof. intros [-> | [-> | (m & e & ->)]]; reflexivity. Qed.

(** A float that is not below zero, over a positive finite float, is not
    below zero. *)
Lemma div_nonneg x y m e :
  (0 <=? x)%float = true -> Prim2SF y = S754_finite false m e ->
  (0 <=? x / y)%float = true.
Proof.
  rewrite !leb_spec, Prim2SF_zero, div_spec. intros Hx ->.
  destruct (Prim2SF x) as [s|s| |s mx ex]; simpl in *; try discriminate; try reflexivity.
  - destruct s; [discriminate | reflexivity].
  - destruct s; [discriminate|]. simpl xorb.
    unfold SFdiv_core_binary.
    match goal with
    | |- context [Z.div_eucl ?a ?b] => rewrite (div_eucl_div a b); set (num := a)
    end.
    apply leb_zero_signed, binary_round_aux_signed.
    apply Z.div_pos; [|lia]. subst num.
    destruct (_ - _ - _) as [|p|p]; try lia.
    apply Z.shiftl_nonneg. lia.
Qed.

Lemma Zdigits2_lt_pow c k : 0 < c < 2 ^ k -> Zdigits2 c <= k.
Proof.
  intros [Hc Hlt].
  assert (0 <= k).
  { destruct (Z_lt_le_dec k 0) as [Hk|Hk]; [|exact Hk].
    rewrite Z.pow_neg_r in Hlt by exact Hk. lia. }
  pose proof (Zdigits2_bounds c Hc) as [Hlo _].
  pose proof (Zdigits2_pos c Hc).
  assert (Zdigits2 c - 1 < k); [|lia].
  apply (Z.pow_lt_mono_r_iff 2); lia.
Qed.

(** The quotient of two positive integers, the first below [2 ^ 1023], does
    not overflow and is not negative. *)
Lemma int_truediv_pos a b :
  0 < a < 2 ^ 1023 -> 0 < b ->
  exists q, int_truediv a b = Ok q /\ nonneg_or_nan q.
Proof.
  intros Ha Hb. destruct a as [|a|a], b as [|b|b]; try lia.
  unfold int_truediv.
  change (xorb (Z.pos a <? 0) (Z.pos b <? 0)) with false.
  change (Z.to_pos (Z.abs (Z.pos a))) with a.
  change (Z.to_pos (Z.abs (Z.pos b))) with b.
  destruct (SFquot_spec false a b) as (Hv & Hs & Hi).
  pose proof (Zdigits2_lt_pow (Zpos a) 1023 Ha).
  pose proof (Zdigits2_pos (Zpos b) ltac:(lia)).
  specialize (Hi ltac:(lia)).
  unfold nonneg_or_nan.
  destruct Hs as [Hs | [Hs | (m & e & Hs)]]; try contradiction;
    rewrite Hs in *; eexists; (split; [reflexivity|]);
    rewrite Prim2SF_SF2Prim by exact Hv; reflexivity.
Qed.

Lemma ltb_leb x y : (x <? y)%float = true -> (x <=? y)%float = true.
Proof.
  rewrite ltb_spec, leb_spec. unfold SFltb, SFleb.
  destruct (SFcompare _ _) as [[]|]; auto.
Qed.

Lemma not_leb_zero_nonzero x : (x <=? 0)%float = false -> is_zero x = false.
Proof.
  unfold is_zero. rewrite leb_spec, FloatAxioms.eqb_spec. unfold SFleb, SFeqb.
  destruct (SFcompare _ _) as [[]|]; auto.
Qed.

Lemma ltb_zero_not_leb x : (0 <? x)%float = true -> (x <=? 0)%float = false.
Proof.
  rewrite ltb_spec, leb_spec, Prim2SF_zero.
  destruct (Prim2SF x) as [s|[]| |[] m e]; simpl; auto; discriminate.
Qed.

Lemma finite_pos_nonzero y m e :
  Prim2SF y = S754_finite false m e -> is_zero y = false.
Proof. unfold is_zero. rewrite FloatAxioms.eqb_spec. intros ->. reflexivity. Qed.

(** *** The clamp *)

Lemma clamp_range x :
  (0 <=? ValueCalculator._clamp x)%float = true
  /\ (ValueCalculator._clamp x <=? 100)%float = true.
Proof.
  unfold ValueCalculator._clamp, ValueCalculator.py_max2, ValueCalculator.py_min2.
  destruct (x <? 100)%float eqn:Hhi.
  - destruct (0 <? x)%float eqn:Hlo.
    + split; apply ltb_leb; assumption.
    + split; reflexivity.
  - split; reflexivity.
Qed.

(** *** [round] *)

Lemma round_half_even_cases num den :
  round_half_even num den = num / den \/ round_half_even num den = num / den + 1.
Proof.
  unfold round_half_even. destruct (_ ?= _); auto. destruct (Z.even _); auto.
Qed.

Lemma round_half_even_nonneg num den :
  0 <= num -> 0 < den -> 0 <= round_half_even num den.
Proof.
  intros Hn Hd. pose proof (Z.div_pos num den Hn Hd).
  destruct (round_half_even_cases num den); lia.
Qed.

Lemma round_half_even_le num den k :
  0 < den -> num <= k * den -> round_half_even num den <= k.
Proof.
  intros Hd Hk.
  assert (Hq : num / den <= k).
  { apply Z.div_le_upper_bound; lia. }
  destruct (Z.eq_dec (num / den) k) as [Heq|Hne].
  - assert (Hnum : num = k * den).
    { pose proof (Z.mul_div_le num den Hd). rewrite Heq in *. lia. }
    unfold round_half_even.
    rewrite Hnum. rewrite Z.mod_mul by lia. rewrite Z.div_mul by lia.
    assert (Hc : (2 * 0 ?= den) = Lt) by (apply Z.compare_lt_iff; lia).
    rewrite Hc. lia.
  - destruct (round_half_even_cases num den); lia.
Qed.

(** Every float is the image of its specification. *)
Lemma valid_mantissa_lt (m : positive) e :
  bounded prec emax m e = true -> Zpos m < 2 ^ 53.
Proof.
  unfold bounded, canonical_mantissa. intros H. apply andb_prop in H as [H _].
  apply Z.eqb_eq in H. pose proof (fexp_eq (Zpos (digits2_pos m) + e)) as Hf.
  pose proof (digits2_pos_bounds m) as [_ Hhi].
  eapply Z.lt_le_trans; [exact Hhi|]. apply Z.pow_le_mono_r; lia.
Qed.

(** The one-decimal grid between 0 and 100: the only values [round(x, 1)]
    takes on a float between 0 and 100. *)
Definition decimal_grid (p : positive) (n : nat) : list float :=
  0%float :: (-0)%float
  :: List.map (fun k => SF2Prim (SFquot false (Pos.of_nat k) p)) (seq 1 n).

Lemma Prim2SF_100 : Prim2SF 100 = S754_finite false 7036874417766400 (-46).
Proof. reflexivity. Qed.

Lemma grid_zero p n : In 0%float (decimal_grid p n).
Proof. left. reflexivity. Qed.

Lemma grid_neg_zero p n : In (-0)%float (decimal_grid p n).
Proof. right. left. reflexivity. Qed.

Lemma grid_quot p n k :
  0 < Zpos k <= Z.of_nat n -> In (SF2Prim (SFquot false k p)) (decimal_grid p n).
Proof.
  intros Hk. right. right. apply List.in_map_iff. exists (Pos.to_nat k). split.
  - rewrite Pos2Nat.id. reflexivity.
  - apply List.in_seq. lia.
Qed.

Lemma SFleb_finite_pos m e m' e' :
  SFleb (S754_finite false m e) (S754_finite false m' e') = true ->
  e < e' \/ (e = e' /\ Zpos m <= Zpos m').
Proof.
  unfold SFleb, SFcompare. destruct (e ?= e') eqn:Hc.
  - apply Z.compare_eq in Hc. intros H. right. split; [exact Hc|].
    fold (Pos.compare m m') in H.
    destruct (Pos.compare m m') eqn:Hmc; try discriminate.
    + apply Pos.compare_eq in Hmc. lia.
    + rewrite Pos.compare_lt_iff in Hmc. lia.
  - intros _. left. apply Z.compare_lt_iff in Hc. exact Hc.
  - discriminate.
Qed.

Lemma py_round_1_grid x :
  (0 <=? x)%float = true -> (x <=? 100)%float = true ->
  In (py_round x 1) (decimal_grid 10 1000).
Proof.
  intros Hlo Hhi. unfold py_round.
  pose proof (Prim2SF_valid x) as Hv.
  pose proof (SF2Prim_Prim2SF x) as Hx.
  rewrite leb_spec, Prim2SF_zero in Hlo. rewrite leb_spec, Prim2SF_100 in Hhi.
  destruct (Prim2SF x) as [s|s| |s m e] eqn:E.
  - rewrite <- Hx. destruct s; [apply grid_neg_zero | apply grid_zero].
  - destruct s; discriminate.
  - discriminate.
  - destruct s; [discriminate|]. cbn [valid_binary] in Hv.
    pose proof (valid_mantissa_lt m e Hv) as Hm.
    apply SFleb_finite_pos in Hhi as He.
    assert (Hneg : (0 <=? e) = false) by (apply Z.leb_gt; lia).
    rewrite Hneg. change (10 ^ 1) with 10. change (Z.to_pos 10) with 10%positive.
    pose proof (pow2_pos (- e) ltac:(lia)) as Hden.
    pose proof (round_half_even_nonneg (Zpos m * 10) (2 ^ (- e)) ltac:(lia) Hden) as Hn0.
    assert (Hn : round_half_even (Zpos m * 10) (2 ^ (- e)) <= 1000).
    { apply round_half_even_le; [exact Hden|].
      destruct He as [He | [-> Hm']].
      - apply Z.le_trans with (1000 * 2 ^ 47).
        + change (2 ^ 53) with 9007199254740992 in Hm.
          change (2 ^ 47) with 140737488355328. lia.
        + apply Z.mul_le_mono_nonneg_l; [lia|]. apply Z.pow_le_mono_r; lia.
      - change (2 ^ (- -46)) with 70368744177664. lia. }
    destruct (round_half_even (Zpos m * 10) (2 ^ (- e))) as [|n|n].
    + apply grid_zero.
    + apply grid_quot. lia.
    + lia.
Qed.


(** Rounding keeps a float that is not below zero not below zero. *)
Lemma py_round_nonneg x ndigits :
  (0 <=? x)%float = true -> (0 <=? py_round x ndigits)%float = true.
Proof.
  intros Hlo. unfold py_round.
  pose proof Hlo as Hlo'. rewrite leb_spec, Prim2SF_zero in Hlo'.
  destruct (Prim2SF x) as [s|s| |s m e] eqn:E; try exact Hlo.
  destruct s; [discriminate|].
  destruct (if 0 <=? e then _ else _) as [|n|n]; try reflexivity.
  destruct (SFquot_spec false n (Z.to_pos (10 ^ ndigits))) as (Hv & Hs & _).
  rewrite leb_spec, Prim2SF_zero, Prim2SF_SF2Prim by exact Hv.
  destruct Hs as [-> | [-> | (m' & e' & ->)]]; reflexivity.
Qed.

(** On the grid, rounding to one decimal changes nothing and the value lies
    between 0 and 100; the weighted sum of two grid values lies there too. *)
Definition on_grid (g : float) : bool :=
  (0 <=? g)%float && (g <=? 100)%float && PrimFloat.Leibniz.eqb (py_round g 1) g.

Definition weighted_in_range (s p : float) : bool :=
  let v := (s * 0.4 + p * 0.6)%float in (0 <=? v)%float && (v <=? 100)%float.

Lemma grid_checked : forallb on_grid (decimal_grid 10 1000) = true.
Proof. vm_compute. reflexivity. Qed.

Definition all_pairs (ok : float -> float -> bool) (g : list float) : bool :=
  forallb (fun s => forallb (ok s) g) g.

Lemma all_pairs_spec ok g s p :
  all_pairs ok g = true -> In s g -> In p g -> ok s p = true.
Proof.
  unfold all_pairs. intros H Hs Hp.
  rewrite List.forallb_forall in H. specialize (H s Hs).
  rewrite List.forallb_forall in H. exact (H p Hp).
Qed.

Lemma grid_pairs_checked : all_pairs weighted_in_range (decimal_grid 10 1000) = true.
Proof. vm_compute. reflexivity. Qed.

Lemma grid_range g :
  In g (decimal_grid 10 1000) ->
  (0 <=? g)%float = true /\ (g <=? 100)%float = true /\ py_round g 1 = g.
Proof.
  intros Hg.
  pose proof (proj1 (List.forallb_forall on_grid (decimal_grid 10 1000))
                grid_checked g Hg) as H.
  unfold on_grid in H.
  apply andb_prop in H as [H H3]. apply andb_prop in H as [H1 H2].
  apply FloatAxioms.Leibniz.eqb_spec in H3. split; [exact H1|]. split; [exact H2 | exact H3].
Qed.

Lemma grid_weighted s p :
  In s (decimal_grid 10 1000) -> In p (decimal_grid 10 1000) ->
  In (py_round (s * 0.4 + p * 0.6)%float 1) (decimal_grid 10 1000).
Proof.
  intros Hs Hp.
  pose proof (all_pairs_spec _ _ s p grid_pairs_checked Hs Hp) as H.
  unfold weighted_in_range in H. apply andb_prop in H as [H1 H2].
  apply py_round_1_grid; assumption.
Qed.

End FloatFacts.

(** ** The value scorer *)

Module ValueCalculatorProps.
Import Py ValueCalculator FloatFacts.

#[local] Abbreviation grid := (decimal_grid 10 1000).

(** A score between 0 and 100. *)
Definition in_0_100 (v : float) : Prop :=
  (0 <=? v)%float = true /\ (v <=? 100)%float = true.

(** An [int] protein value small enough to divide into a float. *)
Definition protein_in_range (p : option pynum) : Prop :=
  match p with
  | Some (PInt z) => z < 2 ^ 1023
  | _ => True
  end.

Lemma float_of_int_30 : float_of_int 30 = Ok 30%float.
Proof. reflexivity. Qed.

Lemma float_div_int_pos x c :
  0 < c < 2 ^ 1023 ->
  exists y m e,
    float_of_int c = Ok y /\ Prim2SF y = S754_finite false m e
    /\ float_div_int x c = Ok (x / y)%float.
Proof.
  intros Hc. destruct (float_of_int_pos c Hc) as (y & m & e & Hy & Hsf).
  exists y, m, e. split; [exact Hy|]. split; [exact Hsf|].
  unfold float_div_int, float_truediv. rewrite Hy. simpl.
  rewrite (finite_pos_nonzero y m e Hsf). reflexivity.
Qed.

(** The protein after the guard, over the typical protein: never negative. *)
Lemma guarded_protein_quotient p :
  protein_in_range p ->
  exists pq,
    num_div_int (match p with
                 | None => PFloat 0
                 | Some p => if num_lt0 p then PFloat 0 else p
                 end) TYPICAL_MEAL_PROTEIN = Ok pq
    /\ nonneg_or_nan pq.
Proof.
  intros Hr.
  assert (Hzero : exists pq, num_div_int (PFloat 0) TYPICAL_MEAL_PROTEIN = Ok pq
                             /\ nonneg_or_nan pq).
  { exists 0%float. split; [reflexivity | exact I]. }
  destruct p as [[z|f]|]; [| |exact Hzero].
  - simpl num_lt0. destruct (z <? 0) eqn:Hz; [exact Hzero|].
    apply Z.ltb_ge in Hz. simpl in Hr.
    destruct (Z.eq_dec z 0) as [->|Hne].
    + exists 0%float. split; [reflexivity | exact I].
    + apply int_truediv_pos; [lia | reflexivity].
  - simpl num_lt0. destruct (f <? 0)%float eqn:Hf; [exact Hzero|].
    exists (f / 30)%float. split.
    + unfold num_div_int, float_div_int, TYPICAL_MEAL_PROTEIN.
      rewrite float_of_int_30. reflexivity.
    + eapply nonneg_div; [reflexivity | apply not_ltb_zero, Hf].
Qed.

Section WithLibm.
Variable float_pow : float -> float -> result float.
(** What the code needs of [pow]: at the base of the saturation curve and an
    exponent that is not positive it returns (a value at most 1 in libm). *)
Hypothesis float_pow_nonpos :
  forall y, (0 <? y)%float = false -> exists r, float_pow EULER y = Ok r.

Lemma satiety_on_grid c p :
  0 < c < 2 ^ 1023 -> protein_in_range p ->
  exists v, calculate_satiety_score float_pow (Some c) p = Ok v /\ In v grid.
Proof.
  intros Hc Hp. unfold calculate_satiety_score.
  replace (c <=? 0) with false by (symmetry; apply Z.leb_gt; lia).
  destruct (int_truediv_pos c TYPICAL_MEAL_CALORIES Hc ltac:(reflexivity))
    as (cq & -> & Hcq).
  destruct (guarded_protein_quotient p Hp) as (pq & -> & Hpq).
  cbn [bind].
  assert (Hraw : nonneg_or_nan (cq * 0.7 + pq * 0.3)).
  { apply nonneg_add; eapply nonneg_mul; try eassumption; reflexivity. }
  destruct (float_pow_nonpos _ (nonneg_opp _ Hraw)) as (pw & ->).
  cbn [bind]. eexists. split; [reflexivity|].
  apply py_round_1_grid; apply clamp_range.
Qed.

Lemma price_efficiency_on_grid price c :
  0 < c < 2 ^ 1023 ->
  exists v, calculate_price_efficiency_score price (Some c) = Ok v /\ In v grid.
Proof.
  intros Hc. unfold calculate_price_efficiency_score.
  destruct price as [p|]; [|exists 0%float; split; [reflexivity | apply grid_zero]].
  destruct (p <=? 0)%float; [exists 0%float; split; [reflexivity | apply grid_zero]|].
  replace (c <=? 0) with false by (symmetry; apply Z.leb_gt; lia).
  destruct (float_div_int_pos p c Hc) as (y & m & e & _ & _ & ->). cbn [bind].
  destruct (p / y <=? 0)%float eqn:Hd;
    [exists 0%float; split; [reflexivity | apply grid_zero]|].
  unfold float_truediv. rewrite (not_leb_zero_nonzero _ Hd). cbn [bind].
  eexists. split; [reflexivity|].
  apply py_round_1_grid; apply clamp_range.
Qed.

Lemma price_per_calorie_pos price c :
  0 < c < 2 ^ 1023 ->
  exists y m e,
    float_of_int c = Ok y /\ Prim2SF y = S754_finite false m e
    /\ price_per_calorie_of (Some price) (Some c) = Ok (py_round (price / y) 4).
Proof.
  intros Hc. destruct (float_div_int_pos price c Hc) as (y & m & e & Hy & Hsf & Hd).
  exists y, m, e. split; [exact Hy|]. split; [exact Hsf|].
  unfold price_per_calorie_of.
  replace (c =? 0) with false by (symmetry; apply Z.eqb_neq; lia).
  replace (0 <? c) with true by (symmetry; apply Z.ltb_lt; lia).
  simpl. rewrite Hd. reflexivity.
Qed.

(** The scorer returns on every calorie count below [2 ^ 1023], with every
    score on the one-decimal grid between 0 and 100. *)
Lemma final_value_score_total c protein price :
  0 < c < 2 ^ 1023 -> protein_in_range protein ->
  exists r y sat pe,
    calculate_final_value_score float_pow (Some c) protein (Some price) = Ok r
    /\ float_of_int c = Ok y
    /\ calculate_satiety_score float_pow (Some c) protein = Ok sat
    /\ calculate_price_efficiency_score (Some price) (Some c) = Ok pe
    /\ In sat grid /\ In pe grid
    /\ r = {| value_score := py_round (sat * 0.4 + pe * 0.6) 1;
              satiety_score := sat;
              price_per_calorie := py_round (price / y) 4;
              price_efficiency_score := pe |}.
Proof.
  intros Hc Hp. unfold calculate_final_value_score.
  destruct (satiety_on_grid c protein Hc Hp) as (sat & Hsat & Hsg).
  destruct (price_efficiency_on_grid (Some price) c Hc) as (pe & Hpe & Hpg).
  destruct (price_per_calorie_pos price c Hc) as (y & m & e & Hy & _ & Hppc).
  rewrite Hsat, Hpe. cbn [bind]. rewrite Hppc. cbn [bind].
  destruct (grid_range sat Hsg) as (_ & _ & Hrs).
  destruct (grid_range pe Hpg) as (_ & _ & Hrp).
  rewrite Hrs, Hrp.
  eexists _, y, sat, pe. repeat split; try eassumption; reflexivity.
Qed.

(** C1.  For every calorie count between 1 and [2 ^ 1023 - 1], every float
    [protein_grams >= 0] and every float [price > 0], the scorer returns, its
    satiety, price-efficiency and value scores lie between 0 and 100, and the
    value score is [round(satiety_score * 0.4 + price_efficiency_score * 0.6, 1)]
    exactly. *)
Theorem final_value_score_bounded c protein price :
  0 < c < 2 ^ 1023 ->
  (0 <=? protein)%float = true ->
  (0 <? price)%float = true ->
  exists r,
    calculate_final_value_score float_pow (Some c) (Some (PFloat protein)) (Some price)
      = Ok r
    /\ in_0_100 (satiety_score r)
    /\ in_0_100 (price_efficiency_score r)
    /\ in_0_100 (value_score r)
    /\ value_score r
       = py_round (satiety_score r * 0.4 + price_efficiency_score r * 0.6)%float 1.
Proof.
  intros Hc _ _.
  destruct (final_value_score_total c (Some (PFloat protein)) price Hc I)
    as (r & y & sat & pe & Hr & _ & _ & _ & Hsg & Hpg & ->).
  eexists. split; [exact Hr|]. simpl.
  destruct (grid_range sat Hsg) as (? & ? & _).
  destruct (grid_range pe Hpg) as (? & ? & _).
  destruct (grid_range _ (grid_weighted sat pe Hsg Hpg)) as (? & ? & _).
  unfold in_0_100. auto.
Qed.

(** C8.  Degenerate inputs give a zero component without raising: absent or
    non-positive calories make the satiety score 0.0 whatever the protein;
    a negative protein counts as 0.0, so that its component
    [(0.0 / 30) * 0.3] is 0.0 and the score is the one of protein 0.0, which
    is returned for every calorie count between 1 and [2 ^ 1023 - 1]; an absent
    or non-positive price, or absent or non-positive calories, make the
    price-efficiency score 0.0. *)
Theorem degenerate_inputs_score_zero :
  (forall protein, calculate_satiety_score float_pow None protein = Ok 0%float)
  /\ (forall c protein,
        c <= 0 -> calculate_satiety_score float_pow (Some c) protein = Ok 0%float)
  /\ (forall c p,
        num_lt0 p = true ->
        calculate_satiety_score float_pow (Some c) (Some p)
        = calculate_satiety_score float_pow (Some c) (Some (PFloat 0))
        /\ bind (num_div_int (PFloat 0) TYPICAL_MEAL_PROTEIN)
             (fun pq => Ok (pq * 0.3)%float) = Ok 0%float
        /\ (0 < c < 2 ^ 1023 ->
            exists v, calculate_satiety_score float_pow (Some c) (Some p) = Ok v))
  /\ (forall calories, calculate_price_efficiency_score None calories = Ok 0%float)
  /\ (forall price calories,
        (price <=? 0)%float = true ->
        calculate_price_efficiency_score (Some price) calories = Ok 0%float)
  /\ (forall price, calculate_price_efficiency_score price None = Ok 0%float)
  /\ (forall price c,
        c <= 0 -> calculate_price_efficiency_score price (Some c) = Ok 0%float).
Proof.
  repeat split.
  - intros c protein Hc. unfold calculate_satiety_score.
    replace (c <=? 0) with true by (symmetry; apply Z.leb_le; lia). reflexivity.
  - unfold calculate_satiety_score. rewrite H. reflexivity.
  - intros Hc. destruct (satiety_on_grid c (Some p) Hc) as (v & Hv & _).
    + destruct p as [z|f]; simpl in *; [apply Z.ltb_lt in H; lia | exact I].
    + exists v. exact Hv.
  - intros price calories Hp. unfold calculate_price_efficiency_score.
    rewrite Hp. reflexivity.
  - intros [p|]; [|reflexivity]. unfold calculate_price_efficiency_score.
    destruct (p <=? 0)%float; reflexivity.
  - intros [p|] c Hc; [|reflexivity]. unfold calculate_price_efficiency_score.
    destruct (p <=? 0)%float; [reflexivity|].
    replace (c <=? 0) with true by (symmetry; apply Z.leb_le; lia). reflexivity.
Qed.

(** C9.  With absent or non-positive calories the scorer returns with
    [price_per_calorie = 0.0]; with a calorie count between 1 and
    [2 ^ 1023 - 1] it returns with
    [price_per_calorie = round(price / calories, 4)], which is not below
    zero when the price is not below zero. *)
Theorem price_per_calorie_value protein price :
  protein_in_range protein ->
  (exists r,
     calculate_final_value_score float_pow None protein price = Ok r
     /\ price_per_calorie r = 0%float)
  /\ (forall c, c <= 0 ->
        exists r,
          calculate_final_value_score float_pow (Some c) protein price = Ok r
          /\ price_per_calorie r = 0%float)
  /\ (forall c p, 0 < c < 2 ^ 1023 -> price = Some p ->
        exists r y,
          calculate_final_value_score float_pow (Some c) protein price = Ok r
          /\ float_of_int c = Ok y
          /\ price_per_calorie r = py_round (p / y) 4
          /\ ((0 <=? p)%float = true -> (0 <=? price_per_calorie r)%float = true)).
Proof.
  intros Hp. repeat split.
  - eexists. unfold calculate_final_value_score. simpl calculate_satiety_score.
    destruct price as [p|]; simpl; [destruct (p <=? 0)%float|]; simpl;
      (split; reflexivity).
  - intros c Hc. eexists. unfold calculate_final_value_score.
    unfold calculate_satiety_score, calculate_price_efficiency_score, price_per_calorie_of.
    replace (c <=? 0) with true by (symmetry; apply Z.leb_le; lia).
    replace (0 <? c) with false by (symmetry; apply Z.ltb_ge; lia).
    rewrite andb_false_r.
    destruct price as [p|]; simpl; [destruct (p <=? 0)%float|]; simpl;
      (split; reflexivity).
  - intros c p Hc ->.
    destruct (final_value_score_total c protein p Hc Hp)
      as (r & y & sat & pe & Hr & Hy & _ & _ & _ & _ & ->).
    eexists. exists y. split; [exact Hr|]. split; [exact Hy|]. split; [reflexivity|].
    simpl. intros Hpos. apply py_round_nonneg.
    destruct (float_of_int_pos c Hc) as (y' & m & e & Hy' & Hsf).
    rewrite Hy in Hy'. inversion Hy'; subst y'.
    eapply div_nonneg; eassumption.
Qed.

End WithLibm.

End ValueCalculatorProps.

(** ** The score orchestrator *)

Module GeminiServiceProps.
Import Py ValueCalculator GeminiService FloatFacts ValueCalculatorProps.

Section WithEstimator.
Variable float_pow : float -> float -> result float.
Hypothesis float_pow_nonpos :
  forall y, (0 <? y)%float = false -> exists r, float_pow EULER y = Ok r.
Variable generate_content : pystr -> result pystr.
Variable build_prompt : pystr -> pystr -> pystr -> pystr -> pystr.
Variable strip_code_fences : pystr -> pystr.
Variable json_loads : pystr -> option json.
Variable int_of_str : pystr -> option Z.
Variable float_of_str : pystr -> option float.

#[local] Abbreviation score_deal_here :=
  (score_deal float_pow generate_content build_prompt strip_code_fences json_loads
     int_of_str float_of_str).
#[local] Abbreviation parse_reply_here :=
  (parse_reply strip_code_fences json_loads int_of_str float_of_str).

(** The defaults always score. *)
Lemma score_defaults_ok price :
  exists s,
    calculate_final_value_score float_pow (Some 600) (Some (PInt 20)) (Some price) = Ok s
    /\ score_defaults float_pow price = Ok (pack s 600 (PInt 20)).
Proof.
  destruct (final_value_score_total float_pow float_pow_nonpos 600 (Some (PInt 20)) price)
    as (s & _ & _ & _ & Hs & _); [split; reflexivity | reflexivity |].
  exists s. split; [exact Hs|]. unfold score_defaults. rewrite Hs. reflexivity.
Qed.



Variable generate_content' : pystr -> result pystr.
Variable build_prompt' : pystr -> pystr -> pystr -> pystr -> pystr.
Variable strip_code_fences' : pystr -> pystr.
Variable json_loads' : pystr -> option json.
Variable int_of_str' : pystr -> option Z.
Variable float_of_str' : pystr -> option float.

(** C7.  With a positive calorie count provided, [score_deal] computes its
    result from the provided calories and protein (0 when absent) alone, with
    no call to the rate limiter or the estimator: two estimators, whatever
    they would answer, give the same result. *)
Theorem score_deal_provided_ignores_estimator
  item_name restaurant_name price c protein_grams description portion_size deal_type :
  0 < c ->
  let protein := match protein_grams with Some p => p | None => PInt 0 end in
  score_deal_here item_name restaurant_name price (Some c) protein_grams
    description portion_size deal_type
  = (bind (calculate_final_value_score float_pow (Some c) (Some protein) (Some price))
       (fun s => Ok (pack s c protein)),
     [])
  /\ score_deal_here item_name restaurant_name price (Some c) protein_grams
       description portion_size deal_type
     = score_deal float_pow generate_content' build_prompt' strip_code_fences'
         json_loads' int_of_str' float_of_str'
         item_name restaurant_name price (Some c) protein_grams
         description portion_size deal_type.
Proof.
  intros Hc protein. unfold score_deal, provided.
  replace (c =? 0) with false by (symmetry; apply Z.eqb_neq; lia).
  replace (0 <? c) with true by (symmetry; apply Z.ltb_lt; lia).
  split; reflexivity.
Qed.

End WithEstimator.

End GeminiServiceProps.

(** ** Price normalization of the state extractor *)

Module PriceProps.
Import Py UberEatsScraper.

(** C2.  [_parse_price] divides a number by 100 (then rounds to 2 decimals)
    exactly when it is greater than 20, and only rounds it otherwise: 1299
    gives 12.99, 12.99 stays 12.99, and the boundary 20 stays 20.0.  A string
    is read through the leftmost decimal number it holds and rounded, never
    divided: ["1299"] gives 1299.0. *)
Theorem parse_price_normalization (U : unicode_db) :
  (forall f,
     _parse_price U (JFloat f)
     = Ok (Some (if (20 <? f)%float then py_round (f / 100) 2 else py_round f 2)))
  /\ (forall z y,
        float_of_int z = Ok y ->
        _parse_price U (JInt z)
        = Ok (Some (if (20 <? y)%float then py_round (y / 100) 2 else py_round y 2)))
  /\ _parse_price U (JInt 1299) = Ok (Some 12.99%float)
  /\ _parse_price U (JFloat 12.99) = Ok (Some 12.99%float)
  /\ _parse_price U (JInt 20) = Ok (Some 20%float)
  /\ _parse_price U (JFloat 20) = Ok (Some 20%float)
  /\ _parse_price U (JInt 21) = Ok (Some 0.21%float)
  /\ (forall s,
        _parse_price U (JStr s)
        = Ok (match search_decimal U (replace_char 44%N [] s) with
              | Some (n, k) => Some (py_round (float_of_decimal n k) 2)
              | None => None
              end))
  /\ _parse_price ascii_db (JStr (lit "1299")) = Ok (Some 1299%float)
  /\ _parse_price ascii_db (JStr (lit "$12.99")) = Ok (Some 12.99%float).
Proof.
  repeat split.
  - intros z y Hy. unfold _parse_price. rewrite Hy. reflexivity.
  - intros s. unfold _parse_price. destruct (search_decimal _ _) as [[n k]|]; reflexivity.
Qed.

End PriceProps.

(** ** Concrete runs *)

Module Runs.
Import Py ValueCalculator GeminiService FloatFacts ValueCalculatorProps
  GeminiServiceProps.

(** The stand-in for [pow] always returns. *)
Lemma pow_model_nonpos :
  forall y, (0 <? y)%float = false -> exists r, pow_model EULER y = Ok r.
Proof. intros y _. eexists. reflexivity. Qed.

(** The spec's reference meal: 800 kcal, 30 g protein, 9.00. *)
Example reference_meal :
  calculate_final_value_score pow_model (Some 800) (Some (PFloat 30)) (Some 9%float)
  = Ok {| value_score := 55.3; satiety_score := 63.2;
          price_per_calorie := 0.0112; price_efficiency_score := 50 |}.
Proof. vm_compute. reflexivity. Qed.

Lemma final_value_score_bounded_witness :
  exists r,
    calculate_final_value_score pow_model (Some 800) (Some (PFloat 30)) (Some 9%float)
      = Ok r
    /\ in_0_100 (satiety_score r)
    /\ in_0_100 (price_efficiency_score r)
    /\ in_0_100 (value_score r)
    /\ value_score r
       = py_round (satiety_score r * 0.4 + price_efficiency_score r * 0.6)%float 1.
Proof.
  apply (final_value_score_bounded pow_model pow_model_nonpos 800 30 9);
    [split; reflexivity | reflexivity | reflexivity].
Defined.

(** An [int] too large for a float: the first division of the satiety score
    raises. *)
Lemma final_value_score_overflow :
  calculate_final_value_score pow_model (Some (10 ^ 400)) (Some (PFloat 30))
    (Some 9%float)
  = Raise OverflowError.
Proof. vm_compute. reflexivity. Qed.

Lemma degenerate_inputs_score_zero_witness :
  calculate_satiety_score pow_model None (Some (PFloat 30)) = Ok 0%float
  /\ calculate_satiety_score pow_model (Some 0) (Some (PFloat 30)) = Ok 0%float
  /\ calculate_satiety_score pow_model (Some 500) (Some (PFloat (-5)))
     = calculate_satiety_score pow_model (Some 500) (Some (PFloat 0))
  /\ (exists v, calculate_satiety_score pow_model (Some 500) (Some (PFloat (-5))) = Ok v)
  /\ calculate_price_efficiency_score None (Some 500) = Ok 0%float
  /\ calculate_price_efficiency_score (Some (-1)%float) (Some 500) = Ok 0%float
  /\ calculate_price_efficiency_score (Some 9%float) None = Ok 0%float
  /\ calculate_price_efficiency_score (Some 9%float) (Some 0) = Ok 0%float.
Proof.
  destruct (degenerate_inputs_score_zero pow_model pow_model_nonpos)
    as (H1 & H2 & H3 & H4 & H5 & H6 & H7).
  destruct (H3 500 (PFloat (-5)) eq_refl) as (H3a & _ & H3c).
  split; [apply H1|].
  split; [apply H2; discriminate|].
  split; [exact H3a|].
  split; [apply H3c; split; reflexivity|].
  split; [apply H4|].
  split; [apply H5; reflexivity|].
  split; [apply H6|].
  apply H7. discriminate.
Defined.

Lemma price_per_calorie_value_witness :
  exists r y,
    calculate_final_value_score pow_model (Some 800) (Some (PFloat 30)) (Some 9%float)
      = Ok r
    /\ float_of_int 800 = Ok y
    /\ price_per_calorie r = py_round (9 / y) 4
    /\ (0 <=? price_per_calorie r)%float = true.
Proof.
  destruct (price_per_calorie_value pow_model pow_model_nonpos
              (Some (PFloat 30)) (Some 9%float) I) as (_ & _ & H).
  destruct (H 800 9%float (conj eq_refl eq_refl) eq_refl) as (r & y & Hr & Hy & Hp & Hpos).
  exists r, y. repeat split; try assumption. apply Hpos. reflexivity.
Defined.

(** A negative price with positive calories gives a negative
    [price_per_calorie]. *)
Lemma price_per_calorie_negative :
  exists r,
    calculate_final_value_score pow_model (Some 100) (Some (PFloat 30))
      (Some (-5)%float) = Ok r
    /\ price_per_calorie r = (-0.05)%float
    /\ (0 <=? price_per_calorie r)%float = false.
Proof. eexists. split; [vm_compute; reflexivity | split; reflexivity]. Qed.

(** *** The orchestrator against two estimators *)

Definition prompt_of (item restaurant description portion : pystr) : pystr :=
  item ++ lit " / " ++ restaurant ++ lit " / " ++ description ++ lit " / " ++ portion.
(** One estimator is unreachable; the other answers 1200 kcal and 45 g. *)
Definition estimator_down (prompt : pystr) : result pystr := Raise HTTPError.
Definition quoted (s : string) : pystr := [34%N] ++ lit s ++ [34%N].
Definition estimator_up (prompt : pystr) : result pystr :=
  Ok (lit "{" ++ quoted "calories" ++ lit ": 1200, " ++ quoted "protein" ++ lit ": 45}").
Definition loads_reply (text : pystr) : option json :=
  Some (JDict [(lit "calories", JInt 1200); (lit "protein", JInt 45)]).
Definition no_fence (text : pystr) : pystr := text.
Definition no_int (text : pystr) : option Z := None.
Definition no_float (text : pystr) : option float := None.


Lemma score_deal_provided_ignores_estimator_witness :
  score_deal pow_model estimator_down prompt_of no_fence loads_reply no_int no_float
    (lit "Big Mac") (lit "McDonald's") 9 (Some 550) None [] [] []
  = (bind (calculate_final_value_score pow_model (Some 550) (Some (PInt 0)) (Some 9%float))
       (fun s => Ok (pack s 550 (PInt 0))),
     [])
  /\ score_deal pow_model estimator_down prompt_of no_fence loads_reply no_int no_float
       (lit "Big Mac") (lit "McDonald's") 9 (Some 550) None [] [] []
     = score_deal pow_model estimator_up prompt_of no_fence loads_reply no_int no_float
         (lit "Big Mac") (lit "McDonald's") 9 (Some 550) None [] [] [].
Proof.
  apply (score_deal_provided_ignores_estimator pow_model estimator_down prompt_of
           no_fence loads_reply no_int no_float estimator_up prompt_of no_fence
           loads_reply no_int no_float
           (lit "Big Mac") (lit "McDonald's") 9 550 None [] [] []).
  reflexivity.
Defined.

(** Without provided calories the two estimators do make a difference. *)
Example score_deal_estimated :
  ds_calories <$> match (score_deal pow_model estimator_up prompt_of no_fence loads_reply
                           no_int no_float (lit "Big Mac") (lit "McDonald's") 9
                           None None [] [] []).1 with
                  | Ok d => Some d
                  | Raise _ => None
                  end
  = Some 1200.
Proof. vm_compute. reflexivity. Qed.

(** The boundary of the cents rule: 20 is kept, not divided. *)
Lemma parse_price_boundary_kept :
  UberEatsScraper._parse_price ascii_db (JInt 20) = Ok (Some 20%float)
  /\ (20 =? 0.2)%float = false.
Proof. split; reflexivity. Qed.

(** *** A page with structured data and conflicting markup *)

Import MenuScraper MenuScraperProps.

Definition page_ldjson : json :=
  JDict [(lit "@type", JStr (lit "Menu"));
         (lit "hasMenuItem",
          JList [JDict [(lit "@type", JStr (lit "MenuItem"));
                        (lit "name", JStr (lit "Big Mac"));
                        (lit "offers", JDict [(lit "price", JStr (lit "5.99"))]);
                        (lit "nutrition", JDict [(lit "calories", JStr (lit "550 cal"))])]])].
Definition page_loads (text : pystr) : option json := Some page_ldjson.
Definition page_get (url : pystr) : result pystr := Ok (lit "<html>").
Definition page_ldjson_texts (html : pystr) : list pystr := [lit "{...}"].
Definition page_select (html : pystr) (i : nat) : list element :=
  match i with
  | 2%nat =>
      [ {| el_data_name := Some (lit "Quarter Pounder Deluxe");
           el_aria_label := None;
           el_headline := None;
           el_text := lit "Quarter Pounder Deluxe $7.49" |} ]
  | _ => []
  end.
Definition page_text (html : pystr) : pystr := lit "Spicy Chicken Wrap $4.25".

Lemma scrape_restaurant_fallback_chain_witness :
  exists items,
    scrape_restaurant ascii_db page_loads page_get page_ldjson_texts page_select
      page_text (lit "mcdonalds") = Ok items
    /\ MenuScraper.name <$> items = [lit "Big Mac"]
    /\ MenuScraper.price <$> items = [Some 5.99%float]
    /\ MenuScraper.name
         <$> selector_stage ascii_db page_select (lit "McDonald's")
               (lit "https://www.mcdonalds.com/us/en-us/full-menu.html") (lit "<html>")
       = [lit "Quarter Pounder Deluxe"].
Proof.
  edestruct (scrape_restaurant_fallback_chain ascii_db page_loads page_get
               page_ldjson_texts page_select page_text (lit "mcdonalds"))
    as (items & Hitems & Hstructured & _).
  - reflexivity.
  - reflexivity.
  - vm_compute. reflexivity.
  - exists items. split; [exact Hitems|].
    rewrite (Hstructured ltac:(discriminate)).
    split; [reflexivity|]. split; [reflexivity|]. vm_compute. reflexivity.
Defined.

(** *** A menu payload with a repeated item *)

Import UberEatsScraper UberEatsScraperProps.

Definition menu_payload : json :=
  JDict [(lit "title", JStr (lit "Burgers"));
         (lit "type", JStr (lit "Category"));
         (lit "items",
          JList [JDict [(lit "title", JStr (lit "Big Mac")); (lit "price", JInt 599)];
                 JDict [(lit "title", JStr (lit "BIG  MAC")); (lit "price", JFloat 6.49)];
                 JDict [(lit "title", JStr (lit "Fries"));
                        (lit "priceInfo", JDict [(lit "price", JStr (lit "$2.49"))])];
                 JDict [(lit "title", JStr (lit "Mystery")); (lit "price", JStr (lit "ask"))]])].
Definition menu_loads (text : pystr) : result json := Ok menu_payload.
Definition menu_finditer (i : nat) (html : pystr) : list pystr :=
  match i with
  | O => [lit "{...}"]
  | _ => []
  end.
Definition menu_search (i : nat) (text : pystr) : option pystr := None.
Definition menu_scripts (html : pystr) : list pystr := [].
Definition menu_get (url : pystr) : result pystr := Ok (lit "<html>").
Definition menu_path (url : pystr) : pystr := lit "/store/mcdonalds-main-st/abc123".

(** *** A menu of two sections: a repeated item, an item without a
    readable price, and one item under both sections *)

Definition sectioned_payload : json :=
  JList
    [JDict [(lit "title", JStr (lit "Burgers"));
            (lit "type", JStr (lit "Category"));
            (lit "items",
             JList [JDict [(lit "title", JStr (lit "Big Mac")); (lit "price", JInt 599)];
                    JDict [(lit "title", JStr (lit "BIG  MAC")); (lit "price", JFloat 6.49)];
                    JDict [(lit "title", JStr (lit "Fries"));
                           (lit "priceInfo", JDict [(lit "price", JStr (lit "$2.49"))])];
                    JDict [(lit "title", JStr (lit "Mystery"));
                           (lit "price", JStr (lit "ask"))]])];
     JDict [(lit "title", JStr (lit "Deals"));
            (lit "type", JStr (lit "Category"));
            (lit "items",
             JList [JDict [(lit "title", JStr (lit "Big Mac"));
                           (lit "price", JFloat 4.99)]])]].
Definition sectioned_loads (text : pystr) : result json := Ok sectioned_payload.
Definition sectioned_item (name : pystr) (price : float) (category : pystr)
  : UberEatsMenuItem :=
  {| UberEatsScraper.restaurant := lit "McDonald's";
     UberEatsScraper.name := name;
     UberEatsScraper.price := price;
     UberEatsScraper.category := Some category;
     source_price_vendor := lit "ubereats";
     store_external_id := Some (lit "abc123");
     location := None |}.
Definition sectioned_items : list UberEatsMenuItem :=
  [sectioned_item (lit "Big Mac") 5.99 (lit "Burgers");
   sectioned_item (lit "Fries") 2.49 (lit "Burgers");
   sectioned_item (lit "Big Mac") 4.99 (lit "Deals")].

Lemma fetch_menu_priced_and_deduplicated_witness :
  fetch_menu ascii_db sectioned_loads menu_finditer menu_search menu_scripts menu_get
    menu_path (lit "https://www.ubereats.com/store/mcdonalds-main-st/abc123")
    (lit "McDonald's") None = Ok sectioned_items
  /\ (exists extracted,
        Forall2 (fun parsed cands => _extract_items ascii_db parsed = Ok cands)
          [sectioned_payload] extracted
        /\ c_name <$> concat extracted
           = [JStr (lit "Big Mac"); JStr (lit "BIG  MAC"); JStr (lit "Fries");
              JStr (lit "Mystery"); JStr (lit "Big Mac")]
        /\ sublist sectioned_items
             (omap (priced_item ascii_db (lit "McDonald's") (Some (lit "abc123")) None)
                (concat extracted)))
  /\ NoDup (name_category_pair ascii_db <$> sectioned_items).
Proof.
  destruct (fetch_menu_priced_and_deduplicated ascii_db sectioned_loads menu_finditer
              menu_search menu_scripts menu_get menu_path
              (lit "https://www.ubereats.com/store/mcdonalds-main-st/abc123")
              (lit "McDonald's") None sectioned_items)
    as (html & extracted & Hget & _ & Hall & _ & _ & Hsub & Hnodup & _).
  - vm_compute. reflexivity.
  - split; [vm_compute; reflexivity|]. split; [|exact Hnodup].
    injection Hget as <-.
    exists extracted. split; [exact Hall|]. split; [|exact Hsub].
    apply Forall2_cons_inv_l in Hall as (cands & rest & Hcands & Hrest & ->).
    apply Forall2_nil_inv_l in Hrest as ->.
    vm_compute in Hcands. injection Hcands as <-. reflexivity.
Defined.

(** *** A search page with fifteen stores, and a location on the equator *)

Import UberEatsStoreSearch StoreSearchProps.

Definition search_hrefs (html : pystr) : list (pystr * pystr) :=
  (fun k => (lit "/store/mcdonalds-main-st/id" ++ [k], lit "mcdonalds-main-st/id" ++ [k]))
    <$> (N.of_nat <$> seq 97 15).
Definition search_loads (text : pystr) : result json := Raise JSONDecodeError.
Definition search_depth (data : json) : bool := false.
Definition search_str (v : json) : pystr := [].
Definition search_float (text : pystr) : option float :=
  if bool_decide (text = lit "0.0") then Some 0%float else Some (-78.5)%float.
Definition search_unescape (text : pystr) : pystr := text.
Definition search_geocoder (query : pystr) : result json :=
  Ok (JList [JDict [(lit "lat", JStr (lit "0.0")); (lit "lon", JStr (lit "-78.5"))]]).
Definition search_page (restaurant pl : pystr) : result pystr := Ok (lit "<html>").
Definition search_pl (location : pystr) (lat lon : float) : result pystr := Ok (lit "pl").
Definition search_encode (path pl : pystr) : result pystr :=
  Ok (base_url ++ path ++ lit "?diningMode=DELIVERY&pl=" ++ pl).
Definition search_finditer (i : nat) (html : pystr) : list pystr := [].
Definition search_near (lat lon : float) : pystr := lit "Near".

(** The same anchors with two of the ids met again on the way: seventeen
    anchors under fifteen ids. *)
Definition repeated_hrefs (html : pystr) : list (pystr * pystr) :=
  (fun k => (lit "/store/mcdonalds-main-st/id" ++ [k], lit "mcdonalds-main-st/id" ++ [k]))
    <$> (N.of_nat <$> [97; 98; 97; 99; 98] ++ seq 100 12)%nat.

Lemma parse_search_results_dedup_cap_witness :
  (exists stores,
     found_stores ascii_db search_loads search_depth search_str search_unescape search_pl
       search_encode repeated_hrefs search_finditer
       (lit "<html>") (lit "McDonalds") (lit "20740") 38.98 (-76.93) = Ok stores
     /\ length stores = 17%nat)
  /\ length (_parse_search_results ascii_db search_loads search_depth search_str
    search_unescape
               search_pl search_encode repeated_hrefs search_finditer
               (lit "<html>") (lit "McDonalds") (lit "20740") 38.98 (-76.93)) = 10%nat
  /\ store_id <$> _parse_search_results ascii_db search_loads search_depth search_str
    search_unescape
                    search_pl search_encode repeated_hrefs search_finditer
                    (lit "<html>") (lit "McDonalds") (lit "20740") 38.98 (-76.93)
     = (fun k => lit "id" ++ [k]) <$> (N.of_nat <$> seq 97 10).
Proof.
  pose proof (parse_search_results_dedup_cap ascii_db search_loads search_depth search_str
                search_unescape search_pl search_encode repeated_hrefs search_finditer
                (lit "<html>") (lit "McDonalds") (lit "20740") 38.98 (-76.93)) as H.
  cbv zeta in H. destruct H as (_ & _ & _ & H & _).
  set (stores := match found_stores ascii_db search_loads search_depth search_str
    search_unescape
                         search_pl search_encode repeated_hrefs search_finditer
                         (lit "<html>") (lit "McDonalds") (lit "20740") 38.98 (-76.93)
                 with Ok stores => stores | Raise _ => [] end).
  assert (Hfound : found_stores ascii_db search_loads search_depth search_str
    search_unescape
                     search_pl search_encode repeated_hrefs search_finditer
                     (lit "<html>") (lit "McDonalds") (lit "20740") 38.98 (-76.93)
                   = Ok stores) by (vm_compute; reflexivity).
  destruct (H stores Hfound) as (_ & _ & _ & Hten & _).
  split; [|split].
  - exists stores. split; [exact Hfound | vm_compute; reflexivity].
  - apply Hten. vm_compute. lia.
  - vm_compute. reflexivity.
Defined.

(** *** A search page whose embedded state is followed by a match that
    [json.loads] refuses *)

Definition state_listing : json :=
  JDict [(lit "stores",
          JList ((fun k => JDict [(lit "title", JStr (lit "McDonalds"));
                                  (lit "uuid", JStr (lit "id" ++ [k]))])
                   <$> (N.of_nat <$> seq 97 15)))].
Definition state_str (v : json) : pystr :=
  match v with
  | JStr text => text
  | _ => []
  end.
(** [json.loads] on the two matches of the page: the first is the listing,
    the second holds an integer literal longer than the digit limit, on
    which [json.loads] raises [ValueError]. *)
Definition refusing_loads (text : pystr) : result json :=
  if bool_decide (text = lit "{listing}") then Ok state_listing
  else if bool_decide (text = lit "{digits}") then Raise ValueError
  else Raise JSONDecodeError.
Definition no_anchor_hrefs (html : pystr) : list (pystr * pystr) := [].
Definition listing_finditer (i : nat) (html : pystr) : list pystr :=
  match i with
  | O => [lit "{listing}"; lit "{digits}"]
  | _ => []
  end.
Definition listing_alone_finditer (i : nat) (html : pystr) : list pystr :=
  match i with
  | O => [lit "{listing}"]
  | _ => []
  end.

(** The state holds fifteen stores under fifteen ids, and alone it gives the
    first ten of them; followed by a match on which [json.loads] raises
    [ValueError], nothing is returned. *)
Lemma parse_search_results_discards_matches :
  store_id <$> _extract_stores_from_data ascii_db state_str search_pl search_encode
                 state_listing (lit "McDonalds") (lit "20740") 38.98 (-76.93)
  = (fun k => lit "id" ++ [k]) <$> (N.of_nat <$> seq 97 15)
  /\ store_id <$> _parse_search_results ascii_db refusing_loads search_depth state_str
    search_unescape
                    search_pl search_encode no_anchor_hrefs listing_alone_finditer
                    (lit "<html>") (lit "McDonalds") (lit "20740") 38.98 (-76.93)
     = (fun k => lit "id" ++ [k]) <$> (N.of_nat <$> seq 97 10)
  /\ _parse_search_results ascii_db refusing_loads search_depth state_str search_unescape
       search_pl search_encode no_anchor_hrefs listing_finditer
       (lit "<html>") (lit "McDonalds") (lit "20740") 38.98 (-76.93) = [].
Proof. repeat split; vm_compute; reflexivity. Qed.

Lemma search_stores_zero_coordinate_witness :
  resolve_coordinates ascii_db search_float search_geocoder (lit "Quito") None None
  = (Some 0%float, Some (-78.5)%float)
  /\ search_stores ascii_db search_loads search_depth search_str search_float
    search_unescape
       search_geocoder search_page search_pl search_encode search_hrefs search_finditer
       search_near (lit "McDonalds") (lit "Quito") None None = [].
Proof.
  split; [vm_compute; reflexivity|].
  apply (search_stores_zero_coordinate ascii_db search_loads search_depth search_str
    search_float
           search_unescape search_geocoder search_page search_pl search_encode
           search_hrefs search_finditer search_near
           (lit "McDonalds") (lit "Quito") None None 0%float (-78.5)%float).
  - vm_compute. reflexivity.
  - left. reflexivity.
Defined.

(** The same search one degree north of the equator finds the stores. *)
Example search_stores_off_equator :
  length (search_stores ascii_db search_loads search_depth search_str search_float
    search_unescape
            search_geocoder search_page search_pl search_encode search_hrefs
            search_finditer search_near (lit "McDonalds") (lit "Quito")
            (Some 1%float) (Some (-78.5)%float)) = 10%nat.
Proof. vm_compute. reflexivity. Qed.

End Runs.

(** * Further properties of the services *)

(** ** The scorer *)

Module ScoreFacts.
Import Py ValueCalculator FloatFacts ValueCalculatorProps Runs.

(** The float nearest to [k / 10]. *)
Definition tenth (k : Z) : float :=
  match k with
  | Zpos p => SF2Prim (SFquot false p 10)
  | _ => 0%float
  end.

(** A score with one decimal: a zero, or the float nearest to [k / 10] for an
    integer [k] between 1 and 1000. *)
Definition one_decimal (v : float) : Prop :=
  v = (-0)%float \/ exists k, 0 <= k <= 1000 /\ v = tenth k.

Lemma grid_one_decimal v : In v (decimal_grid 10 1000) -> one_decimal v.
Proof.
  unfold decimal_grid. intros [<-|[<-|Hin]].
  - right. exists 0. split; [lia | reflexivity].
  - left. reflexivity.
  - right. apply in_map_iff in Hin as (k & <- & Hk). apply in_seq in Hk.
    exists (Zpos (Pos.of_nat k)). split; [lia | reflexivity].
Qed.

(** Two positive finite floats that compare equal are the same float. *)
Lemma SFcompare_eq_finite_pos m e m' e' :
  SFcompare (S754_finite false m e) (S754_finite false m' e') = Some Eq ->
  e = e' /\ m = m'.
Proof.
  unfold SFcompare. destruct (Z.compare e e') eqn:He; try discriminate.
  apply Z.compare_eq in He. intros Hm. split; [exact He|].
  injection Hm as Hm. apply Pos.compare_eq. exact Hm.
Qed.

Lemma SFleb_not_ltb_finite_pos m e m' e' :
  SFleb (S754_finite false m e) (S754_finite false m' e') = true ->
  SFltb (S754_finite false m' e') (S754_finite false m e) = false.
Proof.
  unfold SFleb, SFltb, SFcompare. rewrite (Z.compare_antisym e e').
  destruct (Z.compare e e'); simpl; try reflexivity; try discriminate.
  change (Pos.compare_cont Eq m' m) with (Pos.compare m' m).
  change (Pos.compare_cont Eq m m') with (Pos.compare m m').
  rewrite (Pos.compare_antisym m m').
  destruct (Pos.compare m m'); simpl; try reflexivity; discriminate.
Qed.

Lemma leb_not_ltb_100 x :
  (x <=? 100)%float = true -> (x <? 100)%float = false -> x = 100%float.
Proof.
  rewrite leb_spec, ltb_spec, Prim2SF_100. unfold SFleb, SFltb.
  intros Hle Hlt.
  rewrite <- (SF2Prim_Prim2SF x), <- (SF2Prim_Prim2SF 100), Prim2SF_100.
  destruct (Prim2SF x) as [s|s| |s m e]; try destruct s; try discriminate.
  destruct (SFcompare (S754_finite false m e) _) as [[]|] eqn:Hcmp; try discriminate.
  apply SFcompare_eq_finite_pos in Hcmp as [-> ->]. reflexivity.
Qed.

(** X1.  [_clamp] returns a float between 0.0 and 100.0 for every argument, NaN and
    the infinities included: a NaN clamps to 100.0, an argument at or below
    zero to 0.0, one at or above 100 to 100.0, and an argument between them
    is returned unchanged. *)
Theorem clamp_saturates x :
  (0 <=? _clamp x)%float = true
  /\ (_clamp x <=? 100)%float = true
  /\ (is_nan x = true -> _clamp x = 100%float)
  /\ ((x <=? 0)%float = true -> _clamp x = 0%float)
  /\ ((100 <=? x)%float = true -> _clamp x = 100%float)
  /\ ((0 <? x)%float = true -> (x <=? 100)%float = true -> _clamp x = x).
Proof.
  destruct (clamp_range x) as [Hlo Hhi].
  split; [exact Hlo|]. split; [exact Hhi|].
  unfold _clamp, py_max2, py_min2.
  rewrite !leb_spec, !ltb_spec, Prim2SF_100, Prim2SF_zero.
  unfold is_nan. rewrite FloatAxioms.eqb_spec.
  split; [|split; [|split]].
  - destruct (Prim2SF x) as [s|s| |s m e] eqn:Hx; try destruct s; try discriminate;
      try (intros H; vm_compute in H; discriminate).
    + intros _. reflexivity.
    + intros H. unfold SFeqb, SFcompare in H.
      rewrite Z.compare_refl, Pos.compare_refl in H. discriminate.
    + intros H. unfold SFeqb, SFcompare in H.
      rewrite Z.compare_refl, Pos.compare_refl in H. discriminate.
  - intros Hx0.
    assert (Hlt : SFltb (Prim2SF x) (S754_finite false 7036874417766400 (-46)) = true).
    { destruct (Prim2SF x) as [s|s| |s m e]; try destruct s; try discriminate;
        reflexivity. }
    rewrite Hlt. cbv iota.
    destruct (Prim2SF x) as [s|s| |s m e]; try destruct s; try discriminate;
      reflexivity.
  - intros Hx100.
    assert (Hlt : SFltb (Prim2SF x) (S754_finite false 7036874417766400 (-46)) = false).
    { destruct (Prim2SF x) as [s|s| |s m e]; try destruct s; try discriminate;
        try reflexivity.
      apply SFleb_not_ltb_finite_pos, Hx100. }
    rewrite Hlt. reflexivity.
  - intros Hpos Hle.
    destruct (SFltb (Prim2SF x) _) eqn:Hlt; cbv iota.
    + rewrite Hpos. reflexivity.
    + assert (Hx : x = 100%float)
        by (apply leb_not_ltb_100; rewrite ?leb_spec, ?ltb_spec, Prim2SF_100;
            assumption).
      rewrite Hx. reflexivity.
Qed.

Section WithLibm.
Variable float_pow : float -> float -> result float.
Hypothesis float_pow_nonpos :
  forall y, (0 <? y)%float = false -> exists r, float_pow EULER y = Ok r.

(** X2.  The three scores the scorer returns carry exactly one decimal, so that
    the second [round(..., 1)] of the final dict changes nothing: its
    [satiety_score] and [price_efficiency_score] are the values the two
    component functions returned. *)
Theorem scores_hold_one_decimal c protein price :
  0 < c < 2 ^ 1023 ->
  protein_in_range protein ->
  exists r sat pe,
    calculate_final_value_score float_pow (Some c) protein (Some price) = Ok r
    /\ calculate_satiety_score float_pow (Some c) protein = Ok sat
    /\ calculate_price_efficiency_score (Some price) (Some c) = Ok pe
    /\ satiety_score r = sat
    /\ price_efficiency_score r = pe
    /\ py_round sat 1 = sat
    /\ py_round pe 1 = pe
    /\ py_round (value_score r) 1 = value_score r
    /\ one_decimal sat /\ one_decimal pe /\ one_decimal (value_score r).
Proof.
  intros Hc Hp.
  destruct (final_value_score_total float_pow float_pow_nonpos c protein price Hc Hp)
    as (r & y & sat & pe & Hr & _ & Hsat & Hpe & Hsg & Hpg & ->).
  pose proof (grid_weighted sat pe Hsg Hpg) as Hvg.
  destruct (grid_range sat Hsg) as (_ & _ & Hrs).
  destruct (grid_range pe Hpg) as (_ & _ & Hrp).
  destruct (grid_range _ Hvg) as (_ & _ & Hrv).
  eexists. exists sat, pe. cbn [satiety_score price_efficiency_score value_score].
  split; [exact Hr|]. split; [exact Hsat|]. split; [exact Hpe|].
  split; [reflexivity|]. split; [reflexivity|].
  split; [exact Hrs|]. split; [exact Hrp|]. split; [exact Hrv|].
  split; [|split]; apply grid_one_decimal; assumption.
Qed.

(** X3.  With a positive calorie count and no price, the price-efficiency score is
    0.0 but the final score raises [TypeError]: [price / calories] is
    evaluated for [price_per_calorie] without a guard on [price]. *)
Theorem missing_price_raises c protein :
  0 < c < 2 ^ 1023 ->
  protein_in_range protein ->
  calculate_price_efficiency_score None (Some c) = Ok 0%float
  /\ calculate_final_value_score float_pow (Some c) protein None = Raise TypeError.
Proof.
  intros Hc Hp. split; [reflexivity|].
  destruct (satiety_on_grid float_pow float_pow_nonpos c protein Hc Hp) as (v & Hv & _).
  unfold calculate_final_value_score. rewrite Hv. cbn [bind].
  cbn [calculate_price_efficiency_score bind]. unfold price_per_calorie_of.
  replace (c =? 0) with false by (symmetry; apply Z.eqb_neq; lia).
  replace (0 <? c) with true by (symmetry; apply Z.ltb_lt; lia).
  reflexivity.
Qed.

End WithLibm.

(** X4.  Without a positive calorie count the scorer returns four zeros, whatever
    the protein and the price, absent ones included; [pow] is not called. *)
Theorem no_calories_all_zero float_pow calories protein price :
  match calories with Some c => c <= 0 | None => True end ->
  calculate_final_value_score float_pow calories protein price
  = Ok {| value_score := 0; satiety_score := 0;
          price_per_calorie := 0; price_efficiency_score := 0 |}.
Proof.
  intros Hc. unfold calculate_final_value_score, calculate_satiety_score,
    calculate_price_efficiency_score, price_per_calorie_of.
  destruct calories as [c|].
  - replace (c <=? 0) with true by (symmetry; apply Z.leb_le; lia).
    replace (0 <? c) with false by (symmetry; apply Z.ltb_ge; lia).
    rewrite andb_false_r.
    destruct price as [p|]; [destruct (p <=? 0)%float|]; reflexivity.
  - destruct price as [p|]; [destruct (p <=? 0)%float|]; reflexivity.
Qed.

Lemma scores_hold_one_decimal_witness :
  exists r sat pe,
    calculate_final_value_score pow_model (Some 550) (Some (PInt 25)) (Some 5.99%float)
      = Ok r
    /\ calculate_satiety_score pow_model (Some 550) (Some (PInt 25)) = Ok sat
    /\ calculate_price_efficiency_score (Some 5.99%float) (Some 550) = Ok pe
    /\ satiety_score r = sat
    /\ price_efficiency_score r = pe
    /\ py_round sat 1 = sat
    /\ py_round pe 1 = pe
    /\ py_round (value_score r) 1 = value_score r
    /\ one_decimal sat /\ one_decimal pe /\ one_decimal (value_score r).
Proof.
  apply (scores_hold_one_decimal pow_model pow_model_nonpos 550 (Some (PInt 25)) 5.99);
    [split; reflexivity | reflexivity].
Defined.

Lemma missing_price_raises_witness :
  calculate_price_efficiency_score None (Some 550) = Ok 0%float
  /\ calculate_final_value_score pow_model (Some 550) (Some (PFloat 25)) None
     = Raise TypeError.
Proof.
  apply (missing_price_raises pow_model pow_model_nonpos 550 (Some (PFloat 25)));
    [split; reflexivity | exact I].
Defined.

Lemma no_calories_all_zero_witness :
  calculate_final_value_score pow_model (Some (-3)) (Some (PFloat 25)) None
  = Ok {| value_score := 0; satiety_score := 0;
          price_per_calorie := 0; price_efficiency_score := 0 |}.
Proof.
  apply (no_calories_all_zero pow_model (Some (-3)) (Some (PFloat 25)) None).
  simpl. lia.
Defined.

End ScoreFacts.

(** ** The estimator path of [score_deal] *)

Module EstimatorFacts.
Import Py ValueCalculator GeminiService FloatFacts ValueCalculatorProps
  GeminiServiceProps Runs.

Section WithEstimator.
Variable float_pow : float -> float -> result float.
Hypothesis float_pow_nonpos :
  forall y, (0 <? y)%float = false -> exists r, float_pow EULER y = Ok r.
Variable generate_content : pystr -> result pystr.
Variable build_prompt : pystr -> pystr -> pystr -> pystr -> pystr.
Variable strip_code_fences : pystr -> pystr.
Variable json_loads : pystr -> option json.
Variable int_of_str : pystr -> option Z.
Variable float_of_str : pystr -> option float.

#[local] Abbreviation score_deal_here :=
  (score_deal float_pow generate_content build_prompt strip_code_fences json_loads
     int_of_str float_of_str).
#[local] Abbreviation parse_reply_here :=
  (parse_reply strip_code_fences json_loads int_of_str float_of_str).


(** X6.  When the estimator's reply reads as a positive calorie count [c] and a
    protein [p], the result carries them with their scores, provided [c] is
    small enough to be scored; if scoring them raises, the exception is
    swallowed and the defaults 600 and 20 are returned instead. *)
Theorem score_deal_uses_estimate
  item_name restaurant_name price calories protein_grams description portion_size
  deal_type reply c p :
  provided calories = None ->
  generate_content (build_prompt item_name restaurant_name description portion_size)
    = Ok reply ->
  parse_reply_here reply = Ok (c, p) ->
  0 < c ->
  (c < 2 ^ 1023 ->
   exists s,
     calculate_final_value_score float_pow (Some c) (Some (PFloat p)) (Some price) = Ok s
     /\ (score_deal_here item_name restaurant_name price calories protein_grams
           description portion_size deal_type).1
        = Ok {| ds_value_score := value_score s;
                ds_satiety_score := satiety_score s;
                ds_price_per_calorie := price_per_calorie s;
                ds_calories := c;
                ds_protein_grams := PFloat p |})
  /\ (forall e,
        calculate_final_value_score float_pow (Some c) (Some (PFloat p)) (Some price)
          = Raise e ->
        exists s,
          calculate_final_value_score float_pow (Some 600) (Some (PInt 20)) (Some price)
            = Ok s
          /\ (score_deal_here item_name restaurant_name price calories protein_grams
                description portion_size deal_type).1
             = Ok {| ds_value_score := value_score s;
                     ds_satiety_score := satiety_score s;
                     ds_price_per_calorie := price_per_calorie s;
                     ds_calories := 600;
                     ds_protein_grams := PInt 20 |}).
Proof.
  intros Hprov Hgen Hparse Hc.
  assert (Hrun : (score_deal_here item_name restaurant_name price calories protein_grams
                    description portion_size deal_type).1
                 = try_except
                     (bind (calculate_final_value_score float_pow (Some c)
                              (Some (PFloat p)) (Some price))
                        (fun s => Ok (pack s c (PFloat p))))
                     (fun _ => score_defaults float_pow price)).
  { unfold score_deal. rewrite Hprov. unfold estimate_path, estimate_and_score.
    cbn [fst]. rewrite Hgen. cbn [bind]. rewrite Hparse. cbn [bind].
    replace (c <=? 0) with false by (symmetry; apply Z.leb_gt; lia). reflexivity. }
  split.
  - intros Hsmall.
    destruct (final_value_score_total float_pow float_pow_nonpos c (Some (PFloat p))
                price (conj Hc Hsmall) I) as (s & _ & _ & _ & Hs & _).
    exists s. split; [exact Hs|]. rewrite Hrun, Hs. reflexivity.
  - intros e He.
    destruct (score_defaults_ok float_pow float_pow_nonpos price) as (s & Hs & Hd).
    exists s. split; [exact Hs|]. rewrite Hrun, He. simpl. exact Hd.
Qed.

End WithEstimator.


(** An estimator whose calorie count does not fit a float. *)
Definition loads_huge (text : pystr) : option json :=
  Some (JDict [(lit "calories", JInt (10 ^ 400)); (lit "protein", JInt 45)]).

Lemma score_deal_uses_estimate_witness :
  (exists s,
     calculate_final_value_score pow_model (Some 1200) (Some (PFloat 45)) (Some 5.99%float)
       = Ok s
     /\ (score_deal pow_model estimator_up prompt_of no_fence loads_reply no_int no_float
           (lit "Big Mac") (lit "McDonald's") 5.99 None None [] [] []).1
        = Ok {| ds_value_score := value_score s;
                ds_satiety_score := satiety_score s;
                ds_price_per_calorie := price_per_calorie s;
                ds_calories := 1200;
                ds_protein_grams := PFloat 45 |})
  /\ (exists s,
        calculate_final_value_score pow_model (Some 600) (Some (PInt 20)) (Some 5.99%float)
          = Ok s
        /\ (score_deal pow_model estimator_up prompt_of no_fence loads_huge no_int no_float
              (lit "Big Mac") (lit "McDonald's") 5.99 None None [] [] []).1
           = Ok {| ds_value_score := value_score s;
                   ds_satiety_score := satiety_score s;
                   ds_price_per_calorie := price_per_calorie s;
                   ds_calories := 600;
                   ds_protein_grams := PInt 20 |}).
Proof.
  split.
  - apply (score_deal_uses_estimate pow_model pow_model_nonpos estimator_up prompt_of
             no_fence loads_reply no_int no_float
             (lit "Big Mac") (lit "McDonald's") 5.99 None None [] [] []
             (lit "{" ++ quoted "calories" ++ lit ": 1200, " ++ quoted "protein"
                ++ lit ": 45}") 1200 45);
      [reflexivity | reflexivity | reflexivity | reflexivity | reflexivity].
  - apply (score_deal_uses_estimate pow_model pow_model_nonpos estimator_up prompt_of
             no_fence loads_huge no_int no_float
             (lit "Big Mac") (lit "McDonald's") 5.99 None None [] [] []
             (lit "{" ++ quoted "calories" ++ lit ": 1200, " ++ quoted "protein"
                ++ lit ": 45}") (10 ^ 400) 45 eq_refl eq_refl eq_refl eq_refl)
      with (e := OverflowError).
    vm_compute. reflexivity.
Defined.

End EstimatorFacts.

(** ** Induction on JSON values and facts on strings *)

Module JsonFacts.
Import Py.

(** Structural induction through the lists and dicts a value nests. *)
Lemma json_induction (P : json -> Prop) :
  P JNull ->
  (forall b, P (JBool b)) ->
  (forall z, P (JInt z)) ->
  (forall f, P (JFloat f)) ->
  (forall s, P (JStr s)) ->
  (forall l, Forall P l -> P (JList l)) ->
  (forall d, Forall (fun kv => P kv.2) d -> P (JDict d)) ->
  forall v, P v.
Proof.
  intros Hnull Hbool Hint Hfloat Hstr Hlist Hdict.
  fix IH 1. intros [|b|z|f|s|l|d].
  - exact Hnull.
  - apply Hbool.
  - apply Hint.
  - apply Hfloat.
  - apply Hstr.
  - apply Hlist. induction l as [|x l IHl]; constructor; [apply IH | exact IHl].
  - apply Hdict. induction d as [|[k x] d IHd]; constructor; [apply IH | exact IHd].
Qed.

(** No part of [s.split(sep)] holds the separator, and every character of a
    part is a character of [s]. *)
Lemma split_char_parts sep s part :
  part ∈ split_char sep s -> (sep ∉ part) /\ forall c, c ∈ part -> c ∈ s.
Proof.
  revert part. induction s as [|c s IH]; intros part; simpl.
  - intros Hp. apply list_elem_of_singleton in Hp as ->.
    split; [apply not_elem_of_nil | intros c Hc; inversion Hc].
  - destruct (c =? sep)%N eqn:Hc.
    + intros Hp. apply elem_of_cons in Hp as [->|Hp].
      * split; [apply not_elem_of_nil | intros x Hx; inversion Hx].
      * destruct (IH _ Hp) as [Hs Hin]. split; [exact Hs|].
        intros x Hx. right. apply Hin, Hx.
    + apply N.eqb_neq in Hc.
      destruct (split_char sep s) as [|p ps] eqn:Hsplit.
      * intros Hp. apply list_elem_of_singleton in Hp as ->. split.
        -- intros Hin. apply list_elem_of_singleton in Hin. congruence.
        -- intros x Hx. apply list_elem_of_singleton in Hx as ->. left.
      * intros Hp. apply elem_of_cons in Hp as [->|Hp].
        -- destruct (IH p ltac:(left)) as [Hs Hin]. split.
           ++ intros Hx. apply elem_of_cons in Hx as [Hx|Hx]; [congruence | tauto].
           ++ intros x Hx. apply elem_of_cons in Hx as [->|Hx]; [left|].
              right. apply Hin, Hx.
        -- destruct (IH part ltac:(right; exact Hp)) as [Hs Hin]. split; [exact Hs|].
           intros x Hx. right. apply Hin, Hx.
Qed.

(** [s.split(sep)] is never empty. *)
Lemma split_char_nonempty sep s : split_char sep s <> [].
Proof.
  destruct s as [|c s]; simpl; [discriminate|].
  destruct (c =? sep)%N; [discriminate|].
  destruct (split_char sep s); discriminate.
Qed.

Lemma split_char_app sep a b :
  split_char sep (a ++ sep :: b) = split_char sep a ++ split_char sep b.
Proof.
  induction a as [|c a IH]; simpl.
  - rewrite N.eqb_refl. reflexivity.
  - destruct (c =? sep)%N; [rewrite IH; reflexivity|].
    rewrite IH. pose proof (split_char_nonempty sep a) as Hne.
    destruct (split_char sep a) as [|p ps]; [congruence | reflexivity].
Qed.

Lemma split_char_no_sep sep s : sep ∉ s -> split_char sep s = [s].
Proof.
  induction s as [|c s IH]; [reflexivity|].
  intros Hs. apply not_elem_of_cons in Hs as [Hc Hs]. simpl.
  rewrite (proj2 (N.eqb_neq c sep) ltac:(congruence)), (IH Hs). reflexivity.
Qed.

(** A string that does not start with a space. *)
Definition no_lead (s : pystr) : Prop :=
  match s with
  | [] => True
  | c :: _ => is_space c = false
  end.

Lemma lstrip_spec s :
  exists sp,
    s = sp ++ lstrip s /\ Forall (fun c => is_space c = true) sp /\ no_lead (lstrip s).
Proof.
  induction s as [|c s (sp & Heq & Hsp & Hlead)]; simpl.
  - exists []. repeat split. constructor.
  - destruct (is_space c) eqn:Hc.
    + exists (c :: sp). split; [simpl; f_equal; exact Heq|].
      split; [constructor; assumption | exact Hlead].
    + exists []. split; [reflexivity|]. split; [constructor | exact Hc].
Qed.

Lemma lstrip_no_lead s : no_lead s -> lstrip s = s.
Proof. destruct s as [|c s]; simpl; [reflexivity | intros ->; reflexivity]. Qed.

Lemma rstrip_spec s :
  exists sp,
    s = rstrip s ++ sp /\ Forall (fun c => is_space c = true) sp
    /\ no_lead (reverse (rstrip s)).
Proof.
  unfold rstrip. destruct (lstrip_spec (reverse s)) as (sp & Heq & Hsp & Hlead).
  exists (reverse sp). split; [|split].
  - rewrite <- reverse_app, <- Heq, reverse_involutive. reflexivity.
  - apply Forall_reverse, Hsp.
  - rewrite reverse_involutive. exact Hlead.
Qed.

Lemma rstrip_no_trail s : no_lead (reverse s) -> rstrip s = s.
Proof.
  intros H. unfold rstrip. rewrite (lstrip_no_lead _ H). apply reverse_involutive.
Qed.

(** [s.strip()] neither starts nor ends with a space, is a slice of [s], and
    stripping it again changes nothing. *)
Lemma strip_spec s :
  no_lead (strip s) /\ no_lead (reverse (strip s))
  /\ strip (strip s) = strip s
  /\ exists before after, s = before ++ strip s ++ after.
Proof.
  unfold strip.
  destruct (lstrip_spec s) as (sp1 & Heq1 & _ & Hlead).
  destruct (rstrip_spec (lstrip s)) as (sp2 & Heq2 & _ & Htrail).
  assert (Hlead' : no_lead (rstrip (lstrip s))).
  { destruct (rstrip (lstrip s)) as [|c r] eqn:Hr; [exact I|].
    rewrite Heq2 in Hlead. exact Hlead. }
  split; [exact Hlead'|]. split; [exact Htrail|]. split.
  - rewrite (lstrip_no_lead _ Hlead'). apply rstrip_no_trail, Htrail.
  - exists sp1, sp2. rewrite <- Heq2. exact Heq1.
Qed.

End JsonFacts.

(** ** Store discovery, from the coordinates to the list of stores *)

Module StoreFacts.
Import Py UberEatsStoreSearch StoreSearchProps Runs JsonFacts.

Section WithWorld.
Variable U : unicode_db.
Variable json_loads : pystr -> result json.
Variable recursion_exceeded : json -> bool.
Variable py_str : json -> pystr.
Variable float_of_str : pystr -> option float.
Variable html_unescape : pystr -> pystr.
Variable geocoder_get : pystr -> result json.
Variable search_get : pystr -> pystr -> result pystr.
Variable _build_pl_parameter : pystr -> float -> float -> result pystr.
Variable _encode_store_url : pystr -> pystr -> result pystr.
Variable findall_store_hrefs : pystr -> list (pystr * pystr).
Variable state_finditer : nat -> pystr -> list pystr.
Variable format_near : float -> float -> pystr.

#[local] Abbreviation search_stores_here :=
  (search_stores U json_loads recursion_exceeded py_str float_of_str html_unescape
    geocoder_get
     search_get _build_pl_parameter _encode_store_url findall_store_hrefs
     state_finditer format_near).
#[local] Abbreviation search_uber_eats_here :=
  (_search_uber_eats U json_loads recursion_exceeded py_str html_unescape search_get
     _build_pl_parameter _encode_store_url findall_store_hrefs state_finditer
     format_near).
#[local] Abbreviation parse_here :=
  (_parse_search_results U json_loads recursion_exceeded py_str html_unescape
    _build_pl_parameter
     _encode_store_url findall_store_hrefs state_finditer).
#[local] Abbreviation direct_here :=
  (_try_direct_store_url U _build_pl_parameter format_near).
#[local] Abbreviation geocode_here :=
  (_geocode_location U float_of_str geocoder_get).

(** The direct-URL fallback names at most one store. *)
Lemma direct_store_at_most_one restaurant_name location lat lon stores :
  direct_here restaurant_name location lat lon = Ok stores -> (length stores <= 1)%nat.
Proof.
  unfold _try_direct_store_url.
  destruct (slug_map_get _ _) as [slug|]; [|intros [= <-]; simpl; lia].
  case_bool_decide; [intros [= <-]; simpl; lia|].
  destruct (_build_pl_parameter _ _ _); simpl; [intros [= <-]; simpl; lia | discriminate].
Qed.

Lemma parse_results_capped html restaurant_name location lat lon :
  (length (parse_here html restaurant_name location lat lon) <= 10)%nat
  /\ NoDup (store_id <$> parse_here html restaurant_name location lat lon).
Proof.
  rewrite parse_search_results_unfold. split.
  - rewrite length_take. lia.
  - eapply sublist_NoDup; [apply unique_loop_ids|].
    apply fmap_sublist, sublist_take.
Qed.

(** X9.  Whatever the restaurant, the location, the coordinates and the replies
    of the network, [search_stores] returns at most 10 stores, and no two of
    them share a [store_id]. *)
Theorem search_stores_bounded restaurant_name location lat lon :
  let stores :=
    search_stores U json_loads recursion_exceeded py_str float_of_str html_unescape
      geocoder_get
      search_get _build_pl_parameter _encode_store_url findall_store_hrefs
      state_finditer format_near restaurant_name location lat lon in
  (length stores <= 10)%nat /\ NoDup (store_id <$> stores).
Proof.
  cbv zeta.
  assert (Hnil : (length (@nil UberEatsStore) <= 10)%nat
                 /\ NoDup (store_id <$> @nil UberEatsStore))
    by (split; [simpl; lia | constructor]).
  unfold search_stores.
  destruct (resolve_coordinates _ _ _ _ _ _) as [[la|] [lo|]]; try exact Hnil.
  destruct (falsy (Some la) || falsy (Some lo)); [exact Hnil|].
  unfold _search_uber_eats.
  destruct (bind _ _) as [html|]; [|exact Hnil].
  destruct (parse_results_capped html restaurant_name location la lo) as [Hlen Hnd].
  case_bool_decide as Hempty; [|split; assumption].
  rewrite Hempty.
  destruct (_try_direct_store_url _ _ _ _ _ _ _) as [direct|] eqn:Hd; [|exact Hnil].
  apply direct_store_at_most_one in Hd. simpl.
  destruct direct as [|s [|s' direct]]; simpl in Hd; try lia.
  - exact Hnil.
  - split; [simpl; lia|]. apply NoDup_singleton.
Qed.

(** X10.  The geocoder's answer is read as both coordinates or as none.  A request
    that raises, an empty reply, a first hit without a [lat] or a [lon], or
    one whose coordinate does not read as a float, give [(None, None)]; a
    first hit with both gives them.  A ZIP code is looked up with [", USA"]
    appended. *)
Theorem geocode_location_outcome location :
  let search_query :=
    if is_zip U (strip location) then location ++ lit ", USA" else location in
  let r := geocode_here location in
  (r = (None, None) \/ exists la lo, r = (Some la, Some lo))
  /\ (forall e, geocoder_get search_query = Raise e -> r = (None, None))
  /\ (geocoder_get search_query = Ok (JList []) -> r = (None, None))
  /\ (forall d rest,
        geocoder_get search_query = Ok (JList (JDict d :: rest)) ->
        r = match dict_lookup d (lit "lat"), dict_lookup d (lit "lon") with
            | Some vlat, Some vlon =>
                match py_float float_of_str vlat, py_float float_of_str vlon with
                | Ok la, Ok lo => (Some la, Some lo)
                | _, _ => (None, None)
                end
            | _, _ => (None, None)
            end).
Proof.
  intros search_query r. subst r. unfold _geocode_location. fold search_query.
  split; [|split; [|split]].
  - destruct (geocoder_get search_query) as [data|]; [|left; reflexivity]. cbn [bind].
    destruct (truthy data); [|left; reflexivity].
    destruct data as [| | | | |l|d]; try (left; reflexivity).
    destruct (first_coordinate _ _ _) as [la|]; [|left; reflexivity]. cbn [bind].
    destruct (first_coordinate _ _ _) as [lo|]; [|left; reflexivity].
    right. exists la, lo. reflexivity.
  - intros e ->. reflexivity.
  - intros ->. reflexivity.
  - intros d rest ->. cbn [bind truthy]. unfold first_coordinate.
    rewrite bool_decide_eq_false_2 by discriminate. cbn [negb].
    destruct (dict_lookup d (lit "lat")) as [vlat|];
      [|destruct (dict_lookup d (lit "lon")); reflexivity].
    destruct (py_float float_of_str vlat) as [la|]; cbn [bind];
      [|destruct (dict_lookup d (lit "lon")); reflexivity].
    destruct (dict_lookup d (lit "lon")) as [vlon|]; [|reflexivity].
    destruct (py_float float_of_str vlon) as [lo|]; reflexivity.
Qed.

(** X11.  The geocoder is consulted only when the caller leaves a coordinate out:
    with both given, the result is the same whatever the geocoder would
    answer; with one missing and a geocoder that raises or finds nothing, no
    search is made and the result is empty. *)
Theorem search_stores_geocoder_use restaurant_name location lat lon :
  (forall la lo geocoder_get',
     lat = Some la -> lon = Some lo ->
     search_stores_here restaurant_name location lat lon
     = search_stores U json_loads recursion_exceeded py_str float_of_str html_unescape
       geocoder_get'
         search_get _build_pl_parameter _encode_store_url findall_store_hrefs
         state_finditer format_near restaurant_name location lat lon)
  /\ (lat = None \/ lon = None ->
      geocode_here location = (None, None) ->
      search_stores_here restaurant_name location lat lon = []).
Proof.
  split.
  - intros la lo geocoder_get' -> ->. reflexivity.
  - intros Hmissing Hgeo. unfold search_stores, resolve_coordinates.
    destruct Hmissing as [-> | ->]; [|destruct lat]; rewrite Hgeo; reflexivity.
Qed.

(** *** Stores read off embedded JSON *)

#[local] Abbreviation extract_here :=
  (_extract_stores_from_data U py_str _build_pl_parameter _encode_store_url).
#[local] Abbreviation search_recursive_here :=
  (search_recursive U py_str _build_pl_parameter _encode_store_url).

Lemma search_recursive_dict rl location lat lon d :
  search_recursive_here rl location lat lon (JDict d)
  = (if _looks_like_store U py_str d rl
     then option_list (_create_store_from_object py_str _build_pl_parameter
                         _encode_store_url d location lat lon)
     else [])
    ++ flat_map (fun kv => search_recursive_here rl location lat lon kv.2) d.
Proof.
  simpl. f_equal. induction d as [|[k v] d IH]; [reflexivity|].
  simpl. rewrite <- IH. reflexivity.
Qed.

Lemma search_recursive_list rl location lat lon l :
  search_recursive_here rl location lat lon (JList l)
  = flat_map (search_recursive_here rl location lat lon) l.
Proof.
  simpl. induction l as [|x l IH]; [reflexivity|].
  simpl. rewrite <- IH. reflexivity.
Qed.

(** What holds of a store built from an object of the embedded state. *)
Definition store_from_object (restaurant_name location : pystr) (lat lon : float)
  (s : UberEatsStore) : Prop :=
  name s <> [] /\ store_id s <> []
  /\ contains (u_lower U restaurant_name) (u_lower U (name s)) = true
  /\ distance s = None
  /\ is_Some (latitude s) /\ is_Some (longitude s)
  /\ exists pl,
       _build_pl_parameter location lat lon = Ok pl
       /\ _encode_store_url (base_url ++ lit "/store/" ++ store_id s) pl
          = Ok (store_url s).

(** X12.  Every store [_extract_stores_from_data] finds, at any depth of the data,
    has a non-empty name that contains the restaurant searched for (both
    lowercased), a non-empty id, both coordinates, and the URL encoded from
    [/store/<id>] and the location token. *)
Theorem extracted_stores_match data restaurant_name location lat lon :
  Forall (store_from_object restaurant_name location lat lon)
    (extract_here data restaurant_name location lat lon).
Proof.
  unfold _extract_stores_from_data.
  induction data as [| | | | |l IH|d IH] using json_induction;
    try (cbn; constructor).
  - rewrite search_recursive_list. induction IH as [|x l Hx _ IHl]; simpl.
    + constructor.
    + apply Forall_app. split; assumption.
  - rewrite search_recursive_dict. apply Forall_app. split.
    + destruct (_looks_like_store U py_str d _) eqn:Hlooks; [|constructor].
      unfold _create_store_from_object.
      destruct (bool_decide (store_name_of py_str d = [])
                || bool_decide (store_id_of py_str d = [])) eqn:Hempty;
        [constructor|].
      apply orb_false_iff in Hempty as [Hn Hi].
      apply bool_decide_eq_false in Hn. apply bool_decide_eq_false in Hi.
      destruct (_build_pl_parameter location lat lon) as [pl|] eqn:Hpl;
        [|constructor].
      cbn [bind].
      destruct (_encode_store_url _ pl) as [url|] eqn:Hurl; [|constructor].
      constructor; [|constructor].
      unfold store_from_object. cbn.
      split; [exact Hn|]. split; [exact Hi|]. split.
      { unfold _looks_like_store in Hlooks.
        destruct (existsb _ _ && existsb _ _); [exact Hlooks | discriminate]. }
      split; [reflexivity|]. split; [eexists; reflexivity|].
      split; [eexists; reflexivity|].
      exists pl. split; [exact Hpl | exact Hurl].
    + induction IH as [|[k x] d' Hx _ IHd]; simpl.
      * constructor.
      * apply Forall_app. split; assumption.
Qed.

(** *** Stores read off the anchors of the page *)

#[local] Abbreviation anchors_here :=
  (anchor_stores U html_unescape _build_pl_parameter _encode_store_url
     findall_store_hrefs).

Lemma mapM_Forall {A B : Type} (f : A -> result B) (P : B -> Prop) l made :
  (forall x y, f x = Ok y -> P y) -> mapM f l = Ok made -> Forall P made.
Proof.
  intros Hf. revert made. induction l as [|x l IH]; intros made; simpl.
  - intros [= <-]. constructor.
  - destruct (f x) as [y|] eqn:Hy; [|discriminate]. cbn [bind].
    destruct (mapM f l) as [ys|]; [|discriminate]. cbn [bind].
    intros [= <-]. constructor; [eapply Hf, Hy | apply IH; reflexivity].
Qed.

(** What holds of a store built from an anchor. *)
Definition store_from_anchor (lat lon : float) (s : UberEatsStore) : Prop :=
  (47%N ∉ store_id s) /\ (63%N ∉ store_id s)
  /\ address s = None /\ distance s = None
  /\ latitude s = Some (PFloat lat) /\ longitude s = Some (PFloat lon).

Lemma store_of_match_anchor rl pl lat lon m s :
  store_of_match U html_unescape _encode_store_url rl pl lat lon m = Ok (Some s) ->
  store_from_anchor lat lon s.
Proof.
  unfold store_of_match.
  destruct (contains _ _ || contains _ _); [|discriminate].
  destruct (split_char 47%N (html_unescape m.2)) as [|slug [|id rest]] eqn:Hsplit;
    try discriminate.
  destruct (_encode_store_url _ pl) as [url|]; [|discriminate]. cbn [bind].
  intros [= <-]. unfold store_from_anchor. cbn.
  assert (Hid : id ∈ split_char 47%N (html_unescape m.2))
    by (rewrite Hsplit; right; left).
  apply split_char_parts in Hid as [Hslash _].
  destruct (split_char 63%N id) as [|first others] eqn:Hq.
  { exfalso. eapply split_char_nonempty, Hq. }
  assert (Hfirst : first ∈ split_char 63%N id) by (rewrite Hq; left).
  apply split_char_parts in Hfirst as [Hquestion Hchars].
  cbn. split; [|split; [exact Hquestion|]]; [|repeat split].
  intros Hin. apply Hslash, Hchars, Hin.
Qed.

(** X13.  When the page has a matching anchor, every store [_parse_search_results]
    returns comes from an anchor: its id holds neither [/] nor [?], it has no
    address, and it carries the coordinates of the search itself, not the
    store's. *)
Theorem anchor_stores_carry_search_coordinates
  html restaurant_name location lat lon anchored :
  anchors_here html restaurant_name location lat lon = Ok anchored ->
  anchored <> [] ->
  Forall (store_from_anchor lat lon)
    (parse_here html restaurant_name location lat lon).
Proof.
  intros Ha Hne.
  assert (Hall : Forall (store_from_anchor lat lon) anchored).
  { unfold anchor_stores in Ha.
    destruct (_build_pl_parameter location lat lon) as [pl|]; [|discriminate].
    cbn [bind] in Ha.
    destruct (mapM _ _) as [made|] eqn:Hm; [|discriminate].
    cbn [bind] in Ha. injection Ha as <-.
    eapply (mapM_Forall _ (fun o => forall s, o = Some s -> store_from_anchor lat lon s))
      in Hm.
    - clear -Hm. induction Hm as [|o l Ho _ IH]; [constructor|].
      destruct o as [s|]; simpl; [constructor; [apply Ho; reflexivity | exact IH] | exact IH].
    - intros x [s|] Hx s' [= <-]. eapply store_of_match_anchor, Hx. }
  rewrite parse_search_results_unfold. unfold found_stores. rewrite Ha. cbn [bind].
  rewrite bool_decide_eq_false_2 by exact Hne.
  rewrite Forall_forall in *. intros x Hx. apply Hall.
  eapply elem_of_sublist; [exact Hx|].
  etrans; [apply sublist_take | apply unique_loop_sublist].
Qed.

(** *** The direct-URL fallback *)

Lemma slug_map_nonempty k slug : slug_map_get slug_map k = Some slug -> slug <> [].
Proof.
  unfold slug_map. simpl.
  repeat (destruct (decide _); [intros [= <-]; discriminate|]).
  discriminate.
Qed.

(** X14.  When the search page is fetched and no store is read off it,
    [_search_uber_eats] falls back to the table of known chains: a name in
    the table (lowercased, stripped) gives exactly one store, whose id is the
    chain's slug and whose coordinates and address are those of the search;
    any other name gives no store.  When the location token or the search
    request raises, the result is empty and the table is not consulted. *)
Theorem direct_url_fallback restaurant_name location lat lon :
  (forall e,
     bind (_build_pl_parameter location lat lon) (search_get restaurant_name) = Raise e ->
     search_uber_eats_here restaurant_name location lat lon = [])
  /\ (forall pl html,
        _build_pl_parameter location lat lon = Ok pl ->
        search_get restaurant_name pl = Ok html ->
        parse_here html restaurant_name location lat lon = [] ->
        search_uber_eats_here restaurant_name location lat lon
        = match slug_map_get slug_map (strip (u_lower U restaurant_name)) with
          | Some slug =>
              [ {| name := u_title U restaurant_name;
                   store_url := base_url ++ lit "/store/" ++ slug
                                ++ lit "?diningMode=DELIVERY&pl=" ++ pl;
                   store_id := slug;
                   address := Some (JStr (format_near lat lon));
                   distance := None;
                   latitude := Some (PFloat lat);
                   longitude := Some (PFloat lon) |} ]
          | None => []
          end).
Proof.
  split.
  - intros e He. unfold _search_uber_eats. rewrite He. reflexivity.
  - intros pl html Hpl Hget Hparse. unfold _search_uber_eats.
    rewrite Hpl. cbn [bind]. rewrite Hget, Hparse.
    rewrite bool_decide_eq_true_2 by reflexivity.
    unfold _try_direct_store_url.
    destruct (slug_map_get _ _) as [slug|] eqn:Hslug; [|reflexivity].
    rewrite bool_decide_eq_false_2 by (eapply slug_map_nonempty, Hslug).
    rewrite Hpl. reflexivity.
Qed.

End WithWorld.

Lemma anchor_stores_carry_search_coordinates_witness :
  Forall (store_from_anchor 38.98 (-76.93))
    (_parse_search_results ascii_db search_loads search_depth search_str search_unescape
       search_pl search_encode search_hrefs search_finditer
       (lit "<html>") (lit "McDonalds") (lit "20740") 38.98 (-76.93)).
Proof.
  eapply (anchor_stores_carry_search_coordinates ascii_db search_loads search_depth
    search_str
            search_unescape search_pl search_encode search_hrefs search_finditer).
  - vm_compute. reflexivity.
  - discriminate.
Defined.

(** A page without any store link, for a chain of the table and for a
    restaurant that is not in it. *)
Definition no_hrefs (html : pystr) : list (pystr * pystr) := [].

Example known_chain_falls_back :
  store_id <$> _search_uber_eats ascii_db search_loads search_depth search_str
    search_unescape
                 search_page search_pl search_encode no_hrefs search_finditer
                 search_near (lit " Taco Bell ") (lit "20740") 38.98 (-76.93)
  = [lit "taco-bell"]
  /\ _search_uber_eats ascii_db search_loads search_depth search_str search_unescape
       search_page search_pl search_encode no_hrefs search_finditer
       search_near (lit "Corner Diner") (lit "20740") 38.98 (-76.93)
     = [].
Proof. split; vm_compute; reflexivity. Qed.

End StoreFacts.

(** ** The location token's base64 *)

Module TokenFacts.
Import Py UberEatsStoreSearch.

(** A character that needs no quoting in a URL: a letter, a digit, [-] or
    [_]. *)
Definition urlsafe_char (c : codepoint) : bool :=
  ((65 <=? c) && (c <=? 90) || (97 <=? c) && (c <=? 122)
   || (48 <=? c) && (c <=? 57) || (c =? 45) || (c =? 95))%N.

Definition sextet_ok (i : N) : bool :=
  let c := urlsafe_translate (b64_char i) in
  urlsafe_char c && negb (c =? 61)%N
  && match urlsafe_index c with
     | Some j => (j =? i)%N
     | None => false
     end.

Lemma sextets_checked : forallb sextet_ok (N.of_nat <$> seq 0 64) = true.
Proof. vm_compute. reflexivity. Qed.

Lemma sextet i :
  (i < 64)%N ->
  let c := urlsafe_translate (b64_char i) in
  urlsafe_char c = true /\ c <> 61%N /\ urlsafe_index c = Some i.
Proof.
  intros Hi c.
  assert (Hin : In i (N.of_nat <$> seq 0 64)).
  { apply in_map_iff. exists (N.to_nat i). split; [lia|]. apply in_seq. lia. }
  pose proof (proj1 (List.forallb_forall _ _) sextets_checked i Hin) as Hok.
  unfold sextet_ok in Hok. fold c in Hok.
  apply andb_true_iff in Hok as [Hok Hidx].
  apply andb_true_iff in Hok as [Hsafe Hpad].
  split; [exact Hsafe|]. split.
  - intros Heq. rewrite Heq in Hpad. discriminate.
  - destruct (urlsafe_index c) as [j|]; [|discriminate].
    apply N.eqb_eq in Hidx. congruence.
Qed.

Lemma list_ind3 {A : Type} (P : list A -> Prop) :
  P [] -> (forall a, P [a]) -> (forall a b, P [a; b]) ->
  (forall a b c l, P l -> P (a :: b :: c :: l)) ->
  forall l, P l.
Proof.
  intros H0 H1 H2 H3 l.
  assert (H : P l /\ (forall a, P (a :: l)) /\ forall a b, P (a :: b :: l)).
  { induction l as [|x l (IH0 & IH1 & IH2)].
    - split; [exact H0|]. split; [exact H1 | exact H2].
    - split; [apply IH1|]. split; [intros a; apply IH2|]. intros a b. apply H3, IH0. }
  apply H.
Qed.

Lemma lstrip_char_pad ch pad r :
  Forall (eq ch) pad ->
  match r with [] => True | c :: _ => c <> ch end ->
  lstrip_char ch (pad ++ r) = r.
Proof.
  intros Hpad Hr. induction Hpad as [|c pad <- _ IH]; simpl.
  - destruct r as [|c r]; [reflexivity|]. simpl.
    rewrite (proj2 (N.eqb_neq _ _) Hr). reflexivity.
  - rewrite N.eqb_refl. exact IH.
Qed.

Lemma rstrip_char_pad ch body pad :
  Forall (eq ch) pad -> ch ∉ body -> rstrip_char ch (body ++ pad) = body.
Proof.
  intros Hpad Hbody. unfold rstrip_char. rewrite reverse_app.
  rewrite lstrip_char_pad.
  - apply reverse_involutive.
  - apply Forall_reverse, Hpad.
  - destruct (reverse body) as [|c r] eqn:Hrev; [exact I|].
    intros ->. apply Hbody. apply elem_of_reverse. rewrite Hrev. left.
Qed.

Lemma token_length_step (n : nat) :
  S (S (S (S ((4 * n + 2) / 3)))) = ((4 * S (S (S n)) + 2) / 3)%nat.
Proof.
  replace (4 * S (S (S n)) + 2)%nat with ((4 * n + 2) + 4 * 3)%nat by lia.
  rewrite Nat.div_add by lia. lia.
Qed.

Lemma byte_lt (b : Byte.byte) : (Byte.to_N b < 256)%N.
Proof. pose proof (Byte.to_N_bounded b). lia. Qed.

Lemma of_N_to_N_eq n b : n = Byte.to_N b -> Byte.of_N n = Some b.
Proof. intros ->. apply Byte.of_to_N. Qed.

#[local] Ltac euclid := zify; Z.to_euclidean_division_equations; lia.

(** Read every decoded byte back as the byte it was computed from. *)
#[local] Ltac read_bytes :=
  repeat match goal with
         | x : Byte.byte |- context [Byte.of_N ?n] =>
             rewrite (of_N_to_N_eq n x) by euclid
         end;
  cbn [mbind option_bind].

(** The padded encoding is a body of URL-safe characters followed by its
    padding. *)
Lemma urlsafe_b64encode_body data :
  exists body pad,
    urlsafe_b64encode data = body ++ pad
    /\ Forall (eq 61%N) pad
    /\ Forall (fun c => urlsafe_char c = true /\ c <> 61%N) body
    /\ length body = ((4 * length data + 2) / 3)%nat
    /\ base64_urlsafe_decode body = Some data.
Proof.
  unfold urlsafe_b64encode.
  induction data as [|a|a b|a b c data IH] using list_ind3.
  - exists [], []. repeat split; constructor.
  - pose proof (byte_lt a) as Ha.
    destruct (sextet (Byte.to_N a / 4) ltac:(euclid)) as (S1 & P1 & I1).
    destruct (sextet (Byte.to_N a mod 4 * 16) ltac:(euclid)) as (S2 & P2 & I2).
    eexists [_; _], [_; _]. split; [reflexivity|].
    split; [repeat constructor|]. split; [repeat constructor; assumption|].
    split; [reflexivity|].
    cbn [base64_urlsafe_decode]. rewrite I1, I2. cbn [mbind option_bind].
    read_bytes. reflexivity.
  - pose proof (byte_lt a) as Ha. pose proof (byte_lt b) as Hb.
    destruct (sextet (Byte.to_N a / 4) ltac:(euclid)) as (S1 & P1 & I1).
    destruct (sextet (Byte.to_N a mod 4 * 16 + Byte.to_N b / 16) ltac:(euclid))
      as (S2 & P2 & I2).
    destruct (sextet (Byte.to_N b mod 16 * 4) ltac:(euclid)) as (S3 & P3 & I3).
    eexists [_; _; _], [_]. split; [reflexivity|].
    split; [repeat constructor|]. split; [repeat constructor; assumption|].
    split; [reflexivity|].
    cbn [base64_urlsafe_decode]. rewrite I1, I2, I3. cbn [mbind option_bind].
    read_bytes. reflexivity.
  - destruct IH as (body & pad & Henc & Hpad & Hbody & Hlen & Hdec).
    pose proof (byte_lt a) as Ha. pose proof (byte_lt b) as Hb.
    pose proof (byte_lt c) as Hc.
    destruct (sextet (Byte.to_N a / 4) ltac:(euclid)) as (S1 & P1 & I1).
    destruct (sextet (Byte.to_N a mod 4 * 16 + Byte.to_N b / 16) ltac:(euclid))
      as (S2 & P2 & I2).
    destruct (sextet (Byte.to_N b mod 16 * 4 + Byte.to_N c / 64) ltac:(euclid))
      as (S3 & P3 & I3).
    destruct (sextet (Byte.to_N c mod 64) ltac:(euclid)) as (S4 & P4 & I4).
    eexists (_ :: _ :: _ :: _ :: body), pad. split.
    { cbn [b64encode]. rewrite fmap_app, Henc. reflexivity. }
    split; [exact Hpad|]. split; [repeat constructor; assumption|].
    split; [cbn [length]; rewrite Hlen; apply token_length_step|].
    cbn [base64_urlsafe_decode]. rewrite I1, I2, I3, I4. cbn [mbind option_bind].
    read_bytes. rewrite Hdec. reflexivity.
Qed.

(** X15.  For every byte string, [base64_urlsafe_encode] returns a token made of
    letters, digits, [-] and [_] only, without any [=], of
    [ceil(4 * len(data) / 3)] characters, from which the bytes are read back
    exactly: distinct byte strings get distinct tokens. *)
Theorem base64_urlsafe_encode_token data :
  let token := base64_urlsafe_encode data in
  Forall (fun c => urlsafe_char c = true) token
  /\ (61%N ∉ token)
  /\ length token = ((4 * length data + 2) / 3)%nat
  /\ base64_urlsafe_decode token = Some data
  /\ forall data', base64_urlsafe_encode data' = token -> data' = data.
Proof.
  assert (Hbody : forall d,
            Forall (fun c => urlsafe_char c = true /\ c <> 61%N) (base64_urlsafe_encode d)
            /\ length (base64_urlsafe_encode d) = ((4 * length d + 2) / 3)%nat
            /\ base64_urlsafe_decode (base64_urlsafe_encode d) = Some d).
  { intros d. destruct (urlsafe_b64encode_body d)
      as (body & pad & Henc & Hpad & Hb & Hlen & Hdec).
    assert (Hno : 61%N ∉ body).
    { intros Hin. rewrite Forall_forall in Hb. destruct (Hb _ Hin) as [_ Hne].
      apply Hne. reflexivity. }
    unfold base64_urlsafe_encode. rewrite Henc, (rstrip_char_pad _ _ _ Hpad Hno).
    split; [exact Hb|]. split; assumption. }
  intros token. subst token. destruct (Hbody data) as (Hb & Hlen & Hdec).
  split; [eapply Forall_impl; [exact Hb | intros c [Hc _]; exact Hc]|].
  split.
  { intros Hin. rewrite Forall_forall in Hb. destruct (Hb _ Hin) as [_ Hne].
    apply Hne. reflexivity. }
  split; [exact Hlen|]. split; [exact Hdec|].
  intros data' Heq. destruct (Hbody data') as (_ & _ & Hdec').
  rewrite Heq, Hdec in Hdec'. congruence.
Qed.

(** The token of the five bytes of ["hello"], and a three-byte string whose
    standard encoding would need [+] and [/]. *)
Example base64_urlsafe_encode_runs :
  base64_urlsafe_encode [Byte.x68; Byte.x65; Byte.x6c; Byte.x6c; Byte.x6f]
  = lit "aGVsbG8"
  /\ base64_urlsafe_encode [Byte.xfb; Byte.xef; Byte.xff] = lit "--__".
Proof. split; vm_compute; reflexivity. Qed.

End TokenFacts.

(** ** The store-page scraper *)

Module ScraperFacts.
Import Py UberEatsScraper UberEatsScraperProps JsonFacts Runs.

(** *** Inline JSON objects of a script *)

(** Opening braces minus closing braces. *)
Fixpoint brace_net (s : pystr) : Z :=
  match s with
  | [] => 0
  | c :: s' =>
      (if (c =? 123)%N then 1 else if (c =? 125)%N then -1 else 0) + brace_net s'
  end.

Lemma brace_net_app s t : brace_net (s ++ t) = brace_net s + brace_net t.
Proof. induction s as [|c s IH]; simpl; [reflexivity | rewrite IH; lia]. Qed.

(** An outermost object: from an opening brace to the closing brace that
    matches it, every proper prefix still open. *)
Definition outermost_object (p : pystr) : Prop :=
  (exists body, p = 123%N :: body ++ [125%N])
  /\ brace_net p = 0
  /\ forall pre suf, p = pre ++ suf -> pre <> [] -> suf <> [] -> 0 < brace_net pre.

(** The payloads are slices of the text, one after the other. *)
Inductive slices : pystr -> list pystr -> Prop :=
| slices_nil text : slices text []
| slices_cons gap p rest ps :
    slices rest ps -> slices (gap ++ p ++ rest) (p :: ps).

Lemma slices_skip c text ps : slices text ps -> slices (c :: text) ps.
Proof.
  intros [text'|gap p rest ps' H]; [constructor|].
  change (c :: gap ++ p ++ rest) with ((c :: gap) ++ p ++ rest).
  constructor. exact H.
Qed.

(** The slice being read at depth [d]: it starts with an opening brace, [d]
    of its braces are open, and so is every prefix of it. *)
Definition open_slice (d : nat) (o : pystr) : Prop :=
  (exists body, o = 123%N :: body)
  /\ brace_net o = Z.of_nat d
  /\ forall pre suf, o = pre ++ suf -> pre <> [] -> 0 < brace_net pre.

Lemma snoc_split {A : Type} (o : list A) c pre suf :
  o ++ [c] = pre ++ suf ->
  (suf = [] /\ pre = o ++ [c]) \/ exists suf', suf = suf' ++ [c] /\ o = pre ++ suf'.
Proof.
  destruct suf as [|x suf _] using rev_ind.
  - rewrite app_nil_r. intros <-. left. split; reflexivity.
  - rewrite app_assoc. intros H. apply app_inj_tail in H as [-> ->].
    right. exists suf. split; reflexivity.
Qed.

Lemma open_slice_snoc d d' o c :
  open_slice d o -> (0 < d')%nat ->
  brace_net (o ++ [c]) = Z.of_nat d' ->
  open_slice d' (o ++ [c]).
Proof.
  intros ([body ->] & Hnet & Hpre) Hd Hnet'. split; [|split].
  - exists (body ++ [c]). reflexivity.
  - exact Hnet'.
  - intros pre suf Heq Hne. apply snoc_split in Heq as [[-> ->]|(suf' & -> & Ho)].
    + rewrite Hnet'. lia.
    + eapply Hpre; eassumption.
Qed.

Lemma open_slice_close o :
  open_slice 1 o -> outermost_object (o ++ [125%N]).
Proof.
  intros ([body ->] & Hnet & Hpre). split; [|split].
  - exists body. reflexivity.
  - rewrite brace_net_app, Hnet. reflexivity.
  - intros pre suf Heq Hne Hsuf.
    apply snoc_split in Heq as [[-> _]|(suf' & -> & Ho)]; [congruence|].
    eapply Hpre; eassumption.
Qed.

Lemma scan_braces_spec s :
  forall d cur,
    match d with
    | O =>
        Forall outermost_object (scan_braces O cur s)
        /\ slices s (scan_braces O cur s)
    | S _ =>
        open_slice d (reverse cur) ->
        match scan_braces d cur s with
        | [] => True
        | p :: ps =>
            exists q rest,
              s = q ++ rest /\ p = reverse cur ++ q
              /\ outermost_object p /\ Forall outermost_object ps /\ slices rest ps
        end
    end.
Proof.
  induction s as [|c s IH]; intros d cur.
  - destruct d; simpl; [split; constructor | intros _; exact I].
  - assert (Hdeeper : forall d', (0 < d')%nat ->
              (d <> O -> open_slice d (reverse cur)) ->
              brace_net [c] = Z.of_nat d' - Z.of_nat d ->
              match scan_braces d' (c :: match d with O => [] | S _ => cur end) s with
              | [] => True
              | p :: ps =>
                  exists q rest,
                    c :: s = q ++ rest
                    /\ p = match d with O => [] | S _ => reverse cur end ++ q
                    /\ outermost_object p /\ Forall outermost_object ps
                    /\ slices rest ps
              end).
    { intros d' Hd' Ho Hnet.
      pose proof (IH d' (c :: match d with O => [] | S _ => cur end)) as IH'.
      destruct d' as [|d']; [lia|].
      assert (Ho' : open_slice (S d')
                      (reverse (c :: match d with O => [] | S _ => cur end))).
      { rewrite reverse_cons. destruct d as [|d].
        - simpl in Hnet. rewrite reverse_nil. simpl.
          destruct (c =? 123)%N eqn:Hc; [|destruct (c =? 125)%N; lia].
          apply N.eqb_eq in Hc. subst c.
          split; [exists []; reflexivity|]. split; [simpl; lia|].
          intros pre suf Heq Hne. destruct pre as [|x pre]; [congruence|].
          destruct pre; [|destruct pre; discriminate].
          injection Heq as <- _. simpl. lia.
        - eapply open_slice_snoc; [apply Ho; discriminate | lia |].
          rewrite brace_net_app. destruct (Ho ltac:(discriminate)) as (_ & -> & _).
          lia. }
      specialize (IH' Ho').
      destruct (scan_braces (S d') _ s) as [|p ps]; [exact I|].
      destruct IH' as (q & rest & -> & -> & Hp & Hps & Hsl).
      exists (c :: q), rest. split; [reflexivity|]. split; [|auto].
      rewrite reverse_cons. destruct d; [reflexivity|].
      rewrite <- app_assoc. reflexivity. }
    assert (Hlevel : Forall outermost_object (scan_braces O cur s)
                     /\ slices (c :: s) (scan_braces O cur s)).
    { destruct (IH O cur) as [Hall Hsl]. split; [exact Hall|].
      apply slices_skip, Hsl. }
    simpl. destruct (c =? 123)%N eqn:Hopen; [|destruct (c =? 125)%N eqn:Hclose].
    + destruct d as [|d].
      * specialize (Hdeeper 1%nat ltac:(lia) ltac:(congruence)).
        simpl in Hdeeper. rewrite Hopen in Hdeeper. specialize (Hdeeper eq_refl).
        destruct (scan_braces 1 _ s) as [|p ps]; [split; constructor|].
        destruct Hdeeper as (q & rest & Heq & -> & Hp & Hps & Hsl).
        split; [constructor; assumption|].
        rewrite Heq. apply (slices_cons [] q rest ps Hsl).
      * intros Ho. specialize (Hdeeper (S (S d)) ltac:(lia) (fun _ => Ho)).
        simpl in Hdeeper. rewrite Hopen in Hdeeper. apply Hdeeper. lia.
    + destruct d as [|[|d]].
      * exact Hlevel.
      * intros Ho. destruct (IH O []) as [Hall Hsl].
        exists [c], s. rewrite reverse_cons. apply N.eqb_eq in Hclose. subst c.
        split; [reflexivity|]. split; [reflexivity|].
        split; [apply open_slice_close, Ho|]. split; assumption.
      * intros Ho. specialize (Hdeeper (S d) ltac:(lia) (fun _ => Ho)).
        simpl in Hdeeper. rewrite Hopen, Hclose in Hdeeper. apply Hdeeper. lia.
    + destruct d as [|d].
      * exact Hlevel.
      * intros Ho. specialize (Hdeeper (S d) ltac:(lia) (fun _ => Ho)).
        simpl in Hdeeper. rewrite Hopen, Hclose in Hdeeper. apply Hdeeper. lia.
Qed.

Lemma scan_braces_no_open cur s : 123%N ∉ s -> scan_braces O cur s = [].
Proof.
  induction s as [|c s IH]; intros Hs; [reflexivity|].
  apply not_elem_of_cons in Hs as [Hc Hs]. simpl.
  rewrite (proj2 (N.eqb_neq c 123) ltac:(congruence)).
  destruct (c =? 125)%N; apply IH, Hs.
Qed.

(** X16.  Every payload [_extract_json_from_script] returns is an outermost object
    of the script, from an opening brace to the closing brace that matches
    it; the payloads are slices of the script that follow one another without
    overlap; a script without an opening brace has none. *)
Theorem extracted_json_outermost script_text :
  Forall outermost_object (_extract_json_from_script script_text)
  /\ slices script_text (_extract_json_from_script script_text)
  /\ ((123%N ∉ script_text) -> _extract_json_from_script script_text = []).
Proof.
  unfold _extract_json_from_script.
  destruct (scan_braces_spec script_text O []) as [Hall Hsl].
  split; [exact Hall|]. split; [exact Hsl|]. apply scan_braces_no_open.
Qed.

(** A script with a nested object, a stray closing brace and an object that
    is never closed. *)
Example extracted_json_run :
  _extract_json_from_script (lit "x={a:{b}};} y={c} z={d")
  = [lit "{a:{b}}"; lit "{c}"].
Proof. vm_compute. reflexivity. Qed.

(** *** Cleaned names *)

(** No registered or trademark sign. *)
Definition no_marks (s : pystr) : Prop :=
  Forall (fun c => c <> 174%N /\ c <> 8482%N) s.

(** Every space character is a plain space that follows a non-space. *)
Fixpoint single_spaced (prev_space : bool) (s : pystr) : bool :=
  match s with
  | [] => true
  | c :: s' =>
      if is_space c
      then (c =? 32)%N && negb prev_space && single_spaced true s'
      else single_spaced false s'
  end.

Lemma filter_all_kept {A : Type} (P : A -> Prop) `{!forall x, Decision (P x)} l :
  Forall P (filter P l) /\ (Forall P l -> filter P l = l).
Proof.
  split.
  - apply Forall_forall. intros x Hx. apply list_elem_of_filter in Hx. tauto.
  - induction 1 as [|x l Hx _ IH]; [reflexivity|].
    rewrite filter_cons_True by exact Hx. f_equal. exact IH.
Qed.

Lemma collapse_spaces_Forall (P : codepoint -> Prop) b s :
  P 32%N -> Forall P s -> Forall P (collapse_spaces b s).
Proof.
  intros H32 Hs. revert b. induction Hs as [|c s Hc _ IH]; intros b; simpl.
  - constructor.
  - destruct (is_space c); [destruct b|]; repeat constructor; auto.
Qed.

Lemma collapse_spaces_single b s : single_spaced b (collapse_spaces b s) = true.
Proof.
  revert b. induction s as [|c s IH]; intros b; simpl; [reflexivity|].
  destruct (is_space c) eqn:Hc.
  - destruct b; [apply IH|]. simpl. apply IH.
  - simpl. rewrite Hc. apply IH.
Qed.

Lemma collapse_spaces_id b s : single_spaced b s = true -> collapse_spaces b s = s.
Proof.
  revert b. induction s as [|c s IH]; intros b; simpl; [reflexivity|].
  destruct (is_space c).
  - intros H. apply andb_true_iff in H as [H Hs].
    apply andb_true_iff in H as [Hc Hb].
    apply N.eqb_eq in Hc. subst c. destruct b; [discriminate|].
    f_equal. apply IH, Hs.
  - intros Hs. f_equal. apply IH, Hs.
Qed.

Lemma single_spaced_suffix b pre rest :
  single_spaced b (pre ++ rest) = true -> no_lead rest ->
  single_spaced false rest = true.
Proof.
  revert b. induction pre as [|c pre IH]; intros b; simpl.
  - destruct rest as [|c r]; [reflexivity|]. simpl. intros H Hc.
    rewrite Hc in H |- *. exact H.
  - destruct (is_space c).
    + intros H. apply andb_true_iff in H as [_ H]. eapply IH, H.
    + apply IH.
Qed.

Lemma single_spaced_prefix b t after :
  single_spaced b (t ++ after) = true -> single_spaced b t = true.
Proof.
  revert b. induction t as [|c t IH]; intros b; simpl; [reflexivity|].
  destruct (is_space c).
  - intros H. apply andb_true_iff in H as [H Hs]. rewrite H. apply IH, Hs.
  - apply IH.
Qed.

(** X17.  A name [_clean_name] returns holds no [®] and no [™], neither starts nor
    ends with a space, and has single plain spaces as its only blanks;
    cleaning it again returns it unchanged (unless it is empty, which reads
    as no name). *)
Theorem clean_name_normal s t :
  _clean_name (JStr s) = Some t ->
  no_marks t
  /\ no_lead t /\ no_lead (reverse t)
  /\ single_spaced false t = true
  /\ (t <> [] -> _clean_name (JStr t) = Some t).
Proof.
  unfold _clean_name. case_bool_decide as Hs; [discriminate|]. intros [= <-].
  set (kept := filter _ s). set (collapsed := collapse_spaces false kept).
  destruct (strip_spec collapsed) as (Hlead & Htrail & Hidem & before & after & Heq).
  assert (Hmarks : no_marks (strip collapsed)).
  { assert (Hc : no_marks collapsed).
    { apply collapse_spaces_Forall; [split; discriminate|]. apply filter_all_kept. }
    unfold no_marks in *. rewrite Heq in Hc.
    apply Forall_app in Hc as [_ Hc]. apply Forall_app in Hc as [Hc _]. exact Hc. }
  assert (Hsingle : single_spaced false (strip collapsed) = true).
  { pose proof (collapse_spaces_single false kept) as Hc. fold collapsed in Hc.
    revert Hlead Heq. generalize (strip collapsed) as t. intros t Hlead Heq.
    rewrite Heq in Hc. destruct t as [|x t]; [reflexivity|].
    eapply single_spaced_prefix with (after := after).
    eapply single_spaced_suffix; [exact Hc | exact Hlead]. }
  repeat split; try assumption.
  intros Hne. rewrite bool_decide_eq_false_2 by exact Hne.
  rewrite (proj2 (filter_all_kept _ _) Hmarks).
  rewrite (collapse_spaces_id _ _ Hsingle), Hidem. reflexivity.
Qed.

Lemma clean_name_normal_witness :
  no_marks (lit "Big Mac")
  /\ no_lead (lit "Big Mac") /\ no_lead (reverse (lit "Big Mac"))
  /\ single_spaced false (lit "Big Mac") = true
  /\ (lit "Big Mac" <> [] -> _clean_name (JStr (lit "Big Mac")) = Some (lit "Big Mac")).
Proof.
  apply (clean_name_normal (lit " Big   Mac" ++ [174%N; 9%N])).
  vm_compute. reflexivity.
Defined.

(** *** The walk over a payload *)

Section WithWorld.
Variable U : unicode_db.
Variable json_loads : pystr -> result json.
Variable pattern_finditer : nat -> pystr -> list pystr.
Variable pattern_search : nat -> pystr -> option pystr.
Variable soup_script_texts : pystr -> list pystr.
Variable http_get : pystr -> result pystr.
Variable url_path : pystr -> pystr.

(** A walk over the members of a list or of a dict. *)
Fixpoint walk_all {A : Type} (f : A -> result (list candidate)) (l : list A)
  : result (list candidate) :=
  match l with
  | [] => Ok []
  | x :: l' => bind (f x) (fun a => bind (walk_all f l') (fun b => Ok (a ++ b)))
  end.

Lemma walk_list l current_category :
  walk U (JList l) current_category
  = walk_all (fun item => walk U item current_category) l.
Proof.
  simpl. induction l as [|x l IH]; [reflexivity|].
  simpl. rewrite <- IH. reflexivity.
Qed.

Lemma walk_dict d current_category :
  walk U (JDict d) current_category
  = bind (yield_here d current_category) (fun here =>
    bind (walk_all (fun kv => walk U kv.2
                                (next_category U kv.1 kv.2
                                   (category_local U d current_category))) d)
      (fun below => Ok (here ++ below))).
Proof.
  cbn [walk]. destruct (yield_here d current_category) as [here|]; [|reflexivity].
  cbn [bind]. f_equal.
  generalize (category_local U d current_category) as local. intros local.
  induction d as [|[k v] d IH]; [reflexivity|].
  simpl. rewrite <- IH. reflexivity.
Qed.

(** Whatever a member yields is part of what the whole walk yields. *)
Lemma walk_all_elem {A : Type} (f : A -> result (list candidate)) l r x :
  x ∈ l -> walk_all f l = Ok r ->
  exists rx, f x = Ok rx /\ forall c, c ∈ rx -> c ∈ r.
Proof.
  intros Hx. revert r. induction l as [|y l IH]; intros r; [inversion Hx|].
  simpl. destruct (f y) as [a|] eqn:Ha; [|discriminate]. cbn [bind].
  destruct (walk_all f l) as [b|]; [|discriminate]. cbn [bind]. intros [= <-].
  apply elem_of_cons in Hx as [->|Hx].
  - exists a. split; [exact Ha|]. intros c Hc. apply elem_of_app. left. exact Hc.
  - destruct (IH Hx b eq_refl) as (rx & Hrx & Hin). exists rx. split; [exact Hrx|].
    intros c Hc. apply elem_of_app. right. apply Hin, Hc.
Qed.

(** [node] is a dict of the payload: the payload itself, or a dict met
    below a member of a list or under a key of a dict, at any depth. *)
Inductive dict_in (node : list (pystr * json)) : json -> Prop :=
| dict_in_here : dict_in node (JDict node)
| dict_in_list l item : item ∈ l -> dict_in node item -> dict_in node (JList l)
| dict_in_dict d key value :
    (key, value) ∈ d -> dict_in node value -> dict_in node (JDict d).

(** What holds of a candidate of a payload: a dict of the payload has a
    string under [title], [name] or [displayName], a price field that
    resolves to the candidate's price, which is not [None], and gave the
    candidate its name. *)
Definition yielded_by_node (payload : json) (c : candidate) : Prop :=
  exists node,
    dict_in node payload
    /\ is_str (node_name node) = true
    /\ _extract_price_field node = Ok (c_price c)
    /\ c_price c <> JNull
    /\ c_name c = py_or (node_name node) (dict_get node (lit "shortName")).

Lemma yielded_by_node_list l item c :
  item ∈ l -> yielded_by_node item c -> yielded_by_node (JList l) c.
Proof.
  intros Hitem (node & Hin & H). exists node. split; [|exact H].
  eapply dict_in_list; eassumption.
Qed.

Lemma yielded_by_node_dict d key value c :
  (key, value) ∈ d -> yielded_by_node value c -> yielded_by_node (JDict d) c.
Proof.
  intros Hkv (node & Hin & H). exists node. split; [|exact H].
  eapply dict_in_dict; eassumption.
Qed.

Lemma yield_here_node d current_category here :
  yield_here d current_category = Ok here -> Forall (yielded_by_node (JDict d)) here.
Proof.
  unfold yield_here, _looks_like_item.
  destruct (_extract_price_field d) as [price|] eqn:Hp; [|discriminate]. cbn [bind].
  destruct (is_str (node_name d)) eqn:Hname; cbn [andb].
  - destruct (is_none price) eqn:Hnone; cbn [negb]; [intros [= <-]; constructor|].
    cbn [bind]. intros [= <-]. constructor; [|constructor].
    exists d. cbn. split; [constructor|]. split; [exact Hname|]. split; [exact Hp|].
    split; [|reflexivity]. intros ->. discriminate.
  - intros [= <-]. constructor.
Qed.

(** A dict that looks like an item yields one candidate for itself. *)
Lemma yield_here_item d current_category price :
  is_str (node_name d) = true ->
  _extract_price_field d = Ok price -> price <> JNull ->
  yield_here d current_category
  = Ok [ {| c_name := py_or (node_name d) (dict_get d (lit "shortName"));
            c_price := price;
            c_category := current_category |} ].
Proof.
  intros Hname Hp Hprice. unfold yield_here, _looks_like_item.
  rewrite Hp. cbn [bind]. rewrite Hname. cbn [andb].
  destruct price; try reflexivity. contradiction.
Qed.

Lemma walk_all_yields {A : Type} (payload : json)
  (f : A -> result (list candidate)) l r :
  (forall x rx, x ∈ l -> f x = Ok rx -> Forall (yielded_by_node payload) rx) ->
  walk_all f l = Ok r -> Forall (yielded_by_node payload) r.
Proof.
  intros Hl Hr. apply Forall_forall. intros c Hc.
  revert r Hr Hc. induction l as [|x l IH]; intros r; simpl.
  - intros [= <-] Hc. inversion Hc.
  - destruct (f x) as [a|] eqn:Ha; [|discriminate]. cbn [bind].
    destruct (walk_all f l) as [b|]; [|discriminate]. cbn [bind].
    intros [= <-] Hc. apply elem_of_app in Hc as [Hc|Hc].
    + pose proof (Hl x a ltac:(left) Ha) as Hall.
      rewrite Forall_forall in Hall. apply Hall, Hc.
    + eapply IH; [|reflexivity|exact Hc].
      intros y ry Hy. apply Hl. right. exact Hy.
Qed.

Lemma walk_yields_nodes v :
  forall current_category r,
    walk U v current_category = Ok r -> Forall (yielded_by_node v) r.
Proof.
  induction v as [| | | | |l IH|d IH] using json_induction;
    intros current_category r; try (cbn; intros [= <-]; constructor).
  - rewrite walk_list. apply walk_all_yields.
    rewrite Forall_forall in IH. intros x rx Hx Hrx.
    eapply Forall_impl; [eapply IH; eassumption|].
    intros c. apply yielded_by_node_list, Hx.
  - rewrite walk_dict.
    destruct (yield_here d current_category) as [here|] eqn:Hhere; [|discriminate].
    cbn [bind]. destruct (walk_all _ d) as [below|] eqn:Hbelow; [|discriminate].
    cbn [bind]. intros [= <-]. apply Forall_app. split.
    + eapply yield_here_node, Hhere.
    + eapply walk_all_yields; [|exact Hbelow].
      rewrite Forall_forall in IH. intros [k x] rx Hx Hrx.
      eapply Forall_impl; [eapply (IH (k, x)); eassumption|].
      intros c. apply yielded_by_node_dict with (key := k), Hx.
Qed.

(** Every dict of the payload that looks like an item is among what the
    walk yields. *)
Lemma walk_finds_nodes node v :
  dict_in node v ->
  forall current_category r price,
    walk U v current_category = Ok r ->
    is_str (node_name node) = true ->
    _extract_price_field node = Ok price -> price <> JNull ->
    exists c,
      c ∈ r
      /\ c_name c = py_or (node_name node) (dict_get node (lit "shortName"))
      /\ c_price c = price.
Proof.
  induction 1 as [|l item Hitem _ IH|d key value Hkv _ IH];
    intros current_category r price Hw Hname Hp Hprice.
  - rewrite walk_dict in Hw.
    rewrite (yield_here_item _ current_category _ Hname Hp Hprice) in Hw.
    cbn [bind] in Hw. destruct (walk_all _ node) as [below|]; [|discriminate].
    cbn [bind] in Hw. injection Hw as <-.
    eexists. split; [left|]. split; reflexivity.
  - rewrite walk_list in Hw.
    destruct (walk_all_elem _ _ _ _ Hitem Hw) as (rx & Hrx & Hin).
    destruct (IH _ _ _ Hrx Hname Hp Hprice) as (c & Hc & Hcn & Hcp).
    exists c. split; [apply Hin, Hc|]. split; assumption.
  - rewrite walk_dict in Hw.
    destruct (yield_here d current_category) as [here|]; [|discriminate].
    cbn [bind] in Hw. destruct (walk_all _ d) as [below|] eqn:Hbelow; [|discriminate].
    cbn [bind] in Hw. injection Hw as <-.
    destruct (walk_all_elem _ _ _ _ Hkv Hbelow) as (rx & Hrx & Hin).
    cbn [fst snd] in Hrx.
    destruct (IH _ _ _ Hrx Hname Hp Hprice) as (c & Hc & Hcn & Hcp).
    exists c. split; [apply elem_of_app; right; apply Hin, Hc|]. split; assumption.
Qed.

(** X18.  The candidates [_extract_items] yields are those of the dicts of the
    payload that look like an item.  Every candidate comes from a dict met
    in the payload, at some depth, that has a string under [title], [name]
    or [displayName] and a price field resolving to the candidate's price,
    which is not [None], and the candidate is named after that dict.  Every
    dict met in the payload with such a title and such a price gives a
    candidate with that name and that price.  A payload that is neither a
    dict nor a list yields nothing. *)
Theorem extracted_candidates_priced payload candidates :
  _extract_items U payload = Ok candidates ->
  Forall (yielded_by_node payload) candidates
  /\ (forall node price,
        dict_in node payload ->
        is_str (node_name node) = true ->
        _extract_price_field node = Ok price -> price <> JNull ->
        exists c,
          c ∈ candidates
          /\ c_name c = py_or (node_name node) (dict_get node (lit "shortName"))
          /\ c_price c = price)
  /\ (is_dict payload = false -> (forall l, payload <> JList l) -> candidates = []).
Proof.
  unfold _extract_items. intros Hw.
  split; [eapply walk_yields_nodes, Hw|]. split.
  - intros node price Hin Hname Hp Hprice.
    eapply walk_finds_nodes; eassumption.
  - intros Hd Hl. destruct payload; cbn in Hw; try (injection Hw as <-; reflexivity).
    + exfalso. eapply Hl. reflexivity.
    + discriminate.
Qed.

(** *** A price container that is not a dict *)

Lemma price_field_not_dict d k v :
  k = lit "priceInfo" \/ k = lit "itemPrice" ->
  dict_lookup d k = Some v -> is_dict v = false ->
  _extract_price_field d = Raise AttributeError.
Proof.
  intros Hk Hv Hnd. unfold _extract_price_field, get_nested.
  assert (Hraise : forall k2, get_attr v k2 = Raise AttributeError)
    by (intros k2; destruct v; try reflexivity; discriminate).
  destruct Hk as [-> | ->].
  - rewrite Hv, Hraise. reflexivity.
  - rewrite Hv, Hraise.
    destruct (dict_lookup d (lit "priceInfo")) as [[]|]; reflexivity.
Qed.

(** X19.  A node whose [priceInfo] or [itemPrice] is present but is not a dict
    ([null], a number, a string, a list) makes the price lookup raise
    [AttributeError]; nothing catches it, so the walk, the collection of the
    payload's items and [fetch_menu] itself raise it, whatever else the page
    holds. *)
Theorem malformed_price_container_raises d k v :
  k = lit "priceInfo" \/ k = lit "itemPrice" ->
  dict_lookup d k = Some v -> is_dict v = false ->
  _extract_price_field d = Raise AttributeError
  /\ _looks_like_item d = Raise AttributeError
  /\ _extract_items U (JDict d) = Raise AttributeError
  /\ (forall restaurant_name store_id location payload rest,
        json_loads payload = Ok (JDict d) ->
        collect_items U json_loads restaurant_name store_id location (payload :: rest)
        = Raise AttributeError)
  /\ (forall store_url restaurant_name location html payload rest,
        http_get store_url = Ok html ->
        _extract_state_payloads pattern_finditer pattern_search soup_script_texts html
          = payload :: rest ->
        json_loads payload = Ok (JDict d) ->
        fetch_menu U json_loads pattern_finditer pattern_search soup_script_texts
          http_get url_path store_url restaurant_name location
        = Raise AttributeError).
Proof.
  intros Hk Hv Hnd. pose proof (price_field_not_dict d k v Hk Hv Hnd) as Hp.
  assert (Hlooks : _looks_like_item d = Raise AttributeError)
    by (unfold _looks_like_item; rewrite Hp; reflexivity).
  assert (Hitems : _extract_items U (JDict d) = Raise AttributeError).
  { unfold _extract_items. rewrite walk_dict. unfold yield_here.
    rewrite Hlooks. reflexivity. }
  assert (Hcollect : forall restaurant_name store_id location payload rest,
            json_loads payload = Ok (JDict d) ->
            collect_items U json_loads restaurant_name store_id location (payload :: rest)
            = Raise AttributeError).
  { intros restaurant_name store_id location payload rest Hload.
    cbn [collect_items]. rewrite Hload, Hitems. reflexivity. }
  split; [exact Hp|]. split; [exact Hlooks|]. split; [exact Hitems|].
  split; [exact Hcollect|].
  intros store_url restaurant_name location html payload rest Hget Hpay Hload.
  unfold fetch_menu. rewrite Hget. cbn [bind]. rewrite Hpay.
  rewrite (Hcollect _ _ _ _ _ Hload). reflexivity.
Qed.

(** *** What every fetched item carries *)

(** The fields [fetch_menu] stamps on an item, and its category, which is a
    cleaned name or [None]. *)
Definition stamped (restaurant_name : pystr) (store_id location : option pystr)
  (item : UberEatsMenuItem) : Prop :=
  restaurant item = restaurant_name
  /\ source_price_vendor item = lit "ubereats"
  /\ store_external_id item = store_id
  /\ UberEatsScraper.location item = location
  /\ match category item with
     | Some c => exists s, _clean_name (JStr s) = Some c
     | None => True
     end.

Lemma make_item_stamped restaurant_name store_id location cand item :
  make_item U restaurant_name store_id location cand = Ok (Some item) ->
  stamped restaurant_name store_id location item.
Proof.
  unfold make_item. destruct (_parse_price U (c_price cand)) as [[price|]|];
    try discriminate. cbn [bind].
  destruct (_clean_name (c_name cand)) as [n|]; [|discriminate].
  case_bool_decide; [discriminate|]. intros [= <-].
  unfold stamped. cbn [restaurant source_price_vendor store_external_id
                         UberEatsScraper.location category].
  repeat split. destruct (c_category cand) as [c|]; [|exact I].
  cbn [opt_str]. destruct (_clean_name (JStr c)) as [c'|] eqn:Hc; [|exact I].
  exists c. exact Hc.
Qed.

Lemma collect_items_stamped restaurant_name store_id location payloads items :
  collect_items U json_loads restaurant_name store_id location payloads = Ok items ->
  Forall (stamped restaurant_name store_id location) items.
Proof.
  revert items. induction payloads as [|payload rest IH]; intros items; simpl.
  - intros [= <-]. constructor.
  - destruct (json_loads payload) as [parsed|e];
      [|destruct e; try discriminate; apply IH].
    destruct (_extract_items U parsed) as [extracted|]; [|discriminate]. cbn [bind].
    destruct (mapM _ extracted) as [made|] eqn:Hm; [|discriminate]. cbn [bind].
    destruct (collect_items _ _ _ _ _ rest) as [more|]; [|discriminate]. cbn [bind].
    intros [= <-]. apply Forall_app. split; [|apply IH; reflexivity].
    clear -Hm. revert made Hm. induction extracted as [|cand l IHl]; intros made; simpl.
    + intros [= <-]. constructor.
    + destruct (make_item _ _ _ _ cand) as [o|] eqn:Ho; [|discriminate]. cbn [bind].
      destruct (mapM _ l) as [os|]; [|discriminate]. cbn [bind].
      intros [= <-]. simpl. destruct o as [item|]; simpl.
      * constructor; [eapply make_item_stamped, Ho | apply IHl; reflexivity].
      * apply IHl. reflexivity.
Qed.

(** X20.  Every item [fetch_menu] returns carries the restaurant name and the
    location it was called with, the vendor ["ubereats"], the store id read
    off the URL, and a category that is either [None] or a cleaned name. *)
Theorem fetch_menu_items_stamped store_url restaurant_name location items :
  fetch_menu U json_loads pattern_finditer pattern_search soup_script_texts
    http_get url_path store_url restaurant_name location = Ok items ->
  Forall (stamped restaurant_name (_extract_store_id url_path store_url) location)
    items.
Proof.
  unfold fetch_menu. destruct (http_get store_url) as [html|]; [|discriminate].
  cbn [bind]. destruct (collect_items _ _ _ _ _ _) as [collected|] eqn:Hc;
    [|discriminate].
  cbn [bind]. intros [= <-]. apply collect_items_stamped in Hc.
  assert (Hwk0 : well_keyed U []) by (split; [constructor | intros q Hq; inversion Hq]).
  destruct (dedup_loop_spec U [] collected Hwk0) as (added & Heq & _ & Hsub & _).
  simpl in Heq. rewrite Heq. rewrite Forall_forall in *. intros item Hitem.
  apply Hc. eapply elem_of_sublist; eassumption.
Qed.

(** *** The store id of a URL *)

Definition segments (path : pystr) : list pystr :=
  filter (fun segment => segment <> []) (split_char 47%N path).

Lemma segments_slashes n : segments (replicate n 47%N) = [].
Proof.
  unfold segments. induction n as [|n IH]; [reflexivity|].
  simpl. rewrite filter_cons_False by (intros H; apply H; reflexivity). exact IH.
Qed.

Lemma segments_last pre seg n :
  seg <> [] -> 47%N ∉ seg ->
  segments (pre ++ 47%N :: seg ++ replicate n 47%N) = segments pre ++ [seg].
Proof.
  intros Hne Hseg. unfold segments. rewrite split_char_app, filter_app. f_equal.
  destruct n as [|n].
  - rewrite app_nil_r, (split_char_no_sep _ _ Hseg).
    rewrite filter_cons_True by exact Hne. reflexivity.
  - simpl replicate. rewrite split_char_app, filter_app, (split_char_no_sep _ _ Hseg).
    rewrite filter_cons_True by exact Hne.
    change (filter _ (split_char 47%N (replicate n 47%N)))
      with (segments (replicate n 47%N)).
    rewrite segments_slashes. reflexivity.
Qed.

(** X21.  [_extract_store_id] returns the last non-empty segment of the URL's
    path: what it returns is never empty and holds no [/]; a path that ends
    with a segment, followed by any number of slashes, gives that segment; a
    path made of slashes only, or empty, gives [None]. *)
Theorem extract_store_id_last_segment url :
  (forall id,
     _extract_store_id url_path url = Some id ->
     id <> [] /\ (47%N ∉ id) /\ forall c, c ∈ id -> c ∈ url_path url)
  /\ (forall pre seg n,
        url_path url = pre ++ 47%N :: seg ++ replicate n 47%N ->
        seg <> [] -> (47%N ∉ seg) ->
        _extract_store_id url_path url = Some seg)
  /\ (forall n, url_path url = replicate n 47%N -> _extract_store_id url_path url = None).
Proof.
  unfold _extract_store_id. fold (segments (url_path url)).
  split; [|split].
  - intros id Hid. apply last_Some_elem_of in Hid.
    apply list_elem_of_filter in Hid as [Hne Hin].
    apply split_char_parts in Hin as [Hslash Hchars]. auto.
  - intros pre seg n -> Hne Hseg. rewrite (segments_last _ _ _ Hne Hseg).
    apply last_snoc.
  - intros n ->. rewrite segments_slashes. reflexivity.
Qed.

End WithWorld.

Lemma extracted_candidates_priced_witness :
  exists candidates,
    _extract_items ascii_db menu_payload = Ok candidates
    /\ length candidates = 4%nat
    /\ Forall (yielded_by_node menu_payload) candidates
    /\ exists c,
         c ∈ candidates /\ c_name c = JStr (lit "Fries")
         /\ c_price c = JStr (lit "$2.49").
Proof.
  eexists. split; [vm_compute; reflexivity|]. split; [reflexivity|].
  edestruct (extracted_candidates_priced ascii_db menu_payload) as (Hall & Hfinds & _).
  { vm_compute. reflexivity. }
  split; [exact Hall|].
  apply (Hfinds [(lit "title", JStr (lit "Fries"));
                 (lit "priceInfo", JDict [(lit "price", JStr (lit "$2.49"))])]).
  - eapply dict_in_dict; [right; right; left|].
    eapply dict_in_list; [right; right; left|]. constructor.
  - reflexivity.
  - reflexivity.
  - discriminate.
Defined.

(** An item whose [priceInfo] is [null]. *)
Definition null_price_info : list (pystr * json) :=
  [(lit "title", JStr (lit "Big Mac")); (lit "priceInfo", JNull)].
Definition null_price_loads (text : pystr) : result json :=
  Ok (JDict [(lit "menu", JList [JDict null_price_info])]).

Lemma malformed_price_container_raises_witness :
  _extract_price_field null_price_info = Raise AttributeError
  /\ _extract_items ascii_db (JDict null_price_info) = Raise AttributeError.
Proof.
  destruct (malformed_price_container_raises ascii_db menu_loads menu_finditer
              menu_search menu_scripts menu_get menu_path
              null_price_info (lit "priceInfo") JNull)
    as (Hfield & _ & Hitems & _).
  - left. reflexivity.
  - reflexivity.
  - reflexivity.
  - split; assumption.
Defined.

(** The same node one level down the page's payload: the whole fetch
    raises. *)
Example fetch_menu_null_price_info :
  fetch_menu ascii_db null_price_loads menu_finditer menu_search menu_scripts
    menu_get menu_path (lit "https://www.ubereats.com/store/mcdonalds-main-st/abc123")
    (lit "McDonald's") None
  = Raise AttributeError.
Proof. vm_compute. reflexivity. Qed.

Example extract_store_id_runs :
  _extract_store_id (fun url => url) (lit "/store/mcdonalds-main-st/abc123//")
  = Some (lit "abc123")
  /\ _extract_store_id (fun url => url) (lit "//") = None.
Proof. split; vm_compute; reflexivity. Qed.

Lemma fetch_menu_items_stamped_witness :
  exists items,
    fetch_menu ascii_db menu_loads menu_finditer menu_search menu_scripts menu_get
      menu_path (lit "https://www.ubereats.com/store/mcdonalds-main-st/abc123")
      (lit "McDonald's") (Some (lit "20740")) = Ok items
    /\ length items = 2%nat
    /\ Forall (stamped (lit "McDonald's") (Some (lit "abc123")) (Some (lit "20740")))
         items.
Proof.
  eexists. split; [vm_compute; reflexivity|]. split; [reflexivity|].
  apply (fetch_menu_items_stamped ascii_db menu_loads menu_finditer menu_search
           menu_scripts menu_get menu_path
           (lit "https://www.ubereats.com/store/mcdonalds-main-st/abc123")
           (lit "McDonald's") (Some (lit "20740"))).
  vm_compute. reflexivity.
Defined.

End ScraperFacts.

(** ** The menu-page scraper *)

Module MenuFacts.
Import Py MenuScraper MenuScraperProps JsonFacts Runs.

(** The digit values of the ASCII restriction are digits. *)
Lemma ascii_digit_values c d : u_decimal ascii_db c = Some d -> 0 <= d <= 9.
Proof.
  simpl. unfold ascii_decimal.
  destruct ((48 <=? c) && (c <=? 57))%N eqn:Hc; [|discriminate].
  apply andb_true_iff in Hc as [Hlo Hhi].
  apply N.leb_le in Hlo. apply N.leb_le in Hhi. intros [= <-]. lia.
Qed.

Section WithWorld.
Variable U : unicode_db.
Hypothesis digit_values : forall c d, u_decimal U c = Some d -> 0 <= d <= 9.
Variable json_loads : pystr -> option json.
Variable http_get : pystr -> result pystr.
Variable soup_ldjson_texts : pystr -> list pystr.
Variable soup_select : pystr -> nat -> list element.
Variable soup_get_text : pystr -> pystr.

Lemma search_digits_bounds s z :
  search_digits_2_4 U s = Some z -> 0 <= z <= 9999.
Proof.
  induction s as [|c1 s IH]; simpl; [discriminate|].
  destruct (u_decimal U c1) as [d1|] eqn:E1; [|destruct s; exact IH].
  destruct s as [|c2 s2]; [discriminate|].
  destruct (u_decimal U c2) as [d2|] eqn:E2; [|exact IH].
  pose proof (digit_values _ _ E1) as B1. pose proof (digit_values _ _ E2) as B2.
  destruct s2 as [|c3 s3]; [intros [= <-]; lia|].
  destruct (u_decimal U c3) as [d3|] eqn:E3; [|intros [= <-]; lia].
  pose proof (digit_values _ _ E3) as B3.
  destruct s3 as [|c4 s4]; [intros [= <-]; lia|].
  destruct (u_decimal U c4) as [d4|] eqn:E4; [|intros [= <-]; lia].
  pose proof (digit_values _ _ E4) as B4. intros [= <-]. lia.
Qed.

(** X22.  A calorie count given as text never raises and, when one is read, lies
    between 0 and 9999: the first run of two to four digits is read, after
    the commas are removed, and a longer run is cut after its fourth
    digit. *)
Theorem parse_calories_text_bounds s :
  exists r,
    _parse_calories U (JStr s) = Ok r
    /\ r = search_digits_2_4 U (replace_char 44%N [] s)
    /\ forall z, r = Some z -> 0 <= z <= 9999.
Proof.
  eexists. split; [reflexivity|]. split; [reflexivity|].
  intros z. apply search_digits_bounds.
Qed.

End WithWorld.

Lemma parse_calories_text_bounds_witness :
  exists r,
    _parse_calories ascii_db (JStr (lit "1,250 Cal")) = Ok r
    /\ r = search_digits_2_4 ascii_db (replace_char 44%N [] (lit "1,250 Cal"))
    /\ forall z, r = Some z -> 0 <= z <= 9999.
Proof. apply (parse_calories_text_bounds ascii_db ascii_digit_values). Defined.

(** Calories as text: a thousands separator, a run of five digits, a lone
    digit. *)
Example parse_calories_runs :
  _parse_calories ascii_db (JStr (lit "1,250 Cal")) = Ok (Some 1250)
  /\ _parse_calories ascii_db (JStr (lit "12345 kcal")) = Ok (Some 1234)
  /\ _parse_calories ascii_db (JStr (lit "5 cal")) = Ok None.
Proof. repeat split; vm_compute; reflexivity. Qed.

(** *** The heuristic stages *)

Section Heuristics.
Variable U : unicode_db.
Variable soup_select : pystr -> nat -> list element.
Variable soup_get_text : pystr -> pystr.

(** What holds of an item of the heuristic stages: its name passes
    [_looks_like_menu_item], it has no nutrition, no category and no raw
    entry, and carries the restaurant and the page it was read from. *)
Definition heuristic_shape (restaurant_name url : pystr) (item : ScrapedMenuItem) : Prop :=
  _looks_like_menu_item U (name item) = true
  /\ restaurant item = restaurant_name /\ source_url item = Some url
  /\ calories item = None /\ protein_grams item = None
  /\ category item = None /\ raw item = None.

Lemma selector_loop_inv restaurant_name url elements seen items :
  NoDup (name <$> items) ->
  (forall item, item ∈ items ->
     name item ∈ seen /\ heuristic_shape restaurant_name url item) ->
  let r := selector_loop U restaurant_name url elements seen items in
  NoDup (name <$> r.2)
  /\ forall item, item ∈ r.2 -> heuristic_shape restaurant_name url item.
Proof.
  revert seen items. induction elements as [|e rest IH]; intros seen items Hnd Hin.
  - simpl. split; [exact Hnd|]. intros item Hitem. apply Hin, Hitem.
  - simpl. destruct (element_name e) as [n|]; [|apply IH; assumption].
    destruct (bool_decide (n ∈ seen)) eqn:Hseen; cbn [orb]; [apply IH; assumption|].
    destruct (_looks_like_menu_item U n) eqn:Hlooks; cbn [negb];
      [|apply IH; assumption].
    apply bool_decide_eq_false in Hseen. apply IH.
    + rewrite fmap_app. apply NoDup_app. split; [exact Hnd|]. split.
      * intros x Hx Hx'. apply list_elem_of_singleton in Hx'. subst x.
        apply list_elem_of_fmap in Hx as (item & Heq & Hitem).
        apply Hseen. cbn in Heq. rewrite Heq. apply Hin, Hitem.
      * apply NoDup_singleton.
    + intros item Hitem. apply elem_of_app in Hitem as [Hitem|Hitem].
      * destruct (Hin _ Hitem) as [Hs Hshape]. split; [|exact Hshape].
        apply elem_of_union. right. exact Hs.
      * apply list_elem_of_singleton in Hitem. subst item. split.
        -- cbn. apply elem_of_union. left. apply elem_of_singleton. reflexivity.
        -- repeat split. exact Hlooks.
Qed.

(** X23.  Every item of [_parse_with_heuristics] has a name of two to eight words
    that passes [_looks_like_menu_item], no nutrition and no category.  The
    items read off the CSS selectors have pairwise distinct names; the
    last-resort text scan, which runs only when the selectors gave nothing,
    adds one item per matching line without any deduplication. *)
Theorem heuristic_items_shape restaurant_name url html :
  Forall (heuristic_shape restaurant_name url)
    (_parse_with_heuristics U soup_select soup_get_text restaurant_name url html)
  /\ NoDup (name <$> selector_stage U soup_select restaurant_name url html)
  /\ (selector_stage U soup_select restaurant_name url html = [] ->
      name <$> _parse_with_heuristics U soup_select soup_get_text restaurant_name url html
      = (_guess_items_from_text U (soup_get_text html)).*1).
Proof.
  destruct (selector_loop_inv restaurant_name url
              (flat_map (soup_select html) (seq 0 n_selectors)) ∅ [])
    as [Hnd Hshape]; [constructor | intros item Hitem; inversion Hitem |].
  rewrite parse_with_heuristics_stages.
  split; [|split; [exact Hnd|]].
  - case_bool_decide; [|apply Forall_forall, Hshape].
    unfold text_stage. apply Forall_fmap, Forall_forall. intros [n price] Hin.
    unfold _guess_items_from_text in Hin. apply list_elem_of_omap in Hin as (line & _ & Hline).
    destruct (bool_decide (line = []) || negb (contains (lit "$") line));
      [discriminate|].
    destruct (120 <? length line)%nat; [discriminate|].
    destruct (_looks_like_menu_item U _) eqn:Hlooks; [|discriminate].
    injection Hline as <- <-. repeat split. exact Hlooks.
  - intros ->. rewrite bool_decide_eq_true_2 by reflexivity.
    unfold text_stage. rewrite <- list_fmap_compose. reflexivity.
Qed.

End Heuristics.

(** A page where two selectors match the same product, and a page where only
    the text scan finds anything: the repeated line is kept twice. *)
Definition twice_select (html : pystr) (i : nat) : list element :=
  match i with
  | 2%nat | 4%nat =>
      [ {| el_data_name := Some (lit "Quarter Pounder Deluxe");
           el_aria_label := None;
           el_headline := None;
           el_text := lit "Quarter Pounder Deluxe $7.49" |} ]
  | _ => []
  end.
Definition no_select (html : pystr) (i : nat) : list element := [].
Definition twice_text (html : pystr) : pystr :=
  lit "Spicy Chicken Wrap $4.25" ++ [10%N] ++ lit "Spicy Chicken Wrap $4.25".

Example heuristic_stage_runs :
  name <$> _parse_with_heuristics ascii_db twice_select page_text
             (lit "McDonald's") (lit "https://example.com") (lit "<html>")
  = [lit "Quarter Pounder Deluxe"]
  /\ name <$> _parse_with_heuristics ascii_db no_select twice_text
                (lit "McDonald's") (lit "https://example.com") (lit "<html>")
     = [lit "Spicy Chicken Wrap"; lit "Spicy Chicken Wrap"].
Proof. split; vm_compute; reflexivity. Qed.

(** *** The structured-data stage *)

Section Structured.
Variable U : unicode_db.
Variable json_loads : pystr -> option json.
Variable soup_ldjson_texts : pystr -> list pystr.

(** A string without a space at either end. *)
Definition trimmed (s : pystr) : Prop := no_lead s /\ no_lead (reverse s).

Lemma strip_trimmed s : trimmed (strip s).
Proof. destruct (strip_spec s) as (H1 & H2 & _). split; assumption. Qed.

Lemma dict_lookup_elem d k v : dict_lookup d k = Some v -> exists k', (k', v) ∈ d.
Proof.
  induction d as [|[k' v'] d IH]; simpl; [discriminate|].
  destruct (decide (k' = k)).
  - intros [= <-]. exists k'. left.
  - intros H. destruct (IH H) as [k'' Hin]. exists k''. right. exact Hin.
Qed.

Lemma flatten_dict d :
  _flatten_ldjson (JDict d)
  = JDict d
    :: flat_map (fun key => match dict_lookup d key with
                            | Some v => _flatten_ldjson v
                            | None => []
                            end)
         [lit "hasMenu"; lit "hasMenuItem"; lit "hasMenuSection"; lit "itemListElement"].
Proof.
  cbn [_flatten_ldjson]. f_equal. apply flat_map_ext. intros key.
  induction d as [|[k v] d IH]; [reflexivity|].
  simpl. destruct (decide (k = key)); [reflexivity | exact IH].
Qed.

Lemma flatten_list l :
  _flatten_ldjson (JList l) = flat_map _flatten_ldjson l.
Proof.
  cbn [_flatten_ldjson]. induction l as [|x l IH]; [reflexivity|].
  simpl. rewrite <- IH. reflexivity.
Qed.

(** [_flatten_ldjson] yields dicts only. *)
Lemma flatten_yields_dicts data :
  Forall (fun entry => is_dict entry = true) (_flatten_ldjson data).
Proof.
  induction data as [| | | | |l IH|d IH] using json_induction;
    try solve [cbn; constructor].
  - rewrite flatten_list. induction IH as [|x l Hx _ IHl]; simpl; [constructor|].
    apply Forall_app. split; assumption.
  - rewrite flatten_dict. constructor; [reflexivity|].
    assert (Hkey : forall key,
              Forall (fun entry => is_dict entry = true)
                match dict_lookup d key with
                | Some v => _flatten_ldjson v
                | None => []
                end).
    { intros key. destruct (dict_lookup d key) as [v|] eqn:Hv; [|constructor].
      apply dict_lookup_elem in Hv as [k' Hin].
      rewrite Forall_forall in IH. apply (IH _ Hin). }
    simpl. repeat (apply Forall_app; split; [apply Hkey|]). constructor.
Qed.

Lemma coerce_dict d :
  _coerce_menu_item U (JDict d)
  = if is_item_type U d then
      match dict_get d (lit "name") with
      | JStr name =>
          if bool_decide (name = []) then Ok None
          else
            bind (_extract_price U d) (fun price =>
            bind (_extract_nutrition U d) (fun '(calories, protein) =>
            Ok (Some {| co_name := strip name;
                        co_price := price;
                        co_calories := calories;
                        co_protein := protein;
                        co_category :=
                          match dict_get d (lit "category") with
                          | JStr c => Some (strip c)
                          | _ => None
                          end |})))
      | _ => Ok None
      end
    else
      match dict_lookup d (lit "item") with
      | Some (JDict inner) => _coerce_menu_item U (JDict inner)
      | _ => Ok None
      end.
Proof.
  cbn [_coerce_menu_item]. destruct (is_item_type U d); [reflexivity|].
  induction d as [|[k v] d IH]; [reflexivity|].
  simpl dict_lookup. destruct (decide (k = lit "item")); [|exact IH].
  destruct v; reflexivity.
Qed.

(** A coerced item has a trimmed name and a trimmed category. *)
Lemma coerce_trimmed entry :
  forall m,
    _coerce_menu_item U entry = Ok (Some m) ->
    trimmed (co_name m)
    /\ match co_category m with Some c => trimmed c | None => True end.
Proof.
  induction entry as [| | | | |l IH|d IH] using json_induction; intros m;
    try (cbn; discriminate).
  rewrite coerce_dict. destruct (is_item_type U d).
  - destruct (dict_get d (lit "name")) as [| | | |name| |]; try discriminate.
    case_bool_decide; [discriminate|].
    destruct (_extract_price U d) as [price|]; [|discriminate]. cbn [bind].
    destruct (_extract_nutrition U d) as [[calories protein]|]; [|discriminate].
    cbn [bind]. intros [= <-]. cbn [co_name co_category].
    split; [apply strip_trimmed|].
    destruct (dict_get d (lit "category")); try exact I. apply strip_trimmed.
  - destruct (dict_lookup d (lit "item")) as [v|] eqn:Hv; [|discriminate].
    destruct v as [| | | | | |inner]; try discriminate.
    apply dict_lookup_elem in Hv as [k' Hin].
    rewrite Forall_forall in IH. apply (IH _ Hin).
Qed.

(** What holds of an item of the structured stage. *)
Definition structured_shape (restaurant_name url : pystr) (item : ScrapedMenuItem) : Prop :=
  restaurant item = restaurant_name
  /\ source_url item = Some url
  /\ trimmed (name item)
  /\ match category item with Some c => trimmed c | None => True end
  /\ exists d m,
       raw item = Some (JDict d)
       /\ _coerce_menu_item U (JDict d) = Ok (Some m)
       /\ name item = co_name m /\ price item = co_price m
       /\ calories item = co_calories m /\ protein_grams item = co_protein m
       /\ category item = co_category m.

Lemma structured_of_entry_shape restaurant_name url entry item :
  is_dict entry = true ->
  structured_of_entry U restaurant_name url entry = Ok (Some item) ->
  structured_shape restaurant_name url item.
Proof.
  intros Hd. unfold structured_of_entry.
  destruct (_coerce_menu_item U entry) as [[m|]|] eqn:Hm; try discriminate.
  cbn [bind]. intros [= <-]. destruct (coerce_trimmed entry m Hm) as [Hn Hc].
  destruct entry as [| | | | | |d]; try discriminate.
  unfold structured_shape.
  cbn [restaurant source_url name category raw price calories protein_grams].
  split; [reflexivity|]. split; [reflexivity|].
  split; [exact Hn|]. split; [exact Hc|].
  exists d, m. repeat split. exact Hm.
Qed.

(** X24.  Every item of the structured-data stage carries the restaurant and the
    page URL it was asked for, a name and a category without a space at
    either end, and as [raw] the JSON-LD dict it was coerced from, never
    [None]. *)
Theorem structured_items_shape restaurant_name url html items :
  _parse_structured_data U json_loads soup_ldjson_texts restaurant_name url html
    = Ok items ->
  Forall (structured_shape restaurant_name url) items.
Proof.
  unfold _parse_structured_data. generalize (soup_ldjson_texts html) as texts.
  intros texts. revert items. induction texts as [|text rest IH]; intros items; simpl.
  - intros [= <-]. constructor.
  - case_bool_decide; [apply IH|].
    destruct (json_loads text) as [data|]; [|apply IH].
    destruct (mapM _ (_flatten_ldjson data)) as [made|] eqn:Hmade; [|discriminate].
    cbn [bind]. destruct (structured_loop U json_loads restaurant_name url rest)
      as [more|]; [|discriminate].
    cbn [bind]. intros [= <-]. apply Forall_app. split; [|apply IH; reflexivity].
    pose proof (flatten_yields_dicts data) as Hdicts. clear -Hmade Hdicts.
    revert made Hmade. induction Hdicts as [|entry l He _ IHl]; intros made; simpl.
    + intros [= <-]. constructor.
    + destruct (structured_of_entry U restaurant_name url entry) as [o|] eqn:Ho;
        [|discriminate]. cbn [bind].
      destruct (mapM _ l) as [os|]; [|discriminate]. cbn [bind].
      intros [= <-]. simpl. destruct o as [item|]; simpl.
      * constructor; [eapply structured_of_entry_shape; eassumption|].
        apply IHl. reflexivity.
      * apply IHl. reflexivity.
Qed.

End Structured.

Lemma structured_items_shape_witness :
  exists items,
    _parse_structured_data ascii_db page_loads page_ldjson_texts
      (lit "McDonald's") (lit "https://www.mcdonalds.com/us/en-us/full-menu.html")
      (lit "<html>") = Ok items
    /\ name <$> items = [lit "Big Mac"]
    /\ Forall (structured_shape ascii_db (lit "McDonald's")
                 (lit "https://www.mcdonalds.com/us/en-us/full-menu.html")) items.
Proof.
  eexists. split; [vm_compute; reflexivity|]. split; [reflexivity|].
  apply (structured_items_shape ascii_db page_loads page_ldjson_texts
           (lit "McDonald's") (lit "https://www.mcdonalds.com/us/en-us/full-menu.html")
           (lit "<html>")).
  vm_compute. reflexivity.
Defined.

(** *** Scraping several restaurants *)

Lemma dict_set_keys {V : Type} (d : list (pystr * V)) k v k' :
  k' ∈ (dict_set d k v).*1 <-> k' = k \/ k' ∈ d.*1.
Proof.
  induction d as [|[k0 v0] d IH]; simpl.
  - rewrite list_elem_of_singleton. split; [auto|]. intros [H|H]; [exact H | inversion H].
  - destruct (decide (k0 = k)) as [->|Hne]; simpl.
    + rewrite !elem_of_cons. tauto.
    + rewrite !elem_of_cons, IH. tauto.
Qed.

Lemma dict_set_NoDup {V : Type} (d : list (pystr * V)) k v :
  NoDup d.*1 -> NoDup (dict_set d k v).*1.
Proof.
  induction d as [|[k0 v0] d IH]; simpl.
  - intros _. apply NoDup_singleton.
  - intros Hnd. apply NoDup_cons in Hnd as [Hk0 Hnd].
    destruct (decide (k0 = k)) as [->|Hne]; simpl.
    + apply NoDup_cons. split; assumption.
    + apply NoDup_cons. split; [|apply IH, Hnd].
      rewrite dict_set_keys. intros [H|H]; [congruence | contradiction].
Qed.

Lemma dict_set_elem {V : Type} (d : list (pystr * V)) k v k' v' :
  (k', v') ∈ dict_set d k v -> (k' = k /\ v' = v) \/ (k', v') ∈ d.
Proof.
  induction d as [|[k0 v0] d IH]; simpl.
  - intros H. apply list_elem_of_singleton in H. injection H as -> ->. left. auto.
  - destruct (decide (k0 = k)) as [->|Hne]; intros H;
      apply elem_of_cons in H as [H|H].
    + injection H as -> ->. left. auto.
    + right. right. exact H.
    + right. rewrite H. left.
    + destruct (IH H) as [?|?]; [left; assumption | right; right; assumption].
Qed.

Section Batch.
Variable U : unicode_db.
Variable json_loads : pystr -> option json.
Variable http_get : pystr -> result pystr.
Variable soup_ldjson_texts : pystr -> list pystr.
Variable soup_select : pystr -> nat -> list element.
Variable soup_get_text : pystr -> pystr.

#[local] Abbreviation scrape_here :=
  (scrape_restaurant U json_loads http_get soup_ldjson_texts soup_select soup_get_text).
#[local] Abbreviation scrape_all_here :=
  (scrape_all U json_loads http_get soup_ldjson_texts soup_select soup_get_text).

(** The menu [scrape_all] records for a slug. *)
Definition entries_of (slug : pystr) : list (list (pystr * json)) :=
  match scrape_here slug with
  | Ok items => to_dict <$> items
  | Raise _ => []
  end.

(** The slugs [scrape_all] works on. *)
Definition requested (slugs : option (list pystr)) : list pystr :=
  match slugs with
  | Some (slug :: rest) => slug :: rest
  | _ => TARGETS.*1
  end.

Lemma scrape_all_fold slugs :
  scrape_all_here slugs
  = foldl (fun aggregated slug => dict_set aggregated slug (entries_of slug)) []
      (requested slugs).
Proof.
  unfold scrape_all. fold (requested slugs).
  generalize (@nil (pystr * list (list (pystr * json)))) as acc.
  induction (requested slugs) as [|slug rest IH]; intros acc; [reflexivity|].
  simpl. rewrite <- IH. unfold entries_of.
  destruct (scrape_here slug); reflexivity.
Qed.

Lemma fold_entries l :
  forall acc,
    NoDup acc.*1 ->
    (forall slug v, (slug, v) ∈ acc -> v = entries_of slug) ->
    let r := foldl (fun aggregated slug => dict_set aggregated slug (entries_of slug))
               acc l in
    NoDup r.*1
    /\ (forall slug, slug ∈ r.*1 <-> slug ∈ acc.*1 \/ slug ∈ l)
    /\ (forall slug v, (slug, v) ∈ r -> v = entries_of slug).
Proof.
  induction l as [|x l IH]; intros acc Hnd Hval; simpl.
  - split; [exact Hnd|]. split; [|exact Hval].
    intros slug. split; [auto|]. intros [H|H]; [exact H | inversion H].
  - destruct (IH (dict_set acc x (entries_of x))) as (Hnd' & Hkeys & Hval').
    + apply dict_set_NoDup, Hnd.
    + intros slug v Hin. apply dict_set_elem in Hin as [[-> ->]|Hin];
        [reflexivity | apply Hval, Hin].
    + split; [exact Hnd'|]. split; [|exact Hval'].
      intros slug. rewrite Hkeys, dict_set_keys, elem_of_cons. tauto.
Qed.

Lemma to_dict_fields item :
  Forall (fun kv => kv.2 <> JNull) (to_dict item)
  /\ dict_lookup (to_dict item) (lit "restaurant") = Some (JStr (restaurant item))
  /\ dict_lookup (to_dict item) (lit "name") = Some (JStr (name item)).
Proof.
  split; [|split; reflexivity].
  unfold to_dict. apply Forall_forall. intros kv Hin.
  apply list_elem_of_In, filter_In in Hin as [_ Hin].
  intros Heq. rewrite Heq in Hin. discriminate.
Qed.

(** X25.  [scrape_all] returns exactly one entry per requested slug (the six known
    ones when none is given), however often the slug is requested.  The
    entry of a slug holds the items of its menu as dicts, or is empty when
    scraping it raised, as it does for an unknown slug or an unreachable
    page: one failure never fails the batch.  Every item dict has its
    restaurant and its name, and no [None] value. *)
Theorem scrape_all_entries slugs :
  let r := scrape_all_here slugs in
  NoDup r.*1
  /\ (forall slug, slug ∈ r.*1 <-> slug ∈ requested slugs)
  /\ (forall slug v, (slug, v) ∈ r -> v = entries_of slug)
  /\ (forall slug e, scrape_here slug = Raise e -> entries_of slug = [])
  /\ (forall slug, targets_get TARGETS slug = None -> entries_of slug = [])
  /\ (forall slug d,
        d ∈ entries_of slug ->
        Forall (fun kv => kv.2 <> JNull) d
        /\ is_Some (dict_lookup d (lit "restaurant"))
        /\ is_Some (dict_lookup d (lit "name"))).
Proof.
  intros r. subst r. rewrite scrape_all_fold.
  destruct (fold_entries (requested slugs) []) as (Hnd & Hkeys & Hval);
    [constructor | intros slug v Hin; inversion Hin |].
  split; [exact Hnd|]. split.
  { intros slug. rewrite Hkeys. split; [intros [H|H]; [inversion H | exact H] | auto]. }
  split; [exact Hval|]. split; [|split].
  - intros slug e He. unfold entries_of. rewrite He. reflexivity.
  - intros slug Hslug. unfold entries_of, scrape_restaurant. rewrite Hslug. reflexivity.
  - intros slug d. unfold entries_of.
    destruct (scrape_here slug) as [items|]; [|intros Hin; inversion Hin].
    intros Hin. apply list_elem_of_fmap in Hin as (item & -> & _).
    destruct (to_dict_fields item) as (Hnn & Hr & Hn).
    split; [exact Hnn|]. rewrite Hr, Hn. split; eexists; reflexivity.
Qed.

End Batch.

(** One known slug requested twice, and one unknown slug. *)
Example scrape_all_run :
  (scrape_all ascii_db page_loads page_get page_ldjson_texts page_select page_text
     (Some [lit "mcdonalds"; lit "pizza-place"; lit "mcdonalds"])).*1
  = [lit "mcdonalds"; lit "pizza-place"]
  /\ length <$> (scrape_all ascii_db page_loads page_get page_ldjson_texts page_select
                   page_text
                   (Some [lit "mcdonalds"; lit "pizza-place"; lit "mcdonalds"])).*2
     = [1%nat; 0%nat].
Proof. split; vm_compute; reflexivity. Qed.

End MenuFacts.

(** ** The helpers of the scraping endpoints *)

Module RouteFacts.
Import Py MenuScraper Routes JsonFacts ScraperFacts.

Lemma targets_known :
  Forall (fun slug => is_Some (targets_get TARGETS slug)) TARGETS.*1.
Proof. repeat constructor; eexists; vm_compute; reflexivity. Qed.

Section WithWorld.
Variable U : unicode_db.
Variable url_path : pystr -> pystr.

(** An input that names a known restaurant. *)
Definition known (item : pystr) : Prop :=
  is_Some (targets_get TARGETS (slug_of U item)).

Lemma resolve_loop_spec inputs normalized unknown :
  resolve_loop U inputs normalized unknown
  = (normalized ++ (slug_of U <$> filter known inputs),
     unknown ++ filter (fun item => ~ known item) inputs).
Proof.
  revert normalized unknown. induction inputs as [|item rest IH];
    intros normalized unknown; simpl.
  - rewrite !app_nil_r. reflexivity.
  - case_bool_decide as Hk.
    + rewrite IH, filter_cons_True by exact Hk.
      rewrite filter_cons_False by (intros H; apply H, Hk).
      rewrite fmap_cons, <- app_assoc. reflexivity.
    + rewrite IH, filter_cons_False by exact Hk.
      rewrite filter_cons_True by exact Hk.
      rewrite <- app_assoc. reflexivity.
Qed.

Lemma filter_none_rejected inputs :
  filter (fun item => ~ known item) inputs = [] -> filter known inputs = inputs.
Proof.
  induction inputs as [|item rest IH]; [reflexivity|].
  destruct (decide (known item)) as [Hk|Hk].
  - rewrite filter_cons_False by (intros H; apply H, Hk).
    rewrite filter_cons_True by exact Hk. intros H. f_equal. apply IH, H.
  - rewrite filter_cons_True by exact Hk. discriminate.
Qed.

(** X26.  [_resolve_scraper_slugs] returns only slugs of [TARGETS]: all six when no
    input is given, otherwise the slug of every input (stripped, lowercased,
    spaces turned into dashes) in the order given, repetitions kept.  As soon
    as one input is unknown the request is refused with status 400, and the
    refusal lists exactly the unknown inputs, as they were typed. *)
Theorem resolve_scraper_slugs_outcome inputs :
  match _resolve_scraper_slugs U inputs with
  | Returned slugs =>
      Forall (fun slug => is_Some (targets_get TARGETS slug)) slugs
      /\ match inputs with
         | Some (item :: rest) =>
             Forall known (item :: rest) /\ slugs = slug_of U <$> (item :: rest)
         | _ => slugs = TARGETS.*1
         end
  | Rejected status_code listed =>
      status_code = 400 /\ listed <> []
      /\ exists item rest,
           inputs = Some (item :: rest)
           /\ listed = filter (fun item => ~ known item) (item :: rest)
  end.
Proof.
  unfold _resolve_scraper_slugs.
  destruct inputs as [[|item rest]|]; try (split; [apply targets_known | reflexivity]).
  rewrite resolve_loop_spec. cbn [app]. case_bool_decide as Hnone.
  - pose proof (filter_none_rejected _ Hnone) as Hall. rewrite Hall.
    assert (Hknown : Forall known (item :: rest)).
    { rewrite <- Hall. apply Forall_forall. intros x Hx.
      apply list_elem_of_filter in Hx. tauto. }
    split; [|split; [exact Hknown | reflexivity]].
    apply Forall_fmap. exact Hknown.
  - split; [reflexivity|]. split; [exact Hnone|].
    exists item, rest. split; reflexivity.
Qed.

Lemma segments_app a b : segments (a ++ 47%N :: b) = segments a ++ segments b.
Proof. unfold segments. rewrite split_char_app, filter_app. reflexivity. Qed.

Lemma segments_one seg : seg <> [] -> 47%N ∉ seg -> segments seg = [seg].
Proof.
  intros Hne Hseg. unfold segments. rewrite (split_char_no_sep _ _ Hseg).
  rewrite filter_cons_True by exact Hne. reflexivity.
Qed.

(** X27.  The endpoint's [_extract_store_id_from_url] and the scraper's
    [_extract_store_id] read the same non-empty segments of the URL's path,
    and the scraper always takes the last one.  They agree when the segments
    are [store], a slug and an id, or [store] and an id: both give the id.
    They part on every deeper path, where the endpoint keeps the third
    segment and the scraper the last one, whatever lies between; and on
    every path whose first segment is not [store], and on a path without a
    segment or with [store] alone, where the endpoint returns the whole URL.
    So it is for a path written [/store/<slug>/<id>/<tail>] with any tail,
    and for a path written [/<first>/<tail>] with any first segment other
    than [store]. *)
Theorem store_id_helpers_agree url :
  let segs := segments (url_path url) in
  let endpoint := _extract_store_id_from_url url_path url in
  let scraper := UberEatsScraper._extract_store_id url_path url in
  scraper = last segs
  /\ (forall slug id,
        segs = [lit "store"; slug; id] -> endpoint = id /\ scraper = Some id)
  /\ (forall id, segs = [lit "store"; id] -> endpoint = id /\ scraper = Some id)
  /\ (forall slug id deeper final,
        segs = lit "store" :: slug :: id :: deeper ++ [final] ->
        endpoint = id /\ scraper = Some final)
  /\ (forall first rest,
        segs = first :: rest -> first <> lit "store" ->
        endpoint = url /\ scraper = last (first :: rest) /\ scraper <> None)
  /\ (segs = [] \/ segs = [lit "store"] -> endpoint = url)
  /\ (forall slug id tail,
        slug <> [] -> (47%N ∉ slug) -> id <> [] -> (47%N ∉ id) ->
        url_path url = lit "/store/" ++ slug ++ 47%N :: id ++ 47%N :: tail ->
        endpoint = id /\ scraper = last (id :: segments tail))
  /\ (forall first tail,
        first <> [] -> (47%N ∉ first) -> first <> lit "store" ->
        url_path url = 47%N :: first ++ 47%N :: tail ->
        endpoint = url /\ scraper = last (first :: segments tail)).
Proof.
  cbv zeta. unfold _extract_store_id_from_url, UberEatsScraper._extract_store_id.
  fold (segments (url_path url)).
  assert (Hother : forall first rest,
            first <> lit "store" ->
            match first :: rest with
            | first :: _ :: third :: _ => if decide (first = lit "store") then third else url
            | [first; second] => if decide (first = lit "store") then second else url
            | _ => url
            end = url).
  { intros first rest Hne. destruct rest as [|second [|third rest]];
      [reflexivity | |]; rewrite decide_False by exact Hne; reflexivity. }
  split; [reflexivity|]. split; [|split; [|split; [|split; [|split; [|split]]]]].
  - intros slug id ->. rewrite decide_True by reflexivity. split; reflexivity.
  - intros id ->. rewrite decide_True by reflexivity. split; reflexivity.
  - intros slug id deeper final ->. rewrite decide_True by reflexivity.
    split; [reflexivity|]. rewrite !app_comm_cons. apply last_snoc.
  - intros first rest -> Hne. split; [apply Hother, Hne|]. split; [reflexivity|].
    rewrite last_cons. destruct (last rest); discriminate.
  - intros [-> | ->]; reflexivity.
  - intros slug id tail Hslug Hslug' Hid Hid' ->.
    assert (Hsegs : segments (lit "/store/" ++ slug ++ 47%N :: id ++ 47%N :: tail)
                    = lit "store" :: slug :: id :: segments tail).
    { change (lit "/store/" ++ slug ++ 47%N :: id ++ 47%N :: tail)
        with ([] ++ 47%N :: lit "store" ++ 47%N :: slug ++ 47%N :: id ++ 47%N :: tail).
      rewrite segments_app.
      change (lit "store" ++ 47%N :: slug ++ 47%N :: id ++ 47%N :: tail)
        with (lit "store" ++ 47%N :: (slug ++ 47%N :: (id ++ 47%N :: tail))).
      rewrite !segments_app.
      rewrite (segments_one slug Hslug Hslug'), (segments_one id Hid Hid').
      rewrite (segments_one (lit "store"))
        by (discriminate || (refine (bool_decide_unpack _ _); vm_compute; exact I)).
      reflexivity. }
    rewrite Hsegs. rewrite decide_True by reflexivity. split; [reflexivity|].
    rewrite (last_cons (lit "store")), (last_cons slug), (last_cons id).
    generalize (@last (list N) (segments tail)). intros [final|]; reflexivity.
  - intros first tail Hfirst Hfirst' Hne ->.
    assert (Hsegs : segments (47%N :: first ++ 47%N :: tail) = first :: segments tail).
    { change (47%N :: first ++ 47%N :: tail) with ([] ++ 47%N :: (first ++ 47%N :: tail)).
      rewrite !segments_app, (segments_one first Hfirst Hfirst'). reflexivity. }
    rewrite Hsegs. split; [apply Hother, Hne | reflexivity].
Qed.

End WithWorld.

Lemma store_id_helpers_agree_witness :
  (_extract_store_id_from_url (fun url => url) (lit "/store/mcdonalds-main-st/abc123")
   = lit "abc123"
   /\ UberEatsScraper._extract_store_id (fun url => url)
        (lit "/store/mcdonalds-main-st/abc123")
      = Some (lit "abc123"))
  /\ (_extract_store_id_from_url (fun url => url)
        (lit "/store/mcdonalds-main-st/abc123/menu/items/777")
      = lit "abc123"
      /\ UberEatsScraper._extract_store_id (fun url => url)
           (lit "/store/mcdonalds-main-st/abc123/menu/items/777")
         = Some (lit "777"))
  /\ (_extract_store_id_from_url (fun url => url) (lit "/en/stores/abc123")
      = lit "/en/stores/abc123"
      /\ UberEatsScraper._extract_store_id (fun url => url) (lit "/en/stores/abc123")
         = Some (lit "abc123")).
Proof.
  split; [|split].
  - destruct (store_id_helpers_agree (fun url => url)
                (lit "/store/mcdonalds-main-st/abc123")) as (_ & Hagree & _).
    apply (Hagree (lit "mcdonalds-main-st") (lit "abc123")). vm_compute. reflexivity.
  - destruct (store_id_helpers_agree (fun url => url)
                (lit "/store/mcdonalds-main-st/abc123/menu/items/777"))
      as (_ & _ & _ & Hdeeper & _).
    apply (Hdeeper (lit "mcdonalds-main-st") (lit "abc123") [lit "menu"; lit "items"]
             (lit "777")).
    vm_compute. reflexivity.
  - destruct (store_id_helpers_agree (fun url => url) (lit "/en/stores/abc123"))
      as (_ & _ & _ & _ & Hother & _).
    destruct (Hother (lit "en") [lit "stores"; lit "abc123"]) as (Hurl & Hlast & _).
    + vm_compute. reflexivity.
    + discriminate.
    + split; [exact Hurl | exact Hlast].
Defined.

(** Names as a user types them, and a request with one unknown name. *)
Example resolve_scraper_slugs_runs :
  _resolve_scraper_slugs ascii_db (Some [lit " Taco Bell "; lit "WENDYS"])
  = Returned [lit "taco-bell"; lit "wendys"]
  /\ _resolve_scraper_slugs ascii_db (Some [lit "Taco Bell"; lit "Pizza Place"])
     = Rejected 400 [lit "Pizza Place"]
  /\ _resolve_scraper_slugs ascii_db (Some [])
     = Returned [lit "mcdonalds"; lit "taco-bell"; lit "wendys"; lit "burger-king";
                 lit "chick-fil-a"; lit "subway"].
Proof. repeat split; vm_compute; reflexivity. Qed.

End RouteFacts.

(** ** The rate limiter *)

Module LimiterFacts.
Import Py RateLimiter.

Lemma drop_expired_suffix horizon requests :
  exists dropped,
    requests = dropped ++ drop_expired horizon requests
    /\ Forall (fun t => (t <? horizon)%float = true) dropped
    /\ match drop_expired horizon requests with
       | [] => True
       | oldest :: _ => (oldest <? horizon)%float = false
       end.
Proof.
  induction requests as [|t rest (dropped & Heq & Hall & Hhead)]; simpl.
  - exists []. repeat split. constructor.
  - destruct (t <? horizon)%float eqn:Ht.
    + exists (t :: dropped). split; [simpl; f_equal; exact Heq|].
      split; [constructor; assumption | exact Hhead].
    + exists []. split; [reflexivity|]. split; [constructor | exact Ht].
Qed.

Lemma cleanup_suffix time_window now requests cleaned :
  cleanup time_window now requests = Done cleaned ->
  exists dropped,
    requests = dropped ++ cleaned
    /\ match cleaned with
       | [] => True
       | oldest :: _ =>
           exists window,
             float_of_int time_window = Ok window
             /\ (oldest <? now - window)%float = false
       end.
Proof.
  unfold cleanup. destruct requests as [|t rest].
  - intros [= <-]. exists []. split; [reflexivity | exact I].
  - destruct (float_of_int time_window) as [window|] eqn:Hw; [|discriminate].
    intros Hc.
    assert (Hcl : drop_expired (now - window)%float (t :: rest) = cleaned)
      by congruence.
    clear Hc.
    destruct (drop_expired_suffix (now - window)%float (t :: rest))
      as (dropped & Heq & _ & Hhead).
    rewrite Hcl in Heq, Hhead. exists dropped. split; [exact Heq|].
    destruct cleaned; [exact I|].
    exists window. split; [reflexivity | exact Hhead].
Qed.

(** What a returning call of [acquire] did to the deque: [after] is a suffix
    of [requests] followed by one new timestamp, the clock read last; the
    oldest timestamp kept is not older than the window at that clock; a call
    with fewer recorded requests than [max_requests] did not sleep; a call
    that slept did so for the remaining life of the oldest timestamp plus a
    tenth of a second. *)
Definition recorded (max_requests time_window : Z) (now now_after_sleep : float)
  (requests after : list float) (slept : option float) : Prop :=
  let stamp := match slept with Some _ => now_after_sleep | None => now end in
  exists dropped kept,
    requests = dropped ++ kept
    /\ after = kept ++ [stamp]
    /\ (length after <= length requests + 1)%nat
    /\ match kept with
       | [] => True
       | oldest :: _ =>
           exists window,
             float_of_int time_window = Ok window
             /\ (oldest <? stamp - window)%float = false
       end
    /\ (Z.of_nat (length requests) < max_requests -> slept = None)
    /\ (forall sleep_time,
          slept = Some sleep_time ->
          (0 <? sleep_time)%float = true
          /\ exists oldest window,
               float_of_int time_window = Ok window
               /\ head (drop_expired (now - window)%float requests) = Some oldest
               /\ sleep_time = (oldest + window - now + 0.1)%float).

Lemma recorded_without_sleep
  max_requests time_window now now_after_sleep requests cleaned :
  cleanup time_window now requests = Done cleaned ->
  recorded max_requests time_window now now_after_sleep requests
    (cleaned ++ [now]) None.
Proof.
  intros Hclean. destruct (cleanup_suffix _ _ _ _ Hclean) as (dropped & Heq & Hhead).
  exists dropped, cleaned. split; [exact Heq|]. split; [reflexivity|].
  split; [rewrite Heq, !length_app; simpl; lia|]. split; [exact Hhead|].
  split; [reflexivity | discriminate].
Qed.

(** X7.  A call of [acquire] that returns leaves the deque as a suffix of the one
    before, followed by exactly one new timestamp: timestamps are dropped
    from the front only, and the deque grows by at most one. *)
Theorem acquire_records_one_request
  max_requests time_window now now_after_sleep requests after slept :
  acquire max_requests time_window now now_after_sleep requests = Done (after, slept) ->
  recorded max_requests time_window now now_after_sleep requests after slept.
Proof.
  unfold acquire.
  destruct (cleanup time_window now requests) as [cleaned|] eqn:Hclean; [|discriminate].
  pose proof (recorded_without_sleep max_requests time_window now now_after_sleep
                requests cleaned Hclean) as Hplain.
  destruct (Z.of_nat (length cleaned) >=? max_requests) eqn:Hfull;
    [|intros [= <- <-]; exact Hplain].
  destruct cleaned as [|oldest rest]; [discriminate|].
  destruct (float_of_int time_window) as [window|] eqn:Hw; [|discriminate].
  destruct (0 <? oldest + window - now + 0.1)%float eqn:Hsleep;
    [|intros [= <- <-]; exact Hplain].
  destruct (cleanup time_window now_after_sleep (oldest :: rest)) as [cleaned'|] eqn:Hclean';
    [|discriminate].
  intros [= <- <-].
  destruct (cleanup_suffix _ _ _ _ Hclean) as (dropped & Heq & _).
  destruct (cleanup_suffix _ _ _ _ Hclean') as (dropped' & Heq' & Hhead').
  exists (dropped ++ dropped'), cleaned'.
  split; [rewrite Heq, Heq', app_assoc; reflexivity|]. split; [reflexivity|].
  split.
  { rewrite length_app. simpl. rewrite Heq, Heq', !length_app. lia. }
  split; [exact Hhead'|]. split.
  { intros Hfew. apply Z.geb_le in Hfull.
    assert (length (oldest :: rest) <= length requests)%nat
      by (rewrite Heq, length_app; lia).
    lia. }
  intros sleep_time [= <-]. split; [exact Hsleep|].
  exists oldest, window. split; [exact Hw|]. split; [|reflexivity].
  unfold cleanup in Hclean. destruct requests as [|t ts]; [discriminate|].
  rewrite Hw in Hclean.
  assert (Hcl : drop_expired (now - window)%float (t :: ts) = oldest :: rest)
    by congruence.
  rewrite Hcl. reflexivity.
Qed.

Lemma drop_expired_length horizon requests :
  (length (drop_expired horizon requests) <= length requests)%nat.
Proof.
  induction requests as [|t rest IH]; simpl; [lia|].
  destruct (t <? horizon)%float; simpl; lia.
Qed.

(** X8.  The limit is kept: starting from a deque of at most [max_requests]
    timestamps, a call of [acquire] that returns leaves at most
    [max_requests] of them, provided that the oldest timestamp in the window
    still has a positive life left when the limit is hit, and that it has
    left the window when the sleep is over. *)
Theorem acquire_keeps_limit
  max_requests time_window now now_after_sleep requests after slept :
  0 < max_requests ->
  Z.of_nat (length requests) <= max_requests ->
  (forall window oldest,
     float_of_int time_window = Ok window ->
     head (drop_expired (now - window)%float requests) = Some oldest ->
     (0 <? oldest + window - now + 0.1)%float = true
     /\ (oldest <? now_after_sleep - window)%float = true) ->
  acquire max_requests time_window now now_after_sleep requests = Done (after, slept) ->
  Z.of_nat (length after) <= max_requests.
Proof.
  intros Hmax Hlen Hclock. unfold acquire, cleanup at 1.
  destruct max_requests as [|m|m]; try lia.
  destruct requests as [|t ts].
  { simpl. intros [= <- <-]. simpl. lia. }
  destruct (float_of_int time_window) as [window|] eqn:Hw; [|discriminate].
  pose proof (drop_expired_length (now - window)%float (t :: ts)) as Hdrop.
  specialize (Hclock window).
  destruct (drop_expired (now - window)%float (t :: ts)) as [|oldest rest] eqn:Hcl.
  { simpl. intros [= <- <-]. simpl. lia. }
  destruct (Hclock oldest eq_refl eq_refl) as [Hlife Hgone].
  destruct (Z.of_nat (length (oldest :: rest)) >=? Z.pos m) eqn:Hfull.
  - rewrite Hlife. unfold cleanup. rewrite Hw.
    intros [= <- <-]. simpl drop_expired. rewrite Hgone.
    pose proof (drop_expired_length (now_after_sleep - window)%float rest) as Hdrop'.
    rewrite length_app. simpl in *. lia.
  - intros [= <- <-]. rewrite Z.geb_leb in Hfull. apply Z.leb_gt in Hfull.
    cbn [app length] in *. rewrite length_app. cbn [length] in *. lia.
Qed.

(** The limiter of the service: 50 requests per 60 seconds.  The 50th request
    of a burst goes through at once; the 51st sleeps until the first one is
    60.1 seconds old, and takes its place. *)
Definition burst (n : nat) : list float :=
  (fun k => (1000 + PrimFloat.of_uint63 (Uint63.of_Z (Z.of_nat k)))%float) <$> seq 0 n.

Lemma acquire_records_one_request_witness :
  recorded 50 60 1050 1060.2 (burst 50) (tail (burst 50) ++ [1060.2%float])
    (Some 10.1%float).
Proof.
  apply (acquire_records_one_request 50 60 1050 1060.2 (burst 50)
           (tail (burst 50) ++ [1060.2%float]) (Some 10.1%float)).
  vm_compute. reflexivity.
Defined.

Lemma acquire_keeps_limit_witness :
  Z.of_nat (length (tail (burst 50) ++ [1060.2%float])) <= 50.
Proof.
  apply (acquire_keeps_limit 50 60 1050 1060.2 (burst 50)
           (tail (burst 50) ++ [1060.2%float]) (Some 10.1%float)).
  - reflexivity.
  - vm_compute. discriminate.
  - intros window oldest Hw Hhead. vm_compute in Hw. injection Hw as <-.
    vm_compute in Hhead. injection Hhead as <-. split; reflexivity.
  - vm_compute. reflexivity.
Defined.

Example acquire_runs :
  acquire 50 60 1049 1049 (burst 49) = Done (burst 49 ++ [1049%float], None)
  /\ acquire 50 60 1050 1060.2 (burst 50)
     = Done (tail (burst 50) ++ [1060.2%float], Some 10.1%float)
  /\ acquire 0 60 1050 1060.2 [] = Raised IndexError.
Proof. repeat split; vm_compute; reflexivity. Qed.

End LimiterFacts.
